(** * Ecomm-Project: the catalog index and the search resolver

    A shallow embedding of the two search engines of the repository:

    - the CSV-backed catalog store ([CsvDb], from the file whose header reads
      "search.js — CSV-backed data + indexes + routing"): [parseCSV], the
      field coercions [toInt] and [parseMoneyUSD], [load] with its cache and
      indexes, the accessors and the exact resolver [runSearch];
    - the exact-then-fuzzy engine ([Fuzzy], from
      "Ecomm Project/Ecomm Project/search.js"): [key], [parseCSV], [DB.init],
      [runSearch], [findBestCandidates], [pickUniqueRoute], [score],
      [scoreLoose] and [editDistance], the accessors that [DB.init]
      installs, [escapeHTML] and [escapeAttr].

    Modelling conventions.
    - A JavaScript string is a [string] of bytes read as ASCII text (the
      UTF-8 encoding of the text, for what is only copied or compared):
      case mapping acts on the letters A-Z and a-z, white space is
      tab, line feed, vertical tab, form feed, carriage return and space.
    - A JavaScript Number that holds a score, a price or a ratio is a
      binary64 [float] with the primitive IEEE operations; a Number that
      holds the result of [parseInt] is the integer value of that double.
    - [undefined] and [null] are [None]; [a || b] on strings picks [b] when
      [a] is absent or empty.
    - [Map] and prototype-less objects used as maps are [gmap]s when they are
      only read by key, and property lists when their enumeration order is
      observed. A record of a CSV file is an object literal filled by
      assignment: the [gmap] of its own properties, in which an assignment
      under the name [__proto__] stores nothing.
    - An [async] function is a function of what the fetches settle to
      ([Net.Env]) and of the module's state; a rejected promise is a failure
      value. The page effects ([location.href], [alert], the toast and the
      overlay) are returned as a list; what is written to the console by a
      successful load is left out.
    - [String.prototype.localeCompare] is the host's collation: a parameter
      of the model.
    - [Array.prototype.sort] is the stable sort that the language specifies,
      written as an insertion sort. *)

From Stdlib Require Import ZArith NArith List String Ascii Bool Lia.
From Stdlib Require Import Floats Permutation Sorted.
From stdpp Require Import base option gmap strings list sorting.

Set Warnings "-inexact-float".

Local Open Scope string_scope.
Local Open Scope Z_scope.

(** ** JavaScript string primitives *)

Module Js.

Definition code (c : ascii) : N := N_of_ascii c.

(** The ASCII members of the WhiteSpace and LineTerminator productions:
    what [\s] matches and what [trim] removes. *)
Definition isWhiteSpace (c : ascii) : bool :=
  ((9 <=? code c) && (code c <=? 13) || (code c =? 32))%N.

Definition isDigit (c : ascii) : bool :=
  ((48 <=? code c) && (code c <=? 57))%N.

Definition isUpper (c : ascii) : bool :=
  ((65 <=? code c) && (code c <=? 90))%N.

Definition isLower (c : ascii) : bool :=
  ((97 <=? code c) && (code c <=? 122))%N.

Definition upperChar (c : ascii) : ascii :=
  if isLower c then ascii_of_N (code c - 32) else c.

Definition lowerChar (c : ascii) : ascii :=
  if isUpper c then ascii_of_N (code c + 32) else c.

Fixpoint mapChars (f : ascii -> ascii) (s : string) : string :=
  match s with
  | EmptyString => EmptyString
  | String c t => String (f c) (mapChars f t)
  end.

Fixpoint filterChars (p : ascii -> bool) (s : string) : string :=
  match s with
  | EmptyString => EmptyString
  | String c t => if p c then String c (filterChars p t) else filterChars p t
  end.

Fixpoint allChars (p : ascii -> bool) (s : string) : bool :=
  match s with
  | EmptyString => true
  | String c t => p c && allChars p t
  end.

Definition toUpperCase : string -> string := mapChars upperChar.
Definition toLowerCase : string -> string := mapChars lowerChar.

Fixpoint trimStart (s : string) : string :=
  match s with
  | EmptyString => EmptyString
  | String c t => if isWhiteSpace c then trimStart t else s
  end.

Fixpoint trimEnd (s : string) : string :=
  match s with
  | EmptyString => EmptyString
  | String c t =>
      match trimEnd t with
      | EmptyString => if isWhiteSpace c then EmptyString else String c EmptyString
      | t' => String c t'
      end
  end.

Definition trim (s : string) : string := trimEnd (trimStart s).

(** [s.startsWith(p)] *)
Fixpoint startsWith (s p : string) : bool :=
  match p, s with
  | EmptyString, _ => true
  | String _ _, EmptyString => false
  | String a p', String b s' => Ascii.eqb a b && startsWith s' p'
  end.

(** [s.includes(p)] *)
Fixpoint includes (s p : string) : bool :=
  startsWith s p ||
  match s with
  | EmptyString => false
  | String _ s' => includes s' p
  end.

(** The greatest length of a String: 2^53 - 1 elements. *)
Definition maxLength : Z := 2 ^ 53 - 1.

(** Truthiness of a string: non-empty. *)
Definition truthy (s : string) : bool :=
  match s with EmptyString => false | _ => true end.

(** [a || b] where [a] is a string or [undefined]. *)
Definition orElse (a : option string) (b : option string) : option string :=
  match a with
  | Some (String _ _) => a
  | _ => b
  end.

(** [String(a || "")] for a string or absent [a]. *)
Definition orEmpty (a : option string) : string :=
  match a with Some s => s | None => "" end.

Definition hexDigit (n : N) : ascii :=
  if (n <? 10)%N then ascii_of_N (48 + n) else ascii_of_N (55 + n).

(** The characters [encodeURIComponent] leaves alone:
    letters, digits and [- _ . ! ~ * ' ( )]. *)
Definition uriUnreserved (c : ascii) : bool :=
  isUpper c || isLower c || isDigit c ||
  existsb (Ascii.eqb c) ["-"; "_"; "."; "!"; "~"; "*"; "'"; "("; ")"]%char.

(** [encodeURIComponent]: every other byte of the UTF-8 text becomes [%XX]. *)
Fixpoint encodeURIComponent (s : string) : string :=
  match s with
  | EmptyString => EmptyString
  | String c t =>
      if uriUnreserved c then String c (encodeURIComponent t)
      else String "%" (String (hexDigit (code c / 16))
             (String (hexDigit (code c mod 16)%N) (encodeURIComponent t)))
  end.

End Js.

(** ** JavaScript Numbers *)

Module JsNumber.

Local Open Scope float_scope.

(** The double nearest to the integer [z] (exact below 2^53). *)
Definition ofZ (z : Z) : float := SF2Prim (binary_normalize prec emax z 0 false).

Definition ofNat (n : nat) : float := ofZ (Z.of_nat n).

(** The double nearest to [num / den], for [0 <= num] and [0 < den]:
    the quotient is computed with 64 extra bits and a sticky bit, then
    rounded to nearest, ties to even. *)
Definition ofRatio (num den : Z) : float :=
  if (num =? 0)%Z then 0
  else
    let s := Z.max 0 (Z.log2 den + 64 - Z.log2 num) in
    let n := (num * 2 ^ s)%Z in
    let q := (n / den)%Z in
    let sticky := if (n mod den =? 0)%Z then 0%Z else 1%Z in
    SF2Prim (binary_normalize prec emax (2 * q + sticky) (- s - 1) false).

Definition isFinite (x : float) : bool :=
  negb (is_nan x) && negb (is_infinity x).

(** [x || 0] on a Number: 0, -0 and NaN are falsy. *)
Definition orZero (x : float) : float :=
  if is_nan x || is_zero x then 0 else x.

(** [Math.max(x, y)] on two doubles. *)
Definition max (x y : float) : float :=
  if is_nan x || is_nan y then nan
  else if x <? y then y
  else if y <? x then x
  else if get_sign x then y else x.

(** [Math.round]: the nearest integer, halves towards +infinity. *)
Definition round (x : float) : float :=
  match Prim2SF x with
  | S754_finite s m e =>
      if (0 <=? e)%Z then x
      else
        let d := (2 ^ (- e))%Z in
        let n := if s then Z.neg m else Z.pos m in
        let r := if (d <=? 2 * (n mod d))%Z then (n / d + 1)%Z else (n / d)%Z in
        if (r =? 0)%Z then (if s then neg_zero else zero) else ofZ r
  | _ => x
  end.

Fixpoint digitsValue (acc : Z) (s : string) : Z :=
  match s with
  | EmptyString => acc
  | String c t => digitsValue (10 * acc + Z.of_N (Js.code c - 48)) t
  end.

(** Split at the first decimal point. *)
Fixpoint splitPoint (s : string) : string * option string :=
  match s with
  | EmptyString => (EmptyString, None)
  | String c t =>
      if Ascii.eqb c "." then (EmptyString, Some t)
      else let '(i, f) := splitPoint t in (String c i, f)
  end.

(** StrUnsignedDecimalLiteral without exponent: [digits], [digits.],
    [digits.digits] or [.digits]; the value as [num / 10^scale]. *)
Definition unsignedDecimal (s : string) : option (Z * nat) :=
  match splitPoint s with
  | (i, None) =>
      if Js.truthy i && Js.allChars Js.isDigit i
      then Some (digitsValue 0 i, 0%nat) else None
  | (i, Some f) =>
      if Js.allChars Js.isDigit i && Js.allChars Js.isDigit f
         && (Js.truthy i || Js.truthy f)
      then Some (digitsValue 0 (i ++ f), String.length f) else None
  end.

(** [Number(s)] for a string [s] over digits, the decimal point and the
    signs, which is all that the callers leave in it: the empty string is
    0, a malformed literal is NaN. *)
Definition ofString (s : string) : float :=
  match s with
  | EmptyString => 0
  | String c t =>
      let '(neg, body) :=
        if Ascii.eqb c "-" then (true, t)
        else if Ascii.eqb c "+" then (false, t) else (false, s) in
      match unsignedDecimal body with
      | Some (num, scale) =>
          let v := ofRatio num (10 ^ Z.of_nat scale) in
          if neg then - v else v
      | None => nan
      end
  end.

End JsNumber.

(** ** The fetch primitive *)

Module Net.

(** What [fetch(path)] settles to: a rejection, or a response. *)
Inductive Fetched := NetworkError | Response (status : Z) (body : string).

(** The files behind the page, by path. *)
Definition Env := string -> Fetched.

(** [res.ok]: a status in the range 200-299. *)
Definition ok (status : Z) : bool := (200 <=? status)%Z && (status <=? 299)%Z.

End Net.

(** ** Arrays *)

Module JsArray.

Section Sort.
Context {A : Type}.
(** [gt a b] is [compareFn(a, b) > 0]: [b] has to come before [a]. *)
Variable gt : A -> A -> bool.

Fixpoint insert (x : A) (l : list A) : list A :=
  match l with
  | [] => [x]
  | y :: l' => if gt x y then y :: insert x l' else x :: l
  end.

(** [Array.prototype.sort(compareFn)]: the stable sort of the array. *)
Definition sort (l : list A) : list A := foldr insert [] l.
End Sort.

(** [l.find(p)] *)
Definition find {A} (p : A -> bool) (l : list A) : option A := List.find p l.

End JsArray.

(** ** The exact-then-fuzzy engine (Ecomm Project/Ecomm Project/search.js) *)

Module Fuzzy.

Local Open Scope float_scope.

(** *** Helpers *)

Definition isSeparator (c : ascii) : bool :=
  Js.isWhiteSpace c || Ascii.eqb c "-" || Ascii.eqb c "_".

(** [String(s || '').toUpperCase().replace(/[\s\-_]/g,'').trim()] *)
Definition key (s : string) : string :=
  Js.trim (Js.filterChars (fun c => negb (isSeparator c)) (Js.toUpperCase s)).

Definition keepNumeric (c : ascii) : bool :=
  Js.isDigit c || Ascii.eqb c "." || Ascii.eqb c "-".

(** [toNum(v)] for a string or absent [v]. *)
Definition toNum (v : option string) : float :=
  match v with
  | None | Some EmptyString => 0
  | Some s =>
      let n := JsNumber.ofString (Js.filterChars keepNumeric s) in
      if JsNumber.isFinite n then n else 0
  end.

(** *** parseCSV *)

Definition pushRow (row : list string) (rows : list (list string)) : list (list string) :=
  match row with
  | [] | [EmptyString] => rows
  | _ => rows ++ [row]
  end.

Definition appendChar (field : string) (c : ascii) : string :=
  field ++ String c EmptyString.

Definition dquote : ascii := "034"%char.

(** The scanning loop: [text] is what remains from position [i] on. *)
Fixpoint scan (text : string) (inQuotes : bool) (field : string)
    (row : list string) (rows : list (list string)) : list (list string) :=
  match text with
  | EmptyString => pushRow (row ++ [field]) rows
  | String c rest =>
      if inQuotes then
        if Ascii.eqb c dquote then
          match rest with
          | String "034"%char rest' => scan rest' true (appendChar field dquote) row rows
          | _ => scan rest false field row rows
          end
        else scan rest true (appendChar field c) row rows
      else if Ascii.eqb c dquote then scan rest true field row rows
      else if Ascii.eqb c "," then scan rest false "" (row ++ [field]) rows
      else if Ascii.eqb c "013" then
        match rest with
        | String "010"%char rest' => scan rest' false "" [] (pushRow (row ++ [field]) rows)
        | _ => scan rest false "" [] (pushRow (row ++ [field]) rows)
        end
      else if Ascii.eqb c "010" then scan rest false "" [] (pushRow (row ++ [field]) rows)
      else scan rest false (appendChar field c) row rows
  end.

Abbreviation Row := (gmap string string).

(** [obj[h] = v] on an object literal, for a string [v]. Under the name
    [__proto__] the assignment reaches the setter that the object inherits,
    which ignores a value that is no object: no property is stored. *)
Definition setProperty (obj : Row) (h v : string) : Row :=
  if String.eqb h "__proto__" then obj else <[h := v]> obj.

Definition rowObject (headers rowVals : list string) : Row :=
  foldl (fun (obj : Row) '(c, h) => setProperty obj h (default "" (rowVals !! c)))
        ∅ (imap pair headers).

Definition parseCSV (text : string) : list Row :=
  match scan text false "" [] [] with
  | [] => []
  | header :: body =>
      let headers := map Js.trim header in
      map (rowObject headers) body
  end.

(** *** The records of DB.init *)

Module Model.
Record t := { id : option string; brand : string; modelNumber : string }.
End Model.

Module Schematic.
Record t := { id : string; modelID : string; name : string;
              order : float; image : string }.
End Schematic.

Module Part.
Record t := { id : string; number : string; manufacturer : string;
              name : string; description : string; productStatus : string;
              inventory : float; price : float }.
End Part.

Definition get (r : Row) (k : string) : option string := r !! k.

(** [a || b || ... || '']: the first truthy operand, else the empty
    string. *)
Definition firstOr (r : Row) (ks : list string) : string :=
  Js.orEmpty (foldr (fun k acc => Js.orElse (get r k) acc) (Some "") ks).

Definition mkModel (r : Row) : Model.t :=
  {| Model.id := Js.orElse (get r "id") (Js.orElse (get r "ID")
                  (Js.orElse (get r "modelID") (Js.orElse (get r "modelId")
                  (Js.orElse (get r "model") (get r "modelNumber")))));
     Model.brand := firstOr r ["brand"; "Brand"];
     Model.modelNumber := firstOr r ["modelNumber"; "model"; "id"] |}.

Definition mkSchematic (r : Row) : Schematic.t :=
  {| Schematic.id := firstOr r ["id"; "ID"];
     Schematic.modelID := firstOr r ["modelID"; "modelId"; "model"];
     Schematic.name := firstOr r ["name"; "Name"];
     Schematic.order := toNum (Js.orElse (get r "order") (get r "Order"));
     Schematic.image := firstOr r ["image"; "Image"] |}.

Definition mkPart (r : Row) : Part.t :=
  {| Part.id := firstOr r ["id"; "ID"];
     Part.number := firstOr r ["number"; "Number"];
     Part.manufacturer := firstOr r ["manufacturer"; "Manufacturer"];
     Part.name := firstOr r ["name"; "Name"];
     Part.description := firstOr r ["description"; "Description"];
     Part.productStatus := firstOr r ["productStatus"; "status"; "Status"];
     Part.inventory := toNum (Js.orElse (get r "inventory") (get r "Inventory"));
     Part.price := toNum (Js.orElse (get r "price") (get r "Price")) |}.

(** *** Indexes *)

Record Indexes := {
  modelByKey : gmap string Model.t;
  schematicByKey : gmap string Schematic.t;
  partByIdKey : gmap string Part.t;
  partByNumberKey : gmap string Part.t
}.

Record DB := {
  models : list Model.t;
  schematics : list Schematic.t;
  parts : list Part.t;
  ix : Indexes
}.

Definition indexModel (ix : gmap string Model.t) (m : Model.t) : gmap string Model.t :=
  if negb (Js.truthy (Model.modelNumber m)) then ix
  else
    let ix := <[key (Model.modelNumber m) := m]> ix in
    match Model.id m with
    | Some (String _ _ as i) => <[key i := m]> ix
    | _ => ix
    end.

Definition indexSchematic (ix : gmap string Schematic.t) (s : Schematic.t) :=
  if Js.truthy (Schematic.id s) then <[key (Schematic.id s) := s]> ix else ix.

Definition indexPartId (ix : gmap string Part.t) (p : Part.t) :=
  if Js.truthy (Part.id p) then <[key (Part.id p) := p]> ix else ix.

Definition indexPartNumber (ix : gmap string Part.t) (p : Part.t) :=
  if Js.truthy (Part.number p) then <[key (Part.number p) := p]> ix else ix.

Definition build (modelRows schemRows partRows : list Row) : DB :=
  let ms := map mkModel modelRows in
  let ss := map mkSchematic schemRows in
  let ps := map mkPart partRows in
  {| models := ms; schematics := ss; parts := ps;
     ix := {| modelByKey := foldl indexModel ∅ ms;
              schematicByKey := foldl indexSchematic ∅ ss;
              partByIdKey := foldl indexPartId ∅ ps;
              partByNumberKey := foldl indexPartNumber ∅ ps |} |}.

(** *** DB.init *)

(** [fetch(path).then(r => r.text())]: the status is not looked at. *)
Definition fetchBody (env : Net.Env) (path : string) : option string :=
  match env path with
  | Net.NetworkError => None
  | Net.Response _ body => Some body
  end.

(** The promise [DB.ready], made once: [None] when it rejects. *)
Definition init (env : Net.Env) : option DB :=
  match fetchBody env "/models.csv", fetchBody env "/schematics.csv",
        fetchBody env "/parts.csv" with
  | Some modelsTxt, Some schemTxt, Some partsTxt =>
      Some (build (parseCSV modelsTxt) (parseCSV schemTxt) (parseCSV partsTxt))
  | _, _, _ => None
  end.

(** *** Scoring *)

Definition chars (s : string) : list ascii := list_ascii_of_string s.

(** The value stored in [dp[j]] by one turn of the inner loop. *)
Definition cell (a b : list ascii) (i j prev : nat) (dp : list nat) : nat :=
  if bool_decide (a !! (i - 1)%nat = b !! (j - 1)%nat) then prev
  else Nat.min (prev + 1) (Nat.min (dp !!! j + 1) (dp !!! (j - 1)%nat + 1)).

(** One turn of the inner loop on the state [(prev, dp)]. *)
Definition innerStep (a b : list ascii) (i : nat) (st : nat * list nat) (j : nat)
    : nat * list nat :=
  let tmp := st.2 !!! j in
  (tmp, <[j := cell a b i j st.1 st.2]> st.2).

(** One turn of the outer loop: row [i] overwrites row [i - 1]. *)
Definition outerStep (a b : list ascii) (n : nat) (dp : list nat) (i : nat) : list nat :=
  (foldl (innerStep a b i) (dp !!! 0%nat, <[0%nat := i]> dp) (seq 1 n)).2.

(** Levenshtein (iterative, one row). *)
Definition editDistance (a b : string) : nat :=
  let m := String.length a in
  let n := String.length b in
  if (m =? 0)%nat then n
  else if (n =? 0)%nat then m
  else foldl (outerStep (chars a) (chars b) n) (seq 0 (S n)) (seq 1 m) !!! n.

Definition len (s : string) : float := JsNumber.ofNat (String.length s).

(** Strong score: exact/prefix/substring + edit distance. *)
Definition score (qKey hayRaw : string) : float :=
  let hayKey := key hayRaw in
  if negb (Js.truthy hayKey) then 0
  else if String.eqb hayKey qKey then 1.0
  else if Js.startsWith hayKey qKey then 0.97 * (len qKey / len hayKey)
  else if Js.includes hayKey qKey then 0.90 * (len qKey / len hayKey)
  else
    let d := editDistance qKey hayKey in
    let maxLen := Nat.max (String.length qKey) (String.length hayKey) in
    let sim := 1 - (JsNumber.ofNat d / JsNumber.ofNat maxLen) in
    sim * 0.85.

Definition scoreLoose (qKey text : string) : float :=
  let hay := key text in
  if negb (Js.truthy hay) then 0
  else if Js.includes hay qKey
  then 0.88 * (len qKey / JsNumber.ofNat (Nat.max (String.length hay) (String.length qKey)))
  else
    let d := editDistance qKey hay in
    let sim := 1 - (JsNumber.ofNat d
                    / JsNumber.ofNat (Nat.max (String.length qKey) (String.length hay))) in
    sim * 0.75.

(** *** Candidate generation *)

Record Candidate := { cscore : float; label : string; sub : string; route : string }.

Record Limits := { limitModels : nat; limitParts : nat; limitSchems : nat }.

Definition defaultLimits : Limits :=
  {| limitModels := 8; limitParts := 8; limitSchems := 5 |}.

Record Buckets := {
  bmodels : list Candidate;
  bparts : list Candidate;
  bschematics : list Candidate;
  uniqueRoute : option string;
  totalFound : nat
}.

(** [String(x)] of a string or [undefined]. *)
Definition toStr (x : option string) : string :=
  match x with Some s => s | None => "undefined" end.

Definition modelCandidate (qNorm : string) (m : Model.t) : option Candidate :=
  let hay := Js.orEmpty (Js.orElse (Some (Model.modelNumber m))
                                   (Js.orElse (Model.id m) (Some ""))) in
  let s := score qNorm hay in
  if 0.55 <? s then
    Some {| cscore := s; label := Model.modelNumber m; sub := Model.brand m;
            route := "model.html?id=" ++ Js.encodeURIComponent
                       (toStr (Js.orElse (Some (Model.modelNumber m)) (Model.id m))) |}
  else None.

Definition orStr (a b : string) : string := if Js.truthy a then a else b.

Definition partCandidate (qNorm : string) (p : Part.t) : option Candidate :=
  let primary := orStr (Part.number p) (orStr (Part.id p) "") in
  let s := score qNorm primary in
  let s :=
    if (s <? 0.7) && (Js.truthy (Part.name p) || Js.truthy (Part.description p)) then
      let extra :=
        JsNumber.max
          (if Js.truthy (Part.name p) then scoreLoose qNorm (Part.name p) else 0)
          (if Js.truthy (Part.description p) then scoreLoose qNorm (Part.description p) else 0)
        * 0.9 in
      JsNumber.max s extra
    else s in
  if 0.55 <? s then
    Some {| cscore := s; label := primary;
            sub := orStr (Part.name p) (orStr (Part.description p) "");
            route := "parts.html?id=" ++ Js.encodeURIComponent primary |}
  else None.

Definition schematicCandidate (qNorm : string) (s : Schematic.t) : option Candidate :=
  let id := orStr (Schematic.id s) "" in
  let nm := orStr (Schematic.name s) "" in
  let combo := orStr (Schematic.modelID s) "" ++ " " ++ nm ++ " " ++ id in
  let sc := JsNumber.max (score qNorm id) (scoreLoose qNorm combo) in
  if 0.6 <? sc then
    Some {| cscore := sc; label := orStr nm id;
            sub := if Js.truthy (Schematic.modelID s)
                   then "Model " ++ Schematic.modelID s else "";
            route := "schematic.html?id=" ++ Js.encodeURIComponent id |}
  else None.

(** [(a,b) => b.score - a.score] is positive. *)
Definition byScoreDesc (a b : Candidate) : bool := 0 <? cscore b - cscore a.

(** [[a, b, c].filter(Boolean)] on array slots that may be [undefined]. *)
Definition present {A} (l : list (option A)) : list A := omap id l.

Definition pickUniqueRoute (models parts schems : list Candidate) : option string :=
  let top := head (JsArray.sort byScoreDesc
                     (present [models !! 0%nat; parts !! 0%nat; schems !! 0%nat])) in
  let runnerUp := head (JsArray.sort byScoreDesc
                     (present [models !! 1%nat; parts !! 1%nat; schems !! 1%nat])) in
  match top with
  | None => None
  | Some t =>
      let gap := JsNumber.orZero (cscore t)
                 - JsNumber.orZero (from_option cscore 0 runnerUp) in
      if (0.9 <=? cscore t) && (0.12 <=? gap) then Some (route t) else None
  end.

Definition findBestCandidates (query : string) (db : DB) (lim : Limits) : Buckets :=
  let qNorm := key query in
  if negb (Js.truthy qNorm) then
    {| bmodels := []; bparts := []; bschematics := [];
       uniqueRoute := None; totalFound := 0 |}
  else
    let scoredModels := omap (modelCandidate qNorm) (models db) in
    let scoredParts := omap (partCandidate qNorm) (parts db) in
    let scoredSchems := omap (schematicCandidate qNorm) (schematics db) in
    let ms := take (limitModels lim) (JsArray.sort byScoreDesc scoredModels) in
    let ps := take (limitParts lim) (JsArray.sort byScoreDesc scoredParts) in
    let ss := take (limitSchems lim) (JsArray.sort byScoreDesc scoredSchems) in
    {| bmodels := ms; bparts := ps; bschematics := ss;
       uniqueRoute := pickUniqueRoute ms ps ss;
       totalFound := length ms + length ps + length ss |}.

(** *** runSearch *)

(** What the page is asked to do. *)
Inductive Effect :=
| Go (url : string)
| ShowToast (msg : string)
| OpenSuggestionsOverlay (query : string) (models parts schematics : list Candidate).

(** The exact hits, in the order the resolver tries them. *)
Inductive Match :=
| ModelMatch (m : Model.t)
| PartMatch (p : Part.t)
| SchematicMatch (s : Schematic.t)
| NoMatch.

Definition resolveExact (db : DB) (q : string) : Match :=
  match modelByKey (ix db) !! q with
  | Some model => ModelMatch model
  | None =>
      match (match partByNumberKey (ix db) !! q with
             | Some p => Some p
             | None => partByIdKey (ix db) !! q
             end) with
      | Some part => PartMatch part
      | None =>
          match schematicByKey (ix db) !! q with
          | Some schem => SchematicMatch schem
          | None => NoMatch
          end
      end
  end.

Definition fuzzyFallback (qRaw : string) (db : DB) : list Effect :=
  let best := findBestCandidates qRaw db defaultLimits in
  match uniqueRoute best with
  | Some (String _ _ as r) => [Go r]
  | _ =>
      if (0 <? totalFound best)%nat
      then [OpenSuggestionsOverlay qRaw (bmodels best) (bparts best) (bschematics best)]
      else [OpenSuggestionsOverlay qRaw [] [] [];
            ShowToast "No matches found. Try a different model/part number."]
  end.

(** [window.runSearch]: [None] is the rejection of [await DB.init()];
    otherwise the effects performed, in order. [rawQuery] is a string or
    absent. *)
Definition runSearch (env : Net.Env) (rawQuery : option string) : option (list Effect) :=
  match init env with
  | None => None
  | Some db =>
      let qRaw := Js.trim (Js.orEmpty rawQuery) in
      if negb (Js.truthy qRaw) then Some [ShowToast "Enter a model or part number."]
      else
        let q := key qRaw in
        Some match resolveExact db q with
             | ModelMatch model =>
                 [Go ("model.html?id=" ++ Js.encodeURIComponent
                        (toStr (Js.orElse (Some (Model.modelNumber model)) (Model.id model))))]
             | PartMatch part =>
                 [Go ("parts.html?id=" ++ Js.encodeURIComponent
                        (orStr (Part.number part) (Part.id part)))]
             | SchematicMatch schem =>
                 [Go ("schematic.html?id=" ++ Js.encodeURIComponent (Schematic.id schem))]
             | NoMatch => fuzzyFallback qRaw db
             end
  end.

(** *** The accessors that DB.init installs on window.DB *)

(** [getModelById(id)], on the catalog that [DB.init] has built, for a
    string or absent [id]: [None] is [undefined]. *)
Definition getModelById (db : DB) (id : option string) : option Model.t :=
  modelByKey (ix db) !! key (Js.orEmpty id).

Definition getSchematicById (db : DB) (id : option string) : option Schematic.t :=
  schematicByKey (ix db) !! key (Js.orEmpty id).

(** [partByNumberKey.get(k) || partByIdKey.get(k) || null] *)
Definition getPartByIdOrNumber (db : DB) (idOrNum : option string) : option Part.t :=
  let k := key (Js.orEmpty idOrNum) in
  match partByNumberKey (ix db) !! k with
  | Some p => Some p
  | None => partByIdKey (ix db) !! k
  end.

(** *** Escaping for the overlay *)

(** The replacement of one character by [escapeHTML]. *)
Definition escapeChar (c : ascii) : string :=
  if Ascii.eqb c "&" then "&amp;"
  else if Ascii.eqb c "<" then "&lt;"
  else if Ascii.eqb c ">" then "&gt;"
  else if Ascii.eqb c dquote then "&quot;"
  else if Ascii.eqb c "'" then "&#39;"
  else String c EmptyString.

(** [escapeHTML(s)]: every ampersand, angle bracket, double quote and
    apostrophe of [String(s)] is replaced by its entity. *)
Fixpoint escapeHTML (s : string) : string :=
  match s with
  | EmptyString => EmptyString
  | String c t => escapeChar c ++ escapeHTML t
  end.

(** [s.replace(..., '&quot;')] on every double quote of [s]. *)
Fixpoint replaceQuotes (s : string) : string :=
  match s with
  | EmptyString => EmptyString
  | String c t =>
      if Ascii.eqb c dquote then "&quot;" ++ replaceQuotes t
      else String c (replaceQuotes t)
  end.

Definition escapeAttr (s : string) : string := replaceQuotes (escapeHTML s).

End Fuzzy.

(** ** Objects whose enumeration order is observed *)

Module JsObject.

(** The own properties, in creation order. *)
Definition t (V : Type) : Type := list (string * V).

Definition empty {V} : t V := [].

(** [o[k]] *)
Fixpoint get {V} (o : t V) (k : string) : option V :=
  match o with
  | [] => None
  | (k', v) :: o' => if String.eqb k' k then Some v else get o' k
  end.

(** [o[k] = v]: an existing property keeps its place. *)
Fixpoint set {V} (o : t V) (k : string) (v : V) : t V :=
  match o with
  | [] => [(k, v)]
  | (k', v') :: o' => if String.eqb k' k then (k', v) :: o' else (k', v') :: set o' k v
  end.

(** An array index: a canonical decimal numeral below 2^32 - 1. *)
Definition arrayIndex (k : string) : option Z :=
  match k with
  | EmptyString => None
  | String c rest =>
      if Js.allChars Js.isDigit k && (negb (Ascii.eqb c "0") || negb (Js.truthy rest))
      then let n := JsNumber.digitsValue 0 k in
           if (n <? 4294967295)%Z then Some n else None
      else None
  end.

Definition isIndex {V} (kv : string * V) : bool :=
  match arrayIndex kv.1 with Some _ => true | None => false end.

Definition indexAfter {V} (a b : string * V) : bool :=
  (default 0 (arrayIndex b.1) <? default 0 (arrayIndex a.1))%Z.

(** [Object.values(o)]: array-index keys in ascending order first, then the
    other keys in creation order. *)
Definition values {V} (o : t V) : list V :=
  map snd (JsArray.sort indexAfter (List.filter isIndex o)
           ++ List.filter (fun kv => negb (isIndex kv)) o).

End JsObject.

(** ** The CSV-backed catalog store ("search.js — CSV-backed data + indexes + routing") *)

Module CsvDb.

Local Open Scope float_scope.

(** *** Helpers *)

(** [stripBOM]: a leading byte-order mark is dropped (its three UTF-8 bytes). *)
Definition stripBOM (text : string) : string :=
  match text with
  | String "239"%char (String "187"%char (String "191"%char rest)) => rest
  | _ => text
  end.

(** [String(s || "").trim().toLowerCase()] *)
Definition norm (s : string) : string := Js.toLowerCase (Js.trim s).

Fixpoint takeDigits (s : string) : string :=
  match s with
  | EmptyString => EmptyString
  | String c t => if Js.isDigit c then String c (takeDigits t) else EmptyString
  end.

(** [parseInt(s, 10)] as a mathematical integer; [None] is NaN. *)
Definition parseInt (s : string) : option Z :=
  let s := Js.trimStart s in
  let '(neg, body) :=
    match s with
    | String "-"%char t => (true, t)
    | String "+"%char t => (false, t)
    | _ => (false, s)
    end in
  let ds := takeDigits body in
  if Js.truthy ds
  then Some (if neg then (- JsNumber.digitsValue 0 ds)%Z else JsNumber.digitsValue 0 ds)
  else None.

(** The integer value of the double nearest to [z]; [None] when that double
    is an infinity. *)
Definition doubleValue (z : Z) : option Z :=
  match binary_normalize prec emax z 0 false with
  | S754_zero _ => Some 0%Z
  | S754_finite s m e =>
      let v := if (0 <=? e)%Z then (Z.pos m * 2 ^ e)%Z else (Z.pos m / 2 ^ (- e))%Z in
      Some (if s then (- v)%Z else v)
  | _ => None
  end.

(** [toInt(v)]: [None] is [null]. *)
Definition toInt (v : option string) : option Z :=
  match parseInt (Js.trim (Js.orEmpty v)) with
  | Some n => doubleValue n
  | None => None
  end.

Definition keepMoney (c : ascii) : bool := Js.isDigit c || Ascii.eqb c ".".

(** Accept "$1,234.56" or "1234.56"; clamp 0..999.99; return Number or null *)
Definition parseMoneyUSD (v : option string) : option float :=
  let s := Js.filterChars keepMoney (Js.orEmpty v) in
  if negb (Js.truthy s) then None
  else
    let n := JsNumber.ofString s in
    if negb (JsNumber.isFinite n) then None
    else
      let n := if n <? 0 then 0 else n in
      let n := if 999.99 <? n then 999.99 else n in
      Some (JsNumber.round (n * 100) / 100).

(** *** parseCSV *)

Definition appendChar (field : string) (c : ascii) : string :=
  field ++ String c EmptyString.

Definition dquote : ascii := "034"%char.

(** The scanning loop: [text] is what remains from position [i] on. *)
Fixpoint scan (text : string) (inQuotes : bool) (field : string)
    (row : list string) (rows : list (list string)) : list (list string) :=
  match text with
  | EmptyString => (rows ++ [row ++ [field]])%list
  | String c rest =>
      if inQuotes then
        if Ascii.eqb c dquote then
          match rest with
          | String "034"%char rest' => scan rest' true (appendChar field dquote) row rows
          | _ => scan rest false field row rows
          end
        else scan rest true (appendChar field c) row rows
      else if Ascii.eqb c dquote then scan rest true field row rows
      else if Ascii.eqb c "," then scan rest false "" (row ++ [field])%list rows
      else if Ascii.eqb c "010" then scan rest false "" [] ((rows ++ [row ++ [field]])%list)
      else if Ascii.eqb c "013" then
        match rest with
        | String "010"%char rest' => scan rest' false "" [] ((rows ++ [row ++ [field]])%list)
        | _ => scan rest false "" [] ((rows ++ [row ++ [field]])%list)
        end
      else scan rest false (appendChar field c) row rows
  end.

Definition blankRow (row : list string) : bool :=
  forallb (fun v => negb (Js.truthy v)) row.

(** [while (rows.length && rows[rows.length - 1].every(v => v === "")) rows.pop()] *)
Fixpoint popBlankRows (rows : list (list string)) : list (list string) :=
  match rows with
  | [] => []
  | r :: rest =>
      match popBlankRows rest with
      | [] => if blankRow r then [] else [r]
      | rest' => r :: rest'
      end
  end.

Definition headerSeparator (c : ascii) : bool := Js.isWhiteSpace c || Ascii.eqb c "_".

(** [h.toLowerCase().replace(/[\s_]+/g, "")] *)
Definition canonicalHeader (h : string) : string :=
  Js.filterChars (fun c => negb (headerSeparator c)) (Js.toLowerCase h).

Abbreviation Row := (gmap string string).

(** [obj[key] = val] on an object literal, for a string [val]. Under the
    name [__proto__] the assignment reaches the setter that the object
    inherits, which ignores a value that is no object: no property is
    stored. *)
Definition setProperty (obj : Row) (key val : string) : Row :=
  if String.eqb key "__proto__" then obj else <[key := val]> obj.

Definition rowObject (headers line : list string) : Row :=
  foldl (fun (obj : Row) '(c, key) => setProperty obj key (Js.trim (default "" (line !! c))))
        ∅ (imap pair headers).

Definition parseCSV (text : string) : list Row :=
  match popBlankRows (scan (stripBOM text) false "" [] []) with
  | [] => []
  | rawHeaders :: body => map (rowObject (map canonicalHeader rawHeaders)) body
  end.

(** *** Entities *)

Module Model.
Record t := { id : string; brand : string; modelNumber : string }.
End Model.

Module Schematic.
Record t := { id : string; modelId : string; name : string; order : Z; image : string }.
End Schematic.

Module Link.
Record t := { schematicId : string; diagramNo : Z; order : Z; partId : string }.
End Link.

Module Part.
Record t := { id : string; number : string; manufacturer : string; name : string;
              description : string; productStatus : string; inventory : Z;
              price : option float }.
End Part.

(** [(r.k || "").trim()] *)
Definition field (r : Row) (k : string) : string := Js.trim (Js.orEmpty (r !! k)).

(** [toInt(r.k) ?? 0] *)
Definition intField (r : Row) (k : string) : Z := default 0%Z (toInt (r !! k)).

Definition mkModel (r : Row) : Model.t :=
  {| Model.id := field r "id";
     Model.brand := field r "brand";
     Model.modelNumber := field r "modelnumber" |}.

Definition mkSchematic (r : Row) : Schematic.t :=
  {| Schematic.id := field r "id";
     Schematic.modelId := field r "modelid";
     Schematic.name := field r "name";
     Schematic.order := intField r "order";
     Schematic.image := field r "image" |}.

Definition mkLink (r : Row) : Link.t :=
  {| Link.schematicId := field r "schematicid";
     Link.diagramNo := intField r "diagramno";
     Link.order := intField r "order";
     Link.partId := field r "partid" |}.

Definition mkPart (r : Row) : Part.t :=
  {| Part.id := field r "id";
     Part.number := Js.trim (Js.orEmpty (Js.orElse (r !! "number") (Js.orElse (r !! "id") (Some ""))));
     Part.manufacturer := field r "manufacturer";
     Part.name := field r "name";
     Part.description := field r "description";
     Part.productStatus := field r "productstatus";
     Part.inventory := intField r "inventory";
     Part.price := parseMoneyUSD (r !! "price") |}.

Definition keepModel (m : Model.t) : bool :=
  Js.truthy (Model.id m) || Js.truthy (Model.modelNumber m).

Definition keepSchematic (s : Schematic.t) : bool :=
  Js.truthy (Schematic.id s) && Js.truthy (Schematic.modelId s).

Definition keepLink (l : Link.t) : bool :=
  Js.truthy (Link.schematicId l) && Js.truthy (Link.partId l).

Definition keepPart (p : Part.t) : bool :=
  Js.truthy (Part.id p) || Js.truthy (Part.number p).

(** *** Indexes *)

Section Collation.

(** [a.localeCompare(b)]: the host's collation, negative, zero or positive. *)
Variable localeCompare : string -> string -> Z.

(** [(a.order - b.order) || a.id.localeCompare(b.id)]; the difference of the
    two doubles has the sign of the difference of their values. *)
Definition compareSchematics (a b : Schematic.t) : Z :=
  let d := (Schematic.order a - Schematic.order b)%Z in
  if (d =? 0)%Z then localeCompare (Schematic.id a) (Schematic.id b) else d.

(** [(a.order - b.order) || (a.diagramNo - b.diagramNo)
     || a.partId.localeCompare(b.partId)] *)
Definition compareLinks (a b : Link.t) : Z :=
  let d := (Link.order a - Link.order b)%Z in
  if (d =? 0)%Z then
    let e := (Link.diagramNo a - Link.diagramNo b)%Z in
    if (e =? 0)%Z then localeCompare (Link.partId a) (Link.partId b) else e
  else d.

Definition comesAfter {A} (cmp : A -> A -> Z) (a b : A) : bool := (0 <? cmp a b)%Z.

Record Catalog := {
  models : list Model.t;
  schematics : list Schematic.t;
  schematicParts : list Link.t;
  parts : list Part.t;
  modelsById : gmap string Model.t;
  modelsByNumber : gmap string Model.t;
  schemsById : JsObject.t Schematic.t;
  schemsByModel : gmap string (list Schematic.t);
  partsById : gmap string Part.t;
  partsByIdLower : gmap string Part.t;
  partsByNumber : gmap string Part.t;
  linkBySchematic : gmap string (list Link.t)
}.

(** One turn of [models.forEach] on [(modelsById, modelsByNumber)]. *)
Definition indexModel (ix : gmap string Model.t * gmap string Model.t) (m : Model.t)
    : gmap string Model.t * gmap string Model.t :=
  let byId := if Js.truthy (Model.id m) then <[Model.id m := m]> ix.1 else ix.1 in
  if Js.truthy (Model.modelNumber m) then
    (match byId !! Model.modelNumber m with
     | Some _ => byId
     | None => <[Model.modelNumber m := m]> byId
     end,
     <[norm (Model.modelNumber m) := m]> ix.2)
  else (byId, ix.2).

(** [if (!o[k]) o[k] = []; o[k].push(x)] *)
Definition pushTo {A} (k : string) (x : A) (o : gmap string (list A)) : gmap string (list A) :=
  <[k := (default [] (o !! k) ++ [x])%list]> o.

Definition indexSchematic (ix : JsObject.t Schematic.t * gmap string (list Schematic.t))
    (s : Schematic.t) : JsObject.t Schematic.t * gmap string (list Schematic.t) :=
  (JsObject.set ix.1 (Schematic.id s) s, pushTo (Schematic.modelId s) s ix.2).

(** One turn of [parts.forEach] on [(partsById, partsByIdLower, partsByNumber)]. *)
Definition indexPart (ix : gmap string Part.t * gmap string Part.t * gmap string Part.t)
    (p : Part.t) : gmap string Part.t * gmap string Part.t * gmap string Part.t :=
  let '(byId, byIdLower, byNumber) := ix in
  let '(byId, byIdLower) :=
    if Js.truthy (Part.id p)
    then (<[Part.id p := p]> byId, <[norm (Part.id p) := p]> byIdLower)
    else (byId, byIdLower) in
  (byId, byIdLower,
   if Js.truthy (Part.number p) then <[norm (Part.number p) := p]> byNumber else byNumber).

Definition indexLink (ix : gmap string (list Link.t)) (l : Link.t) : gmap string (list Link.t) :=
  pushTo (Link.schematicId l) l ix.

(** Everything [load] does after the four texts have arrived. *)
Definition build (modelsRows schemsRows linksRows partsRows : list Row) : Catalog :=
  let ms := List.filter keepModel (map mkModel modelsRows) in
  let ss := List.filter keepSchematic (map mkSchematic schemsRows) in
  let ls := List.filter keepLink (map mkLink linksRows) in
  let ps := List.filter keepPart (map mkPart partsRows) in
  let mix := foldl indexModel (∅, ∅) ms in
  let six := foldl indexSchematic (JsObject.empty, ∅) ss in
  let pix := foldl indexPart (∅, ∅, ∅) ps in
  let lix := foldl indexLink ∅ ls in
  {| models := ms; schematics := ss; schematicParts := ls; parts := ps;
     modelsById := mix.1; modelsByNumber := mix.2;
     schemsById := six.1;
     schemsByModel := JsArray.sort (comesAfter compareSchematics) <$> six.2;
     partsById := pix.1.1; partsByIdLower := pix.1.2; partsByNumber := pix.2;
     linkBySchematic := JsArray.sort (comesAfter compareLinks) <$> lix |}.

(** *** DB load (cached) *)

Inductive LoadFailure :=
| FetchRejected (path : string)
| HttpError (status : Z) (path : string).

Definition fetchText (env : Net.Env) (path : string) : LoadFailure + string :=
  match env path with
  | Net.NetworkError => inl (FetchRejected path)
  | Net.Response status body =>
      if Net.ok status then inr body else inl (HttpError status path)
  end.

(** [load()] on the state [_cache]: the settled value and the new [_cache].
    Of several failing fetches, the one reported is the first in the order
    of the array given to [Promise.all]. *)
Definition load (env : Net.Env) (cache : option Catalog)
    : (LoadFailure + Catalog) * option Catalog :=
  match cache with
  | Some db => (inr db, cache)
  | None =>
      match fetchText env "models.csv", fetchText env "schematics.csv",
            fetchText env "schematic_parts.csv", fetchText env "parts.csv" with
      | inr modelsTxt, inr schemsTxt, inr linksTxt, inr partsTxt =>
          let db := build (parseCSV modelsTxt) (parseCSV schemsTxt)
                          (parseCSV linksTxt) (parseCSV partsTxt) in
          (inr db, Some db)
      | inl e, _, _, _ | _, inl e, _, _ | _, _, inl e, _ | _, _, _, inl e => (inl e, None)
      end
  end.

(** *** Public DB helpers *)

(** [const db = await load(); return f(db)] *)
Definition withDb {A} (env : Net.Env) (cache : option Catalog) (f : Catalog -> A)
    : (LoadFailure + A) * option Catalog :=
  match load env cache with
  | (inr db, cache') => (inr (f db), cache')
  | (inl e, cache') => (inl e, cache')
  end.

Definition getModelById env cache (id : string) :=
  withDb env cache (fun db => modelsById db !! id).

Definition getModelByNumberOrAlias env cache (q : string) :=
  withDb env cache (fun db => modelsByNumber db !! norm q).

Definition listSchematicsByModelId env cache (modelId : string) :=
  withDb env cache (fun db => default [] (schemsByModel db !! modelId)).

Definition getSchematicById env cache (id : string) :=
  withDb env cache (fun db => JsObject.get (schemsById db) id).

(** [a || b || c] on lookups whose hits are objects. *)
Definition orLookup {A} (a b : option A) : option A :=
  match a with Some _ => a | None => b end.

Definition lookupPart (db : Catalog) (x : string) : option Part.t :=
  orLookup (partsById db !! x)
    (orLookup (partsByIdLower db !! norm x) (partsByNumber db !! norm x)).

Record JoinedLink := {
  jdiagramNo : Z; jorder : Z; jpartId : string; jpart : option Part.t
}.

Definition joinLink (db : Catalog) (l : Link.t) : JoinedLink :=
  {| jdiagramNo := Link.diagramNo l; jorder := Link.order l; jpartId := Link.partId l;
     jpart := lookupPart db (Link.partId l) |}.

Definition listPartsForSchematic env cache (schematicId : string) :=
  withDb env cache (fun db =>
    map (joinLink db) (default [] (linkBySchematic db !! schematicId))).

Definition getPartByIdOrNumber env cache (x : string) :=
  withDb env cache (fun db => lookupPart db x).

(** *** Search & routing *)

Inductive Match :=
| ModelMatch (m : Model.t)
| PartMatch (p : Part.t)
| SchematicMatch (s : Schematic.t)
| NoMatch.

(** The three lookups of [runSearch], on the trimmed query [q]. *)
Definition resolveExact (db : Catalog) (q : string) : Match :=
  let k := norm q in
  match modelsByNumber db !! k with
  | Some model => ModelMatch model
  | None =>
      match orLookup (partsById db !! q)
              (orLookup (partsByIdLower db !! k) (partsByNumber db !! k)) with
      | Some part => PartMatch part
      | None =>
          match orLookup (JsObject.get (schemsById db) q)
                  (JsArray.find (fun s => String.eqb (norm (Schematic.name s)) k)
                     (JsObject.values (schemsById db))) with
          | Some schematic => SchematicMatch schematic
          | None => NoMatch
          end
      end
  end.

Inductive Effect :=
| SetLocation (href : string)
| Alert (msg : string)
| ConsoleError (e : LoadFailure).

Definition loadErrorMessage : string :=
  "Could not load CSV data. Make sure you’re serving via Live Server / localhost and CSV filenames are correct.".

(** [runSearch(query)] for a string or absent [query]: the effects, in order,
    and the new [_cache]. *)
Definition runSearch (env : Net.Env) (cache : option Catalog) (query : option string)
    : list Effect * option Catalog :=
  let q := Js.trim (Js.orEmpty query) in
  if negb (Js.truthy q) then ([], cache)
  else
    match load env cache with
    | (inl err, cache') => ([ConsoleError err; Alert loadErrorMessage], cache')
    | (inr db, cache') =>
        (match resolveExact db q with
         | ModelMatch model =>
             [SetLocation ("model.html?id=" ++ Js.encodeURIComponent
                             (if Js.truthy (Model.modelNumber model)
                              then Model.modelNumber model else Model.id model))]
         | PartMatch part =>
             [SetLocation ("product.html?id=" ++ Js.encodeURIComponent (Part.id part))]
         | SchematicMatch schematic =>
             [SetLocation ("schematic.html?id=" ++ Js.encodeURIComponent (Schematic.id schematic))]
         | NoMatch =>
             [Alert ("No exact match found for " ++ String dquote q ++ String dquote ".")]
         end, cache')
    end.

End Collation.

End CsvDb.

(** ** The specification's vocabulary *)

Module Spec.

Local Open Scope float_scope.

(** Edit scripts: [edits a b n] when [a] becomes [b] by [n] single-character
    insertions, deletions and substitutions, each of cost 1. *)
Inductive edits : list ascii -> list ascii -> nat -> Prop :=
| edits_nil : edits [] [] 0
| edits_delete c a b n : edits a b n -> edits (c :: a) b (S n)
| edits_insert c a b n : edits a b n -> edits a (c :: b) (S n)
| edits_substitute c d a b n : c <> d -> edits a b n -> edits (c :: a) (d :: b) (S n)
| edits_keep c a b n : edits a b n -> edits (c :: a) (c :: b) n.

(** The Levenshtein distance by its recurrence on the first characters. *)
Fixpoint distance (a b : list ascii) : nat :=
  match a with
  | [] => length b
  | x :: a' =>
      (fix inner (b : list ascii) : nat :=
         match b with
         | [] => length a
         | y :: b' =>
             Nat.min (distance a' b + 1)
               (Nat.min (inner b' + 1)
                        (distance a' b' + (if bool_decide (x = y) then 0 else 1)))
         end) b
  end.

Definition levenshtein (a b : string) : nat :=
  distance (list_ascii_of_string a) (list_ascii_of_string b).

(** The layered score in the words of the specification, for a query key [q]
    and a candidate text [c] whose normalized form is [Fuzzy.key c]. *)
Definition layeredScore (q c : string) : float :=
  let nc := Fuzzy.key c in
  if String.eqb nc q then 1.0
  else if Js.startsWith nc q then 0.97 * (Fuzzy.len q / Fuzzy.len nc)
  else if Js.includes nc q then 0.90 * (Fuzzy.len q / Fuzzy.len nc)
  else (1 - JsNumber.ofNat (levenshtein q nc)
            / JsNumber.ofNat (Nat.max (String.length q) (String.length nc))) * 0.85.

(** A collation that orders the strings totally and ties no two different
    strings. *)
Definition StrictCollation (localeCompare : string -> string -> Z) : Prop :=
  (forall a b, localeCompare a b = 0%Z -> a = b)
  /\ (forall a b, (0 < localeCompare a b)%Z <-> (localeCompare b a < 0)%Z)
  /\ (forall a b c, (localeCompare a b <= 0)%Z -> (localeCompare b c <= 0)%Z ->
                    (localeCompare a c <= 0)%Z).

(** Ascending [(order, diagramNo, partId)] on the rows that
    [listPartsForSchematic] returns. *)
Definition ascending (localeCompare : string -> string -> Z)
    (a b : CsvDb.JoinedLink) : Prop :=
  (CsvDb.jorder a < CsvDb.jorder b)%Z
  \/ (CsvDb.jorder a = CsvDb.jorder b
      /\ ((CsvDb.jdiagramNo a < CsvDb.jdiagramNo b)%Z
          \/ (CsvDb.jdiagramNo a = CsvDb.jdiagramNo b
              /\ (localeCompare (CsvDb.jpartId a) (CsvDb.jpartId b) <= 0)%Z))).

(** The key of a link: what the order of a schematic's links is made of. *)
Definition linkKey (l : CsvDb.Link.t) : Z * Z * string :=
  (CsvDb.Link.order l, CsvDb.Link.diagramNo l, CsvDb.Link.partId l).

Definition joinedKey (j : CsvDb.JoinedLink) : Z * Z * string :=
  (CsvDb.jorder j, CsvDb.jdiagramNo j, CsvDb.jpartId j).

(** The key that a raw row of the link source gives to the schematic [sid]:
    the row counts when its schematic id, trimmed, is [sid] and it names a
    part; its order and diagram number are the integers that lead the
    cells, 0 without one, and its part id is the trimmed cell. *)
Definition linkRowKey (sid : string) (r : CsvDb.Row) : option (Z * Z * string) :=
  let schematicId := Js.trim (Js.orEmpty (r !! "schematicid")) in
  let partId := Js.trim (Js.orEmpty (r !! "partid")) in
  if String.eqb schematicId sid && Js.truthy schematicId && Js.truthy partId
  then Some (default 0%Z (CsvDb.toInt (r !! "order")),
             default 0%Z (CsvDb.toInt (r !! "diagramno")), partId)
  else None.

(** The discard rules of the four entities. *)
Definition validModel (m : CsvDb.Model.t) : Prop :=
  CsvDb.Model.id m <> "" \/ CsvDb.Model.modelNumber m <> "".

Definition validSchematic (s : CsvDb.Schematic.t) : Prop :=
  CsvDb.Schematic.id s <> "" /\ CsvDb.Schematic.modelId s <> "".

Definition validLink (l : CsvDb.Link.t) : Prop :=
  CsvDb.Link.schematicId l <> "" /\ CsvDb.Link.partId l <> "".

Definition validPart (p : CsvDb.Part.t) : Prop :=
  CsvDb.Part.id p <> "" \/ CsvDb.Part.number p <> "".

(** Every value of an index is a member of the collection. *)
Definition valuesIn {A} (ix : gmap string A) (l : list A) : Prop :=
  forall k x, ix !! k = Some x -> x ∈ l.

Definition listsIn {A} (ix : gmap string (list A)) (l : list A) : Prop :=
  forall k xs x, ix !! k = Some xs -> x ∈ xs -> x ∈ l.

(** A query matches a model of the fuzzy engine by its model number, or by
    its id when the model has a model number. *)
Definition fuzzyModelMatches (m : Fuzzy.Model.t) (q : string) : Prop :=
  Fuzzy.Model.modelNumber m <> ""
  /\ (Fuzzy.key (Fuzzy.Model.modelNumber m) = Fuzzy.key q
      \/ exists i, Fuzzy.Model.id m = Some i /\ i <> "" /\ Fuzzy.key i = Fuzzy.key q).

Definition fuzzyPartMatches (p : Fuzzy.Part.t) (q : string) : Prop :=
  (Fuzzy.Part.number p <> "" /\ Fuzzy.key (Fuzzy.Part.number p) = Fuzzy.key q)
  \/ (Fuzzy.Part.id p <> "" /\ Fuzzy.key (Fuzzy.Part.id p) = Fuzzy.key q).

(** A query matches a model of the CSV store by its model number. *)
Definition csvModelMatches (m : CsvDb.Model.t) (q : string) : Prop :=
  CsvDb.Model.modelNumber m <> ""
  /\ CsvDb.norm (CsvDb.Model.modelNumber m) = CsvDb.norm q.

Definition csvPartMatches (p : CsvDb.Part.t) (q : string) : Prop :=
  (CsvDb.Part.id p <> "" /\ CsvDb.norm (CsvDb.Part.id p) = CsvDb.norm q)
  \/ (CsvDb.Part.number p <> "" /\ CsvDb.norm (CsvDb.Part.number p) = CsvDb.norm q).

(** The four raw sources of the CSV store. *)
Definition sources : list string :=
  ["models.csv"; "schematics.csv"; "schematic_parts.csv"; "parts.csv"].

(** The catalog keeps the discard rules: every collection holds valid
    entities only, and every index holds members of its collection only. *)
Record WellFormed (db : CsvDb.Catalog) : Prop := {
  models_valid : forall m, m ∈ CsvDb.models db -> validModel m;
  schematics_valid : forall s, s ∈ CsvDb.schematics db -> validSchematic s;
  links_valid : forall l, l ∈ CsvDb.schematicParts db -> validLink l;
  parts_valid : forall p, p ∈ CsvDb.parts db -> validPart p;
  modelsById_in : valuesIn (CsvDb.modelsById db) (CsvDb.models db);
  modelsByNumber_in : valuesIn (CsvDb.modelsByNumber db) (CsvDb.models db);
  schemsById_in :
    forall k s, JsObject.get (CsvDb.schemsById db) k = Some s -> s ∈ CsvDb.schematics db;
  schemsByModel_in : listsIn (CsvDb.schemsByModel db) (CsvDb.schematics db);
  partsById_in : valuesIn (CsvDb.partsById db) (CsvDb.parts db);
  partsByIdLower_in : valuesIn (CsvDb.partsByIdLower db) (CsvDb.parts db);
  partsByNumber_in : valuesIn (CsvDb.partsByNumber db) (CsvDb.parts db);
  linkBySchematic_in : listsIn (CsvDb.linkBySchematic db) (CsvDb.schematicParts db)
}.

(** An entity is in no collection and in no index of the catalog. *)
Definition modelAbsent (db : CsvDb.Catalog) (m : CsvDb.Model.t) : Prop :=
  (m ∉ CsvDb.models db)
  /\ (forall k, CsvDb.modelsById db !! k <> Some m)
  /\ (forall k, CsvDb.modelsByNumber db !! k <> Some m).

Definition schematicAbsent (db : CsvDb.Catalog) (s : CsvDb.Schematic.t) : Prop :=
  (s ∉ CsvDb.schematics db)
  /\ (forall k, JsObject.get (CsvDb.schemsById db) k <> Some s)
  /\ (forall k xs, CsvDb.schemsByModel db !! k = Some xs -> s ∉ xs).

Definition linkAbsent (db : CsvDb.Catalog) (l : CsvDb.Link.t) : Prop :=
  (l ∉ CsvDb.schematicParts db)
  /\ (forall k xs, CsvDb.linkBySchematic db !! k = Some xs -> l ∉ xs).

Definition partAbsent (db : CsvDb.Catalog) (p : CsvDb.Part.t) : Prop :=
  (p ∉ CsvDb.parts db)
  /\ (forall k, CsvDb.partsById db !! k <> Some p)
  /\ (forall k, CsvDb.partsByIdLower db !! k <> Some p)
  /\ (forall k, CsvDb.partsByNumber db !! k <> Some p).

End Spec.

(** ** Fixtures: a byte-wise collation and small catalogs *)

Module Fixtures.

(** A collation that orders strings by their bytes. *)
Fixpoint byteCompare (a b : string) : Z :=
  match a, b with
  | EmptyString, EmptyString => 0
  | EmptyString, String _ _ => -1
  | String _ _, EmptyString => 1
  | String x a', String y b' =>
      if (Js.code x <? Js.code y)%N then -1
      else if (Js.code y <? Js.code x)%N then 1
      else byteCompare a' b'
  end.

(** A text file from its lines. *)
Definition lines (ls : list string) : string :=
  foldr (fun l acc => l ++ String "010"%char acc) "" ls.

(** A server with the given files, under [name] and [/name]; anything else
    is answered with status 404. *)
Definition serve (files : list (string * string)) : Net.Env :=
  fun path =>
    match List.find (fun f => String.eqb f.1 path || String.eqb ("/" ++ f.1) path) files with
    | Some f => Net.Response 200 f.2
    | None => Net.Response 404 "Not Found"
    end.

(** A server that cannot be reached. *)
Definition offline : Net.Env := fun _ => Net.NetworkError.

Definition partsHeader : string :=
  "id,number,manufacturer,name,description,productStatus,inventory,price".

(** A model number and a part number that are equally close to the query
    "ABCDEFGHIJKLM". *)
Definition tiedCatalog : Net.Env :=
  serve [("models.csv", lines ["id,brand,modelNumber"; "M1,Acme,ABCDEFGHIJKLMN"]);
         ("schematics.csv", lines ["id,modelID,name,order,image"]);
         ("schematic_parts.csv", lines ["schematicID,diagramNo,order,partID"]);
         ("parts.csv", lines [partsHeader; "P1,ABCDEFGHIJKLMX,Acme,Valve,,Active,3,9.99"])].

(** A part whose id is the id of a model. *)
Definition sharedIdCatalog : Net.Env :=
  serve [("models.csv", lines ["id,brand,modelNumber"; "M1,Acme,ACM-100"]);
         ("schematics.csv", lines ["id,modelID,name,order,image"; "M1,ACM-100,Door,1,door.png"]);
         ("schematic_parts.csv", lines ["schematicID,diagramNo,order,partID"; "M1,1,1,M1"]);
         ("parts.csv", lines [partsHeader; "M1,PN-1,Acme,Hinge,,Active,3,9.99"])].

(** Source files in which one row of each kind breaks the discard rule of
    its entity. *)
Definition messyModels : string :=
  lines ["id,brand,modelNumber"; "M1,Acme,ACM-100"; ",Ghost,"].

Definition messySchematics : string :=
  lines ["id,modelID,name,order,image"; "S1,ACM-100,Door,1,door.png"; "S2,,Orphan,2,"].

Definition messyLinks : string :=
  lines ["schematicID,diagramNo,order,partID"; "S1,1,1,P1"; "S1,2,2,"].

Definition messyParts : string :=
  lines [partsHeader; "P1,PN-1,Acme,Hinge,,Active,3,9.99"; ",,Acme,Nameless,,Active,0,"].

Definition messyCatalog : Net.Env :=
  serve [("models.csv", messyModels); ("schematics.csv", messySchematics);
         ("schematic_parts.csv", messyLinks); ("parts.csv", messyParts)].

(** A parsed row of schematic_parts.csv. *)
Definition linkRow (schematicId diagramNo order partId : string) : CsvDb.Row :=
  list_to_map [("schematicid", schematicId); ("diagramno", diagramNo);
               ("order", order); ("partid", partId)].

(** Three links of one schematic and a link of another, in two row orders. *)
Definition threeLinks : list CsvDb.Row :=
  [linkRow "S1" "3" "2" "P-C"; linkRow "S2" "1" "1" "P-Z";
   linkRow "S1" "2" "1" "P-B"; linkRow "S1" "1" "1" "P-A"].

Definition threeLinksShuffled : list CsvDb.Row :=
  [linkRow "S1" "2" "1" "P-B"; linkRow "S1" "3" "2" "P-C";
   linkRow "S1" "1" "1" "P-A"; linkRow "S2" "1" "1" "P-Z"].

(** A collation that gives no weight to the control characters, as the
    collations of the hosts do: it ties two ids that differ by such a
    character only. *)
Definition controlChar (c : ascii) : bool :=
  (Js.code c <? 9)%N || (13 <? Js.code c)%N && (Js.code c <? 32)%N
  || (Js.code c =? 127)%N.

Definition ignoringControls (a b : string) : Z :=
  byteCompare (Js.filterChars (fun c => negb (controlChar c)) a)
              (Js.filterChars (fun c => negb (controlChar c)) b).

(** The part id P1 followed by the control character U+0001. *)
Definition markedId : string := "P1" ++ String "001"%char "".

(** A catalog with the given rows of schematic_parts.csv and nothing else. *)
Definition linksOnly (rows : list string) : Net.Env :=
  serve [("models.csv", lines ["id,brand,modelNumber"]);
         ("schematics.csv", lines ["id,modelID,name,order,image"]);
         ("schematic_parts.csv", lines ("schematicID,diagramNo,order,partID" :: rows));
         ("parts.csv", lines [partsHeader])].

(** A row of [listPartsForSchematic] whose part is not in the catalog. *)
Definition unmatched (diagramNo order : Z) (partId : string) : CsvDb.JoinedLink :=
  {| CsvDb.jdiagramNo := diagramNo; CsvDb.jorder := order; CsvDb.jpartId := partId;
     CsvDb.jpart := None |}.

(** Rows that repeat a key: two models with one model number, a model whose
    id is the model number of another, two schematics with one id, a link to
    a part that is not there. *)
Definition repeatedCatalog : Net.Env :=
  serve [("models.csv",
          lines ["id,brand,modelNumber"; "M1,Acme,ACM-100"; "M2,Apex,acm-100";
                 "ACM-100,Zed,Z-9"]);
         ("schematics.csv",
          lines ["id,modelID,name,order,image"; "S1,ACM-100,Door,2,door.png";
                 "S2,ACM-100,Lid,1,lid.png"; "S1,ACM-100,Panel,3,panel.png"]);
         ("schematic_parts.csv",
          lines ["schematicID,diagramNo,order,partID"; "S1,1,1,p1"; "S1,2,2,PN-2";
                 "S1,3,3,gone"]);
         ("parts.csv",
          lines [partsHeader; "P1,PN-1,Acme,Hinge,,Active,3,9.99";
                 "p1,PN-2,Acme,Latch,,Active,1,4.50"])].

(** A part whose id and number hold characters that an address cannot. *)
Definition spacedCatalog : Net.Env :=
  serve [("models.csv", lines ["id,brand,modelNumber"]);
         ("schematics.csv", lines ["id,modelID,name,order,image"]);
         ("schematic_parts.csv", lines ["schematicID,diagramNo,order,partID"]);
         ("parts.csv", lines [partsHeader; "A b&c,PN 9,Acme,Bolt,,Active,1,1.00"])].

End Fixtures.

(** ** CSV text as a writer produces it *)

Module CsvText.

Inductive LineEnd := LF | CRLF | CR.

Definition eolText (e : LineEnd) : string :=
  match e with
  | LF => String "010" EmptyString
  | CRLF => String "013" (String "010" EmptyString)
  | CR => String "013" EmptyString
  end.

(** The characters that a field can hold only inside quotes. *)
Definition special (c : ascii) : bool :=
  Ascii.eqb c CsvDb.dquote || Ascii.eqb c "," || Ascii.eqb c "010" || Ascii.eqb c "013".

Definition bare (s : string) : bool := Js.allChars (fun c => negb (special c)) s.

(** Every double quote of a field is written twice. *)
Fixpoint doubled (s : string) : string :=
  match s with
  | EmptyString => EmptyString
  | String c t =>
      if Ascii.eqb c CsvDb.dquote
      then String CsvDb.dquote (String CsvDb.dquote (doubled t))
      else String c (doubled t)
  end.

Definition quoted (s : string) : string :=
  String CsvDb.dquote (doubled s ++ String CsvDb.dquote EmptyString).

(** A field is written in quotes when it has to be, and when the writer
    chooses to ([quote]). *)
Definition writeField (quote : string -> bool) (s : string) : string :=
  if quote s || negb (bare s) then quoted s else s.

Fixpoint writeRow (quote : string -> bool) (fields : list string) : string :=
  match fields with
  | [] => EmptyString
  | [f] => writeField quote f
  | f :: fs => writeField quote f ++ "," ++ writeRow quote fs
  end.

(** Every row is ended by the line end. *)
Definition writeFile (quote : string -> bool) (e : LineEnd) (rows : list (list string))
    : string :=
  foldr (fun r acc => writeRow quote r ++ eolText e ++ acc) EmptyString rows.

(** A line with nothing on it. *)
Definition emptyLine (r : list string) : bool :=
  match r with
  | [] | [EmptyString] => true
  | _ => false
  end.

(** The byte-order mark, in UTF-8. *)
Definition bom : string := String "239" (String "187" (String "191" EmptyString)).

End CsvText.

(** ** The rows that a key selects *)

Module Select.

(** The CSV store: a model by its model number, up to case and surrounding
    white space; by its id; by its model number as it is written. *)
Definition numberIs (q : string) (m : CsvDb.Model.t) : bool :=
  Js.truthy (CsvDb.Model.modelNumber m)
  && String.eqb (CsvDb.norm (CsvDb.Model.modelNumber m)) (CsvDb.norm q).

Definition hasId (k : string) (m : CsvDb.Model.t) : bool :=
  Js.truthy (CsvDb.Model.id m) && String.eqb (CsvDb.Model.id m) k.

Definition hasNumber (k : string) (m : CsvDb.Model.t) : bool :=
  Js.truthy (CsvDb.Model.modelNumber m) && String.eqb (CsvDb.Model.modelNumber m) k.

(** A part by its exact id; by its id or its number, up to case and
    surrounding white space. *)
Definition partIdIs (x : string) (p : CsvDb.Part.t) : bool :=
  Js.truthy (CsvDb.Part.id p) && String.eqb (CsvDb.Part.id p) x.

Definition partIdLike (x : string) (p : CsvDb.Part.t) : bool :=
  Js.truthy (CsvDb.Part.id p) && String.eqb (CsvDb.norm (CsvDb.Part.id p)) (CsvDb.norm x).

Definition partNumberLike (x : string) (p : CsvDb.Part.t) : bool :=
  Js.truthy (CsvDb.Part.number p)
  && String.eqb (CsvDb.norm (CsvDb.Part.number p)) (CsvDb.norm x).

Definition schematicIdIs (k : string) (s : CsvDb.Schematic.t) : bool :=
  String.eqb (CsvDb.Schematic.id s) k.

(** The schematics of a model and the links of a schematic. *)
Definition ofModel (modelId : string) (s : CsvDb.Schematic.t) : bool :=
  String.eqb (CsvDb.Schematic.modelId s) modelId.

Definition ofSchematic (schematicId : string) (l : CsvDb.Link.t) : bool :=
  String.eqb (CsvDb.Link.schematicId l) schematicId.

(** Ascending [(order, id)] on the schematics of a model. *)
Definition schematicAscending (localeCompare : string -> string -> Z)
    (a b : CsvDb.Schematic.t) : Prop :=
  (CsvDb.Schematic.order a < CsvDb.Schematic.order b)%Z
  \/ (CsvDb.Schematic.order a = CsvDb.Schematic.order b
      /\ (localeCompare (CsvDb.Schematic.id a) (CsvDb.Schematic.id b) <= 0)%Z).

(** The fuzzy engine: a model that has a model number, by the key of its
    model number or of its id; a schematic by the key of its id; a part by
    the key of its number or of its id. *)
Definition modelKeyed (q : string) (m : Fuzzy.Model.t) : bool :=
  Js.truthy (Fuzzy.Model.modelNumber m)
  && (String.eqb (Fuzzy.key (Fuzzy.Model.modelNumber m)) (Fuzzy.key q)
      || Js.truthy (Js.orEmpty (Fuzzy.Model.id m))
         && String.eqb (Fuzzy.key (Js.orEmpty (Fuzzy.Model.id m))) (Fuzzy.key q)).

Definition schematicKeyed (q : string) (s : Fuzzy.Schematic.t) : bool :=
  Js.truthy (Fuzzy.Schematic.id s)
  && String.eqb (Fuzzy.key (Fuzzy.Schematic.id s)) (Fuzzy.key q).

Definition partNumberKeyed (q : string) (p : Fuzzy.Part.t) : bool :=
  Js.truthy (Fuzzy.Part.number p)
  && String.eqb (Fuzzy.key (Fuzzy.Part.number p)) (Fuzzy.key q).

Definition partIdKeyed (q : string) (p : Fuzzy.Part.t) : bool :=
  Js.truthy (Fuzzy.Part.id p) && String.eqb (Fuzzy.key (Fuzzy.Part.id p)) (Fuzzy.key q).

End Select.

(** ** Texts: markup, routes and numerals *)

Module Text.

(** The characters that open or close markup or an attribute value. *)
Definition markup (c : ascii) : bool :=
  Ascii.eqb c "<" || Ascii.eqb c ">" || Ascii.eqb c Fuzzy.dquote || Ascii.eqb c "'".

(** ASCII text: the range on which [toUpperCase] and [toLowerCase] map the
    letters a-z and A-Z and nothing else, one character to one, and on which
    [trim] and [\s] take the six blanks of [Js.isWhiteSpace]. *)
Definition isAscii (c : ascii) : bool := (Js.code c <? 128)%N.

Definition asciiText (s : string) : Prop := Js.allChars isAscii s = true.

(** The characters of an encoded URI component. *)
Definition uriSafe (c : ascii) : bool := Js.uriUnreserved c || Ascii.eqb c "%".

(** A route: one of the pages, with an encoded id. *)
Definition routeTo (pages : list string) (href : string) : Prop :=
  exists page id,
    page ∈ pages /\ href = page ++ "?id=" ++ id /\ Js.allChars uriSafe id = true.

Definition csvPages : list string := ["model.html"; "product.html"; "schematic.html"].

Definition fuzzyPages : list string := ["model.html"; "parts.html"; "schematic.html"].

(** What follows the digits of a numeral: nothing, or a character that is
    no digit. *)
Definition endsNumeral (rest : string) : Prop :=
  match rest with
  | String c _ => Js.isDigit c = false
  | EmptyString => True
  end.

End Text.

(** * Properties *)

(** ** Strings *)

Module JsFacts.

Import Js.

Ltac each_char c := destruct c as [[] [] [] [] [] [] [] []]; reflexivity.

Lemma upperChar_idem c : upperChar (upperChar c) = upperChar c.
Proof. each_char c. Qed.

Lemma lowerChar_idem c : lowerChar (lowerChar c) = lowerChar c.
Proof. each_char c. Qed.

Lemma isWhiteSpace_lowerChar c : isWhiteSpace (lowerChar c) = isWhiteSpace c.
Proof. each_char c. Qed.

Lemma mapChars_idem f s :
  (forall c, f (f c) = f c) -> mapChars f (mapChars f s) = mapChars f s.
Proof. intros Hf. induction s as [|c s IH]; simpl; [done|]. by rewrite Hf, IH. Qed.

Lemma filterChars_mapChars p f s :
  (forall c, p (f c) = p c) ->
  filterChars p (mapChars f s) = mapChars f (filterChars p s).
Proof.
  intros Hp. induction s as [|c s IH]; simpl; [done|].
  rewrite Hp. destruct (p c); simpl; by rewrite IH.
Qed.

Lemma allChars_filterChars p s : allChars p (filterChars p s) = true.
Proof.
  induction s as [|c s IH]; simpl; [done|].
  destruct (p c) eqn:E; simpl; [by rewrite E|done].
Qed.

Lemma filterChars_all p s : allChars p s = true -> filterChars p s = s.
Proof.
  induction s as [|c s IH]; simpl; [done|].
  intros [Hc Hs]%andb_prop. rewrite Hc. by rewrite IH.
Qed.

Lemma allChars_impl (p q : ascii -> bool) s :
  (forall c, p c = true -> q c = true) -> allChars p s = true -> allChars q s = true.
Proof.
  intros Hpq. induction s as [|c s IH]; simpl; [done|].
  intros [Hc Hs]%andb_prop. by rewrite (Hpq _ Hc), IH.
Qed.

Lemma trimStart_no_space s :
  allChars (fun c => negb (isWhiteSpace c)) s = true -> trimStart s = s.
Proof.
  destruct s as [|c s]; simpl; [done|].
  intros [Hc _]%andb_prop. by destruct (isWhiteSpace c).
Qed.

Lemma trimEnd_no_space s :
  allChars (fun c => negb (isWhiteSpace c)) s = true -> trimEnd s = s.
Proof.
  induction s as [|c s IH]; simpl; [done|].
  intros [Hc Hs]%andb_prop. rewrite (IH Hs).
  destruct s; [|done]. by destruct (isWhiteSpace c).
Qed.

Lemma trim_no_space s :
  allChars (fun c => negb (isWhiteSpace c)) s = true -> trim s = s.
Proof. intros H. unfold trim. by rewrite (trimStart_no_space _ H), trimEnd_no_space. Qed.

(** A string that is empty or starts with a character that is kept. *)
Definition headKept (s : string) : bool :=
  match s with
  | EmptyString => true
  | String c _ => negb (isWhiteSpace c)
  end.

Lemma headKept_trimStart s : headKept (trimStart s) = true.
Proof.
  induction s as [|c s IH]; simpl; [done|].
  destruct (isWhiteSpace c) eqn:E; simpl; [done|by rewrite E].
Qed.

Lemma trimStart_headKept s : headKept s = true -> trimStart s = s.
Proof. destruct s as [|c s]; simpl; [done|]. by destruct (isWhiteSpace c). Qed.

Lemma headKept_trimEnd s : headKept s = true -> headKept (trimEnd s) = true.
Proof.
  destruct s as [|c s]; simpl; [done|]. intros Hc.
  destruct (trimEnd s); simpl; [|done].
  destruct (isWhiteSpace c) eqn:E; simpl; [done|by rewrite E].
Qed.

Lemma trimEnd_idem s : trimEnd (trimEnd s) = trimEnd s.
Proof.
  induction s as [|c s IH]; simpl; [done|].
  destruct (trimEnd s) as [|d t] eqn:E.
  - destruct (isWhiteSpace c) eqn:Ec; simpl; [done|by rewrite Ec].
  - change (trimEnd (String c (String d t))) with
      (match trimEnd (String d t) with
       | EmptyString => if isWhiteSpace c then EmptyString else String c EmptyString
       | t' => String c t'
       end).
    by rewrite IH.
Qed.

Lemma trim_idem s : trim (trim s) = trim s.
Proof.
  unfold trim.
  rewrite (trimStart_headKept (trimEnd (trimStart s))).
  - apply trimEnd_idem.
  - apply headKept_trimEnd, headKept_trimStart.
Qed.

Lemma trimStart_mapChars f s :
  (forall c, isWhiteSpace (f c) = isWhiteSpace c) ->
  trimStart (mapChars f s) = mapChars f (trimStart s).
Proof.
  intros Hf. induction s as [|c s IH]; simpl; [done|].
  rewrite Hf. by destruct (isWhiteSpace c).
Qed.

Lemma trimEnd_mapChars f s :
  (forall c, isWhiteSpace (f c) = isWhiteSpace c) ->
  trimEnd (mapChars f s) = mapChars f (trimEnd s).
Proof.
  intros Hf. induction s as [|c s IH]; simpl; [done|].
  rewrite IH, Hf. destruct (trimEnd s); simpl; [|done].
  by destruct (isWhiteSpace c).
Qed.

Lemma trim_mapChars f s :
  (forall c, isWhiteSpace (f c) = isWhiteSpace c) ->
  trim (mapChars f s) = mapChars f (trim s).
Proof. intros Hf. unfold trim. by rewrite trimStart_mapChars, trimEnd_mapChars. Qed.

Lemma truthy_true s : truthy s = true <-> s <> EmptyString.
Proof. by destruct s. Qed.

Lemma truthy_false s : truthy s = false <-> s = EmptyString.
Proof. by destruct s. Qed.

End JsFacts.

(** ** Normalisation keys *)

Lemma isSeparator_upperChar c :
  Fuzzy.isSeparator (Js.upperChar c) = Fuzzy.isSeparator c.
Proof. JsFacts.each_char c. Qed.

Lemma key_no_separator s :
  Js.allChars (fun c => negb (Fuzzy.isSeparator c)) (Fuzzy.key s) = true.
Proof.
  unfold Fuzzy.key.
  rewrite JsFacts.trim_no_space.
  - apply JsFacts.allChars_filterChars.
  - eapply JsFacts.allChars_impl; [|apply JsFacts.allChars_filterChars].
    intros c. unfold Fuzzy.isSeparator. by destruct (Js.isWhiteSpace c).
Qed.

Lemma key_unfold s :
  Fuzzy.key s =
  Js.filterChars (fun c => negb (Fuzzy.isSeparator c)) (Js.toUpperCase s).
Proof.
  unfold Fuzzy.key. apply JsFacts.trim_no_space.
  eapply JsFacts.allChars_impl; [|apply JsFacts.allChars_filterChars].
  intros c. unfold Fuzzy.isSeparator. by destruct (Js.isWhiteSpace c).
Qed.

(** C9. The normalisation key is idempotent, for the key of the fuzzy engine
    ([key]: upper-case, separators removed) and for the one of the CSV store
    ([norm]: trimmed, lower-case): normalising a key again changes nothing. *)
Theorem normKey_idempotent (s : string) :
  Fuzzy.key (Fuzzy.key s) = Fuzzy.key s /\ CsvDb.norm (CsvDb.norm s) = CsvDb.norm s.
Proof.
  split.
  - rewrite (key_unfold (Fuzzy.key s)), (key_unfold s).
    unfold Js.toUpperCase.
    rewrite <- (JsFacts.filterChars_mapChars _ _ _
                  (fun c => f_equal negb (isSeparator_upperChar c))).
    rewrite JsFacts.mapChars_idem by apply JsFacts.upperChar_idem.
    apply JsFacts.filterChars_all, JsFacts.allChars_filterChars.
  - unfold CsvDb.norm, Js.toLowerCase.
    rewrite JsFacts.trim_mapChars by apply JsFacts.isWhiteSpace_lowerChar.
    rewrite JsFacts.trim_idem.
    apply JsFacts.mapChars_idem, JsFacts.lowerChar_idem.
Qed.

(** ** Levenshtein distance *)

Module LevenshteinFacts.

Import Spec.

Local Open Scope nat_scope.

Lemma distance_nil_r a : distance a [] = length a.
Proof. by destruct a. Qed.

Lemma distance_cons x a y b :
  distance (x :: a) (y :: b) =
  Nat.min (distance a (y :: b) + 1)
    (Nat.min (distance (x :: a) b + 1)
             (distance a b + (if bool_decide (x = y) then 0 else 1))).
Proof. reflexivity. Qed.

Lemma distance_cons_l_le x a b : distance (x :: a) b <= distance a b + 1.
Proof.
  destruct b as [|y b].
  - rewrite !distance_nil_r. simpl. lia.
  - rewrite distance_cons. lia.
Qed.

Lemma distance_cons_r_le y a b : distance a (y :: b) <= distance a b + 1.
Proof.
  destruct a as [|x a].
  - simpl. lia.
  - rewrite distance_cons. lia.
Qed.

(** The recurrence yields the cost of some edit script... *)
Lemma edits_distance a b : edits a b (distance a b).
Proof.
  revert b. induction a as [|x a IHa]; intros b.
  - simpl. induction b as [|y b IHb]; simpl; [constructor|by constructor].
  - induction b as [|y b IHb].
    + rewrite distance_nil_r. simpl. apply edits_delete.
      specialize (IHa []). by rewrite distance_nil_r in IHa.
    + rewrite distance_cons.
      destruct (Nat.min_spec (distance a (y :: b) + 1)
                  (Nat.min (distance (x :: a) b + 1)
                     (distance a b + (if bool_decide (x = y) then 0 else 1))))
        as [[_ ->]|[_ ->]].
      { rewrite Nat.add_1_r. apply edits_delete, IHa. }
      destruct (Nat.min_spec (distance (x :: a) b + 1)
                  (distance a b + (if bool_decide (x = y) then 0 else 1)))
        as [[_ ->]|[_ ->]].
      { rewrite Nat.add_1_r. by apply edits_insert. }
      case_bool_decide as Hxy.
      * subst y. rewrite Nat.add_0_r. apply edits_keep, IHa.
      * rewrite Nat.add_1_r. by apply edits_substitute.
Qed.

(** ... and no edit script is cheaper. *)
Lemma distance_le_edits a b n : edits a b n -> distance a b <= n.
Proof.
  induction 1 as [|c a b n _ IH|c a b n _ IH|c d a b n Hcd _ IH|c a b n _ IH].
  - done.
  - pose proof (distance_cons_l_le c a b). lia.
  - pose proof (distance_cons_r_le c a b). lia.
  - rewrite distance_cons. case_bool_decide; lia.
  - rewrite distance_cons. rewrite bool_decide_eq_true_2 by done. lia.
Qed.

Lemma edits_snoc_delete a b n c : edits a b n -> edits (a ++ [c]) b (S n).
Proof.
  induction 1; simpl; try (by constructor).
  apply edits_delete, edits_nil.
Qed.

Lemma edits_snoc_insert a b n c : edits a b n -> edits a (b ++ [c]) (S n).
Proof.
  induction 1; simpl; try (by constructor).
  apply edits_insert, edits_nil.
Qed.

Lemma edits_snoc_substitute a b n c d :
  c <> d -> edits a b n -> edits (a ++ [c]) (b ++ [d]) (S n).
Proof.
  intros Hcd. induction 1; simpl; try (by constructor).
  apply edits_substitute, edits_nil. done.
Qed.

Lemma edits_snoc_keep a b n c : edits a b n -> edits (a ++ [c]) (b ++ [c]) n.
Proof.
  induction 1; simpl; try (by constructor).
  apply edits_keep, edits_nil.
Qed.

Lemma edits_reverse a b n : edits a b n -> edits (reverse a) (reverse b) n.
Proof.
  induction 1; rewrite ?reverse_cons; simpl.
  - constructor.
  - by apply edits_snoc_delete.
  - by apply edits_snoc_insert.
  - by apply edits_snoc_substitute.
  - by apply edits_snoc_keep.
Qed.

Lemma distance_reverse a b : distance (reverse a) (reverse b) = distance a b.
Proof.
  apply Nat.le_antisymm.
  - apply distance_le_edits, edits_reverse, edits_distance.
  - rewrite <- (reverse_involutive a), <- (reverse_involutive b) at 1.
    apply distance_le_edits, edits_reverse, edits_distance.
Qed.

Lemma edits_uncons_l a0 b n :
  edits a0 b n -> forall x a, a0 = x :: a -> distance a b <= S n.
Proof.
  induction 1 as [|c a' b n H IH|c a' b n H IH|c d a' b n Hcd H IH|c a' b n H IH];
    intros x a Heq; simplify_eq.
  - apply distance_le_edits in H. lia.
  - specialize (IH _ _ eq_refl). pose proof (distance_cons_r_le c a b). lia.
  - apply distance_le_edits in H. pose proof (distance_cons_r_le d a b). lia.
  - apply distance_le_edits in H. pose proof (distance_cons_r_le x a b). lia.
Qed.

Lemma edits_uncons_r a b0 n :
  edits a b0 n -> forall y b, b0 = y :: b -> distance a b <= S n.
Proof.
  induction 1 as [|c a' b' n H IH|c a' b' n H IH|c d a' b' n Hcd H IH|c a' b' n H IH];
    intros y b Heq; simplify_eq.
  - specialize (IH _ _ eq_refl). pose proof (distance_cons_l_le c a' b). lia.
  - apply distance_le_edits in H. lia.
  - apply distance_le_edits in H. pose proof (distance_cons_l_le c a' b). lia.
  - apply distance_le_edits in H. pose proof (distance_cons_l_le y a' b). lia.
Qed.

Lemma distance_uncons_l x a b : distance a b <= distance (x :: a) b + 1.
Proof.
  pose proof (edits_uncons_l _ _ _ (edits_distance (x :: a) b) x a eq_refl). lia.
Qed.

Lemma distance_uncons_r y a b : distance a b <= distance a (y :: b) + 1.
Proof.
  pose proof (edits_uncons_r _ _ _ (edits_distance a (y :: b)) y b eq_refl). lia.
Qed.

(** The recurrence on the last characters, as the table is filled. *)
Lemma distance_snoc p x q y :
  distance (p ++ [x]) (q ++ [y]) =
  if bool_decide (x = y) then distance p q
  else Nat.min (distance p q + 1)
         (Nat.min (distance p (q ++ [y]) + 1) (distance (p ++ [x]) q + 1)).
Proof.
  rewrite <- (distance_reverse (p ++ [x])), <- (distance_reverse p q),
    <- (distance_reverse p (q ++ [y])), <- (distance_reverse (p ++ [x]) q).
  rewrite !reverse_snoc, distance_cons.
  pose proof (distance_uncons_l x (reverse p) (reverse q)).
  pose proof (distance_uncons_r y (reverse p) (reverse q)).
  pose proof (distance_cons_l_le x (reverse p) (reverse q)).
  pose proof (distance_cons_r_le y (reverse p) (reverse q)).
  pose proof (distance_uncons_l x (reverse p) (y :: reverse q)).
  pose proof (distance_uncons_r y (x :: reverse p) (reverse q)).
  case_bool_decide; lia.
Qed.

(** *** The one-row table of [editDistance] *)

Section Table.

Variables a b : list ascii.

(** Entry [(i, j)] of the table: the distance between the first [i]
    characters of [a] and the first [j] characters of [b]. *)
Definition entry (i j : nat) : nat := distance (take i a) (take j b).

Definition tableRow (i : nat) : list nat := map (entry i) (seq 0 (S (length b))).

(** The state of the inner loop after column [k] of row [S i]. *)
Definition innerInv (i k : nat) (st : nat * list nat) : Prop :=
  st.1 = entry i k /\ length st.2 = S (length b) /\
  (forall j, j <= k -> st.2 !! j = Some (entry (S i) j)) /\
  (forall j, k < j -> j <= length b -> st.2 !! j = Some (entry i j)).

Lemma entry_0_r i : i <= length a -> entry i 0 = i.
Proof.
  intros Hi. unfold entry. rewrite take_0, distance_nil_r. by apply length_take_le.
Qed.

Lemma entry_0_l j : j <= length b -> entry 0 j = j.
Proof. intros Hj. unfold entry. rewrite take_0. simpl. by apply length_take_le. Qed.

Lemma tableRow_lookup i j : j <= length b -> tableRow i !! j = Some (entry i j).
Proof.
  intros Hj. unfold tableRow. rewrite list_lookup_fmap, lookup_seq_lt by lia. done.
Qed.

Lemma length_tableRow i : length (tableRow i) = S (length b).
Proof. unfold tableRow. by rewrite length_map, length_seq. Qed.

Lemma cell_entry i k prev dp :
  i < length a -> k < length b ->
  prev = entry i k ->
  dp !! S k = Some (entry i (S k)) ->
  dp !! k = Some (entry (S i) k) ->
  Fuzzy.cell a b (S i) (S k) prev dp = entry (S i) (S k).
Proof.
  intros Hi Hk -> Hup Hleft. unfold Fuzzy.cell.
  replace (S i - 1) with i by lia. replace (S k - 1) with k by lia.
  destruct (lookup_lt_is_Some_2 a i Hi) as [x Hx].
  destruct (lookup_lt_is_Some_2 b k Hk) as [y Hy].
  rewrite Hx, Hy.
  rewrite (list_lookup_total_correct _ _ _ Hup), (list_lookup_total_correct _ _ _ Hleft).
  unfold entry.
  rewrite (take_S_r a i x Hx), (take_S_r b k y Hy), distance_snoc.
  rewrite <- (take_S_r a i x Hx), <- (take_S_r b k y Hy).
  repeat case_bool_decide; simplify_eq; done.
Qed.

Lemma innerStep_inv i k st :
  i < length a -> k < length b ->
  innerInv i k st -> innerInv i (S k) (Fuzzy.innerStep a b (S i) st (S k)).
Proof.
  intros Hi Hk (Hprev & Hlen & Hnew & Hold). destruct st as [prev dp].
  unfold innerInv, Fuzzy.innerStep in *. cbn [fst snd] in *.
  split; [|split; [|split]].
  - apply list_lookup_total_correct, Hold; lia.
  - by rewrite length_insert.
  - intros j Hj. destruct (decide (j = S k)) as [->|Hne].
    + rewrite list_lookup_insert_eq by lia. f_equal.
      apply cell_entry; [done|done|done|apply Hold; lia|apply Hnew; lia].
    + rewrite list_lookup_insert_ne by done. apply Hnew. lia.
  - intros j Hj1 Hj2. rewrite list_lookup_insert_ne by lia. apply Hold; lia.
Qed.

Lemma inner_loop_inv i k :
  i < length a -> k <= length b ->
  innerInv i k (foldl (Fuzzy.innerStep a b (S i))
                  (tableRow i !!! 0, <[0 := S i]> (tableRow i)) (seq 1 k)).
Proof.
  intros Hi. induction k as [|k IH]; intros Hk.
  - unfold innerInv. cbn [foldl seq fst snd]. split; [|split; [|split]].
    + apply list_lookup_total_correct, tableRow_lookup. lia.
    + by rewrite length_insert, length_tableRow.
    + intros j Hj. assert (j = 0) as -> by lia.
      rewrite list_lookup_insert_eq by (rewrite length_tableRow; lia).
      by rewrite entry_0_r by lia.
    + intros j Hj1 Hj2. rewrite list_lookup_insert_ne by lia.
      by apply tableRow_lookup.
  - rewrite (seq_S k 1), foldl_app. cbn [foldl Nat.add]. apply innerStep_inv; [done|lia|]. apply IH. lia.
Qed.

Lemma outerStep_tableRow i :
  i < length a ->
  Fuzzy.outerStep a b (length b) (tableRow i) (S i) = tableRow (S i).
Proof.
  intros Hi. unfold Fuzzy.outerStep.
  destruct (inner_loop_inv i (length b) Hi (le_n _)) as (_ & Hlen & Hnew & _).
  apply list_eq. intros j. destruct (decide (j <= length b)) as [Hj|Hj].
  - by rewrite Hnew, tableRow_lookup.
  - rewrite !lookup_ge_None_2; [done|rewrite length_tableRow; lia|lia].
Qed.

Lemma outer_loop_tableRow k :
  k <= length a ->
  foldl (Fuzzy.outerStep a b (length b)) (seq 0 (S (length b))) (seq 1 k) = tableRow k.
Proof.
  induction k as [|k IH]; intros Hk.
  - change (seq 1 0) with (@nil nat). cbn [foldl].
    apply list_eq. intros j. destruct (decide (j <= length b)) as [Hj|Hj].
    + rewrite tableRow_lookup, lookup_seq_lt by lia. by rewrite entry_0_l.
    + rewrite !lookup_ge_None_2; [done|rewrite length_tableRow; lia|rewrite length_seq; lia].
  - rewrite (seq_S k 1), foldl_app, IH by lia. cbn [foldl Nat.add]. apply outerStep_tableRow. lia.
Qed.

End Table.

Lemma length_chars s : length (Fuzzy.chars s) = String.length s.
Proof. unfold Fuzzy.chars. induction s; simpl; congruence. Qed.

(** The iterative, one-row [editDistance] computes the Levenshtein distance. *)
Lemma editDistance_levenshtein a b : Fuzzy.editDistance a b = levenshtein a b.
Proof.
  unfold Fuzzy.editDistance, levenshtein.
  fold (Fuzzy.chars a) (Fuzzy.chars b). rewrite <- !length_chars.
  generalize (Fuzzy.chars a) (Fuzzy.chars b). clear a b. intros a b.
  destruct (Nat.eqb_spec (length a) 0) as [Ha|Ha].
  { destruct a; [done|discriminate]. }
  destruct (Nat.eqb_spec (length b) 0) as [Hb|Hb].
  { destruct b; [by rewrite distance_nil_r|discriminate]. }
  rewrite outer_loop_tableRow by done.
  rewrite (list_lookup_total_correct _ _ _ (tableRow_lookup a b _ _ (le_n _))).
  unfold entry. by rewrite !take_ge.
Qed.

(** [levenshtein] is the least cost of an edit script. *)
Lemma levenshtein_least a b :
  edits (Fuzzy.chars a) (Fuzzy.chars b) (levenshtein a b) /\
  forall n, edits (Fuzzy.chars a) (Fuzzy.chars b) n -> levenshtein a b <= n.
Proof. split; [apply edits_distance|apply distance_le_edits]. Qed.

End LevenshteinFacts.

(** ** Doubles *)

Module DoubleFacts.

(** *** Integers below 2^53 are doubles *)

Lemma digits2_pos_lower m : 2 ^ (Z.pos (digits2_pos m) - 1) <= Z.pos m.
Proof.
  induction m as [m IH|m IH|]; simpl digits2_pos; [| |done].
  - replace (Z.pos (Pos.succ (digits2_pos m)) - 1) with (Z.succ (Z.pos (digits2_pos m) - 1))
      by lia.
    rewrite Z.pow_succ_r by lia. lia.
  - replace (Z.pos (Pos.succ (digits2_pos m)) - 1) with (Z.succ (Z.pos (digits2_pos m) - 1))
      by lia.
    rewrite Z.pow_succ_r by lia. lia.
Qed.

Lemma digits2_pos_le_53 m : Z.pos m < 2 ^ 53 -> Z.pos (digits2_pos m) <= 53.
Proof.
  intros Hm. pose proof (digits2_pos_lower m) as Hd.
  destruct (Z.le_gt_cases (Z.pos (digits2_pos m)) 53) as [|Hgt]; [done|].
  assert (2 ^ 53 <= 2 ^ (Z.pos (digits2_pos m) - 1)); [|lia].
  apply Z.pow_le_mono_r; lia.
Qed.

Lemma iter_xO_value m k : Z.pos (Pos.iter xO m k) = Z.pos m * 2 ^ Z.pos k.
Proof.
  induction k as [|k IH] using Pos.peano_ind.
  - simpl. lia.
  - rewrite Pos.iter_succ, Pos2Z.inj_succ, Z.pow_succ_r by lia.
    rewrite Pos2Z.inj_xO, IH. lia.
Qed.

Lemma iter_xO_digits m k :
  Z.pos (digits2_pos (Pos.iter xO m k)) = Z.pos (digits2_pos m) + Z.pos k.
Proof.
  induction k as [|k IH] using Pos.peano_ind.
  - simpl. lia.
  - rewrite Pos.iter_succ. simpl digits2_pos. lia.
Qed.

(** A mantissa of 53 bits with a small exponent is kept as it is. *)
Lemma binary_round_aux_exact sx mz ez :
  Z.pos (digits2_pos mz) = 53 -> -52 <= ez <= 0 ->
  binary_round_aux prec emax sx (Z.pos mz) ez loc_Exact = S754_finite sx mz ez.
Proof.
  intros Hd He. unfold binary_round_aux.
  assert (shr_fexp prec emax (Z.pos mz) ez loc_Exact
          = ({| shr_m := Z.pos mz; shr_r := false; shr_s := false |}, ez)) as Hshr.
  { unfold shr_fexp. cbn [Zdigits2]. rewrite Hd.
    replace (fexp prec emax (53 + ez) - ez) with 0; [done|].
    unfold fexp, emin, prec, emax. lia. }
  rewrite Hshr. cbn [shr_m loc_of_shr_record round_nearest_even]. rewrite Hshr.
  cbn [shr_m]. replace (ez <=? emax - prec) with true; [done|].
  symmetry. apply Z.leb_le. unfold emax, prec. lia.
Qed.

(** A mantissa of 53 bits with a small exponent is a double. *)
Lemma finite_valid sx mz ez :
  Z.pos (digits2_pos mz) = 53 -> -52 <= ez <= 0 ->
  valid_binary (S754_finite sx mz ez) = true.
Proof.
  intros Hd He. unfold valid_binary, SpecFloat.valid_binary, bounded, canonical_mantissa.
  rewrite Hd. apply andb_true_intro. split.
  - apply Z.eqb_eq. unfold fexp, emin, prec, emax. lia.
  - apply Z.leb_le. unfold prec, emax. lia.
Qed.

Lemma binary_round_normal sx m :
  Z.pos m < 2 ^ 53 ->
  exists mz ez,
    binary_round prec emax sx m 0 = S754_finite sx mz ez
    /\ -52 <= ez <= 0 /\ Z.pos mz = Z.pos m * 2 ^ (- ez)
    /\ Z.pos (digits2_pos mz) = 53.
Proof.
  intros Hm. pose proof (digits2_pos_le_53 m Hm) as Hd.
  unfold binary_round, shl_align.
  replace (fexp prec emax (Z.pos (digits2_pos m) + 0)) with (Z.pos (digits2_pos m) - 53)
    by (unfold fexp, emin, prec, emax; lia).
  destruct (Z.pos (digits2_pos m) - 53 - 0) as [|k|k] eqn:E; [|lia|].
  - exists m, 0. split; [|split; [lia|split; [simpl; lia|lia]]].
    apply binary_round_aux_exact; lia.
  - exists (Pos.iter xO m k), (Z.pos (digits2_pos m) - 53).
    assert (Z.pos (digits2_pos (Pos.iter xO m k)) = 53) as Hk
      by (rewrite iter_xO_digits; lia).
    split; [|split; [lia|split; [|done]]].
    + apply binary_round_aux_exact; [done|lia].
    + rewrite iter_xO_value. f_equal. f_equal. lia.
Qed.

Lemma binary_round_exact sx m :
  Z.pos m < 2 ^ 53 ->
  exists mz ez,
    binary_round prec emax sx m 0 = S754_finite sx mz ez
    /\ -52 <= ez <= 0 /\ Z.pos mz = Z.pos m * 2 ^ (- ez).
Proof.
  intros (mz & ez & H & He & Hmz & _)%(binary_round_normal sx). by exists mz, ez.
Qed.

(** A positive integer below 2^53 is a finite double. *)
Lemma ofZ_finite z :
  0 < z < 2 ^ 53 -> exists m e, Prim2SF (JsNumber.ofZ z) = S754_finite false m e.
Proof.
  intros Hz. destruct z as [|m|m]; [lia| |lia].
  unfold JsNumber.ofZ, binary_normalize.
  destruct (binary_round_normal false m) as (mz & ez & -> & He & _ & Hd); [lia|].
  exists mz, ez. by apply Prim2SF_SF2Prim, finite_valid.
Qed.

(** *** Division *)

(** A finite double that is not zero, divided by itself, is 1. *)
Lemma div_self x s m e : Prim2SF x = S754_finite s m e -> (x / x)%float = 1%float.
Proof.
  intros Hx. apply Prim2SF_inj. rewrite div_spec, Hx.
  unfold SF64div, SFdiv, SFdiv_core_binary.
  replace (Zdigits2 (Z.pos m) + e - (Zdigits2 (Z.pos m) + e)) with 0 by lia.
  replace (e - e) with 0 by lia.
  change (Z.min (fexp prec emax 0) 0) with (-53).
  change (0 - -53) with 53.
  rewrite Z.shiftl_mul_pow2 by lia.
  assert (Z.div_eucl (Z.pos m * 2 ^ 53) (Z.pos m) = (2 ^ 53, 0)) as ->.
  { rewrite (surjective_pairing (Z.div_eucl _ _)).
    change (fst (Z.div_eucl ?a ?b)) with (a / b).
    change (snd (Z.div_eucl ?a ?b)) with (a mod b).
    by rewrite Z.mul_comm, Z.div_mul, Z.mod_mul by lia. }
  assert (new_location (Z.pos m) 0 = loc_Exact) as ->.
  { unfold new_location. by destruct (Z.even _). }
  rewrite xorb_nilpotent. reflexivity.
Qed.

Lemma ofNat_div_self n :
  (0 < n)%nat -> Z.of_nat n < 2 ^ 53 ->
  (JsNumber.ofNat n / JsNumber.ofNat n)%float = 1%float.
Proof.
  intros Hn Hlt. destruct (ofZ_finite (Z.of_nat n)) as (m & e & Hm); [lia|].
  by apply (div_self _ _ _ _ Hm).
Qed.

End DoubleFacts.

(** ** Scores *)

Local Open Scope float_scope.

(** The guard of [score]: a candidate whose normalized form is empty scores
    0, also against the empty key, where the layers would give 1 for two
    equal normalized forms. [findBestCandidates] returns before it scores
    when the key of the query is empty, so that [score] never receives the
    empty key. *)
Lemma score_empty_candidate :
  Fuzzy.score "" "" = 0 /\ Spec.layeredScore "" "" = 1.
Proof. split; reflexivity. Qed.

(** C4. For a query key [q] that is not empty (and no longer than a String
    can be), [score] is the layered definition: 1.0 on equal normalized
    forms, else 0.97 * len(q)/len(c) on a prefix, else 0.90 * len(q)/len(c)
    on a substring, else (1 - levenshtein/max(len(q), len(c))) * 0.85, the
    lengths being those of the normalized forms; and [levenshtein] is the
    least number of single-character insertions, deletions and
    substitutions. The guard on a candidate whose normalized form is empty
    returns the 0 that the last layer gives there. *)
Theorem score_layered (q c : string) :
  q <> "" -> (Z.of_nat (String.length q) <= Js.maxLength)%Z ->
  Fuzzy.score q c = Spec.layeredScore q c
  /\ Spec.edits (Fuzzy.chars q) (Fuzzy.chars (Fuzzy.key c))
       (Spec.levenshtein q (Fuzzy.key c))
  /\ (forall n, Spec.edits (Fuzzy.chars q) (Fuzzy.chars (Fuzzy.key c)) n ->
                (Spec.levenshtein q (Fuzzy.key c) <= n)%nat).
Proof.
  intros Hq Hlen. split; [|apply LevenshteinFacts.levenshtein_least].
  unfold Fuzzy.score, Spec.layeredScore.
  destruct (Js.truthy (Fuzzy.key c)) eqn:E; cbn [negb].
  { by rewrite LevenshteinFacts.editDistance_levenshtein. }
  apply JsFacts.truthy_false in E. rewrite E.
  destruct q as [|x q]; [done|]. cbn [String.eqb Js.startsWith Js.includes orb].
  unfold Spec.levenshtein. cbn [list_ascii_of_string].
  rewrite LevenshteinFacts.distance_nil_r.
  change (length (x :: list_ascii_of_string q)) with (length (Fuzzy.chars (String x q))).
  rewrite LevenshteinFacts.length_chars, Nat.max_0_r.
  rewrite DoubleFacts.ofNat_div_self; [reflexivity|simpl; lia|].
  unfold Js.maxLength in Hlen. lia.
Qed.

(** C4, on a query key against a candidate of separators only and against a
    candidate one character away. *)
Lemma score_layered_witness :
  Fuzzy.score "ABC123" " - " = Spec.layeredScore "ABC123" " - "
  /\ Fuzzy.score "ABC123" "abc-124" = (1 - 1 / 6) * 0.85.
Proof.
  split; [|reflexivity].
  apply (score_layered "ABC123" " - "); [discriminate|].
  vm_compute. discriminate.
Defined.

(** C5, where the claim fails: the prefix score of "ABC12" against "ABC123"
    is 0.97 * 5/6, which is below 0.9. *)
Lemma score_prefix_below_threshold :
  (0.9 <=? Fuzzy.score "ABC12" "ABC123") = false.
Proof. reflexivity. Qed.

(** C5, amended. score("ABC123", "ABC123") is 1.0; score("ABC12", "ABC123")
    is the prefix score 0.97 * 5/6, between 0.80 and 0.81; and
    score("XYZ", "ABC123") is 0, below 0.5. *)
Theorem score_examples :
  Fuzzy.score "ABC123" "ABC123" = 1
  /\ Fuzzy.score "ABC12" "ABC123" = 0.97 * (5 / 6)
  /\ (0.80 <=? Fuzzy.score "ABC12" "ABC123") = true
  /\ (Fuzzy.score "ABC12" "ABC123" <? 0.81) = true
  /\ Fuzzy.score "XYZ" "ABC123" = 0
  /\ (Fuzzy.score "XYZ" "ABC123" <? 0.5) = true.
Proof. repeat split; reflexivity. Qed.

(** ** Auto-resolution *)

(** A candidate with a score and a route, as [pickUniqueRoute] reads it. *)
Definition scored (s : float) (r : string) : Fuzzy.Candidate :=
  {| Fuzzy.cscore := s; Fuzzy.label := r; Fuzzy.sub := ""; Fuzzy.route := r |}.

(** [pickUniqueRoute] on the scores the specification names: inside one
    bucket the gap is the one to the next candidate; across buckets the first
    entry of another bucket is never the runner-up. *)
Lemma pickUniqueRoute_on_named_scores :
  Fuzzy.pickUniqueRoute [scored 0.95 "a"; scored 0.70 "b"] [] [] = Some "a"
  /\ Fuzzy.pickUniqueRoute [scored 0.91 "a"; scored 0.85 "b"] [] [] = None
  /\ Fuzzy.pickUniqueRoute [scored 0.91 "a"] [scored 0.85 "b"] [] = Some "a"
  /\ Fuzzy.pickUniqueRoute [scored 0.91 "a"] [] [scored 0.85 "b"] = Some "a".
Proof. repeat split; reflexivity. Qed.

(** C2, the code at the failing input. With a model number and a part number
    that both score 0.97 * 13/14 (about 0.9007) for the query, the two best
    candidates are tied across buckets, and still [uniqueRoute] is the model's
    route and [runSearch] navigates to it: the runner-up is taken among the
    second entries of the buckets only. *)
Theorem uniqueRoute_ignores_other_buckets :
  exists db, Fuzzy.init Fixtures.tiedCatalog = Some db /\
    let best := Fuzzy.findBestCandidates "ABCDEFGHIJKLM" db Fuzzy.defaultLimits in
    map Fuzzy.cscore (Fuzzy.bmodels best) = [0.97 * (13 / 14)]
    /\ map Fuzzy.cscore (Fuzzy.bparts best) = [0.97 * (13 / 14)]
    /\ Fuzzy.bschematics best = []
    /\ Fuzzy.uniqueRoute best = Some "model.html?id=ABCDEFGHIJKLMN"
    /\ Fuzzy.runSearch Fixtures.tiedCatalog (Some "ABCDEFGHIJKLM")
       = Some [Fuzzy.Go "model.html?id=ABCDEFGHIJKLMN"].
Proof. eexists. split; [reflexivity|]. vm_compute. repeat split. Qed.

(** ** Field coercions *)

(** C3, the code at the failing input. The minus sign is removed with the
    other non-digits before the number is read, so "-5" is the price 5 and
    the clamp of negative values to 0 is never reached. *)
Theorem parseMoneyUSD_drops_minus_sign :
  CsvDb.parseMoneyUSD (Some "-5") = Some 5.
Proof. reflexivity. Qed.

(** The other values the specification names: the clamp at 999.99 and the
    absent price of an empty, missing or non-numeric field. *)
Lemma parseMoneyUSD_examples :
  CsvDb.parseMoneyUSD (Some "$1,234.56") = Some 999.99
  /\ CsvDb.parseMoneyUSD (Some "") = None
  /\ CsvDb.parseMoneyUSD None = None
  /\ CsvDb.parseMoneyUSD (Some "n/a") = None
  /\ CsvDb.parseMoneyUSD (Some "1.2.3") = None
  /\ CsvDb.parseMoneyUSD (Some "0") = Some 0
  /\ CsvDb.parseMoneyUSD (Some "12.345") = Some 12.35.
Proof. repeat split; reflexivity. Qed.

Local Close Scope float_scope.

(** ** Indexes built by a loop *)

Module IndexFacts.

Lemma foldl_invariant {A B} (P : A -> Prop) (f : A -> B -> A) (l : list B) (a : A) :
  P a -> (forall a x, x ∈ l -> P a -> P (f a x)) -> P (foldl f a l).
Proof.
  revert a. induction l as [|x l IH]; intros a Ha Hf; simpl; [done|].
  apply IH.
  - apply Hf; [left|done].
  - intros a' y Hy. apply Hf. by right.
Qed.

Section KeyIndex.

Context {A : Type}.

(** The keys under which one turn of the loop files the entity. *)
Variable keys : A -> list string.

Definition insertAll (ix : gmap string A) (x : A) : gmap string A :=
  foldl (fun ix k => <[k := x]> ix) ix (keys x).

Lemma lookup_insert_keys (ks : list string) (ix : gmap string A) x k :
  foldl (fun ix k => <[k := x]> ix) ix ks !! k
  = if decide (k ∈ ks) then Some x else ix !! k.
Proof.
  revert ix. induction ks as [|k' ks IH]; intros ix; cbn [foldl].
  - case_decide as Hin; [by apply elem_of_nil in Hin|done].
  - rewrite IH. destruct (decide (k ∈ ks)) as [Hin|Hin].
    + by rewrite decide_True by (by right).
    + destruct (decide (k = k')) as [->|Hne].
      * rewrite decide_True by (by left). by rewrite lookup_insert_eq.
      * rewrite decide_False by (by intros [?|?]%elem_of_cons).
        by rewrite lookup_insert_ne.
Qed.

Lemma lookup_insertAll ix x k :
  insertAll ix x !! k = if decide (k ∈ keys x) then Some x else ix !! k.
Proof. apply lookup_insert_keys. Qed.

Lemma lookup_index_Some l ix k y :
  foldl insertAll ix l !! k = Some y ->
  (y ∈ l /\ k ∈ keys y) \/ ix !! k = Some y.
Proof.
  revert ix. induction l as [|x l IH]; intros ix; simpl; [by right|].
  intros [[Hy Hk]|H]%IH.
  - left. split; [by right|done].
  - rewrite lookup_insertAll in H. case_decide; [|by right].
    simplify_eq. left. split; [by left|done].
Qed.

Lemma lookup_index_miss l ix k :
  (forall x, x ∈ l -> k ∉ keys x) -> foldl insertAll ix l !! k = ix !! k.
Proof.
  revert ix. induction l as [|x l IH]; intros ix Hl; simpl; [done|].
  rewrite IH by (intros y Hy; apply Hl; by right).
  rewrite lookup_insertAll. rewrite decide_False; [done|]. apply Hl. by left.
Qed.

Lemma lookup_index_hit l ix k x :
  x ∈ l -> k ∈ keys x ->
  exists y, y ∈ l /\ k ∈ keys y /\ foldl insertAll ix l !! k = Some y.
Proof.
  intros Hx Hk. revert ix x Hx Hk.
  induction l as [|z l IH]; intros ix x Hx Hk; [by apply elem_of_nil in Hx|].
  simpl.
  destruct (decide (Exists (fun y => k ∈ keys y) l)) as [Hex|Hex].
  - apply Exists_exists in Hex as (y & Hy & Hky).
    destruct (IH (insertAll ix z) y Hy Hky) as (y' & Hy' & Hky' & Hl).
    exists y'. split; [by right|done].
  - assert (forall y, y ∈ l -> k ∉ keys y) as Hmiss.
    { intros y Hy Hky. apply Hex, Exists_exists. eauto. }
    apply elem_of_cons in Hx as [->|Hx]; [|by destruct (Hmiss _ Hx)].
    exists z. split; [by left|]. split; [done|].
    rewrite lookup_index_miss by done.
    rewrite lookup_insertAll. by rewrite decide_True.
Qed.

End KeyIndex.

(** The keys of an entity that is filed under one key when a field is set. *)
Lemma elem_of_key_if (s k k' : string) :
  k' ∈ (if Js.truthy s then [k] else []) <-> s <> "" /\ k = k'.
Proof.
  destruct s; simpl.
  - rewrite elem_of_nil. split; [done|]. by intros [? _].
  - rewrite list_elem_of_singleton. split; [by intros ->|]. by intros [_ ->].
Qed.

(** Grouping by key with [push]. *)
Lemma lookup_pushTo {A} (k k' : string) (x : A) (o : gmap string (list A)) :
  default [] (CsvDb.pushTo k x o !! k')
  = (default [] (o !! k') ++ (if decide (k = k') then [x] else []))%list.
Proof.
  unfold CsvDb.pushTo. destruct (decide (k = k')) as [->|Hne].
  - by rewrite lookup_insert_eq.
  - rewrite lookup_insert_ne by done. by rewrite app_nil_r.
Qed.

Lemma lookup_group {A} (keyOf : A -> string) (l : list A) (o : gmap string (list A)) k :
  default [] (foldl (fun o x => CsvDb.pushTo (keyOf x) x o) o l !! k)
  = (default [] (o !! k) ++ List.filter (fun x => String.eqb (keyOf x) k) l)%list.
Proof.
  revert o. induction l as [|x l IH]; intros o; simpl; [by rewrite app_nil_r|].
  rewrite IH, lookup_pushTo, <- app_assoc. f_equal.
  destruct (String.eqb_spec (keyOf x) k) as [->|Hne].
  - by rewrite decide_True.
  - by rewrite decide_False.
Qed.

(** Property lists. *)
Lemma get_set {V} (o : JsObject.t V) k v k' :
  JsObject.get (JsObject.set o k v) k' = if decide (k = k') then Some v else JsObject.get o k'.
Proof.
  induction o as [|[k0 v0] o IH]; simpl.
  - destruct (String.eqb_spec k k') as [->|Hne];
      [by rewrite decide_True|by rewrite decide_False].
  - destruct (String.eqb_spec k0 k) as [->|Hne]; simpl.
    + destruct (String.eqb_spec k k') as [->|Hne'];
        [by rewrite decide_True|by rewrite decide_False].
    + destruct (String.eqb_spec k0 k') as [->|Hne'].
      * by rewrite decide_False by congruence.
      * apply IH.
Qed.

End IndexFacts.

(** ** Array.prototype.sort *)

Module SortFacts.

Section Sorting.

Context {A : Type}.
Variable gt : A -> A -> bool.

(** [before a b]: the comparator does not ask for [b] ahead of [a]. *)
Definition before (a b : A) : Prop := gt a b = false.

Lemma insert_Permutation x l : JsArray.insert gt x l ≡ₚ x :: l.
Proof.
  induction l as [|y l IH]; simpl; [done|].
  destruct (gt x y); [|done]. rewrite IH. apply perm_swap.
Qed.

Lemma sort_Permutation l : JsArray.sort gt l ≡ₚ l.
Proof.
  unfold JsArray.sort. induction l as [|x l IH]; simpl; [done|].
  by rewrite insert_Permutation, IH.
Qed.

Lemma elem_of_sort x l : x ∈ JsArray.sort gt l <-> x ∈ l.
Proof. by rewrite sort_Permutation. Qed.

Hypothesis gt_asym : forall a b, gt a b = true -> gt b a = false.
Hypothesis before_trans : forall a b c, before a b -> before b c -> before a c.

Lemma insert_StronglySorted x l :
  StronglySorted before l -> StronglySorted before (JsArray.insert gt x l).
Proof.
  induction 1 as [|y l Hl IH Hy]; simpl.
  - repeat constructor.
  - destruct (gt x y) eqn:Hxy.
    + constructor; [done|].
      rewrite Forall_forall. intros z Hz.
      rewrite insert_Permutation in Hz. apply elem_of_cons in Hz as [->|Hz].
      * by apply gt_asym.
      * rewrite Forall_forall in Hy. by apply Hy.
    + constructor; [by constructor|].
      constructor; [done|].
      rewrite Forall_forall in Hy |- *. intros z Hz.
      eapply before_trans; [exact Hxy|]. by apply Hy.
Qed.

Lemma sort_StronglySorted l : StronglySorted before (JsArray.sort gt l).
Proof.
  unfold JsArray.sort. induction l as [|x l IH]; simpl; [constructor|].
  by apply insert_StronglySorted.
Qed.

(** With a comparator that ties no two different elements of the array, the
    result does not depend on the order of the input. *)
Lemma sort_Permutation_eq l l' :
  (forall a b, a ∈ l -> b ∈ l -> before a b -> before b a -> a = b) ->
  l ≡ₚ l' -> JsArray.sort gt l = JsArray.sort gt l'.
Proof.
  intros Hanti Hperm.
  apply (StronglySorted_unique_strong before); try apply sort_StronglySorted.
  - intros a b Ha Hb Hab Hba. rewrite elem_of_sort in Ha, Hb.
    apply Hanti; [done| |done|done]. by rewrite Hperm.
  - by rewrite !sort_Permutation.
Qed.

End Sorting.

End SortFacts.

(** ** Collations *)

Module CollationFacts.

Import Fixtures.

Lemma code_inj x y : Js.code x = Js.code y -> x = y.
Proof.
  unfold Js.code. intros H.
  by rewrite <- (ascii_N_embedding x), <- (ascii_N_embedding y), H.
Qed.

Lemma byteCompare_eq a b : byteCompare a b = 0 -> a = b.
Proof.
  revert b. induction a as [|x a IH]; intros [|y b]; simpl; try done.
  destruct (N.ltb_spec (Js.code x) (Js.code y)); [done|].
  destruct (N.ltb_spec (Js.code y) (Js.code x)); [done|].
  intros ->%IH. f_equal. apply code_inj. lia.
Qed.

Lemma byteCompare_antisym a b : 0 < byteCompare a b <-> byteCompare b a < 0.
Proof.
  revert b. induction a as [|x a IH]; intros [|y b]; simpl; try lia.
  destruct (N.ltb_spec (Js.code x) (Js.code y)),
           (N.ltb_spec (Js.code y) (Js.code x)); try lia.
  apply IH.
Qed.

Lemma byteCompare_trans a b c :
  byteCompare a b <= 0 -> byteCompare b c <= 0 -> byteCompare a c <= 0.
Proof.
  revert b c. induction a as [|x a IH]; intros [|y b] [|z c]; simpl; try lia.
  destruct (N.ltb_spec (Js.code x) (Js.code y)),
           (N.ltb_spec (Js.code y) (Js.code x)),
           (N.ltb_spec (Js.code y) (Js.code z)),
           (N.ltb_spec (Js.code z) (Js.code y)),
           (N.ltb_spec (Js.code x) (Js.code z)),
           (N.ltb_spec (Js.code z) (Js.code x)); try lia.
  apply IH.
Qed.

Lemma byteCompare_strict : Spec.StrictCollation byteCompare.
Proof.
  split; [apply byteCompare_eq|]. split; [apply byteCompare_antisym|].
  apply byteCompare_trans.
Qed.

End CollationFacts.

(** ** The CSV store: what a load builds *)

Module CsvFacts.

Import CsvDb Spec.

Lemma elem_of_filter {A} (f : A -> bool) (l : list A) x :
  x ∈ List.filter f l <-> x ∈ l /\ f x = true.
Proof. rewrite !list_elem_of_In. apply filter_In. Qed.

Lemma valuesIn_empty {A} (l : list A) : valuesIn (∅ : gmap string A) l.
Proof. intros k x. by rewrite lookup_empty. Qed.

Lemma valuesIn_insert {A} (ix : gmap string A) (l : list A) k x :
  valuesIn ix l -> x ∈ l -> valuesIn (<[k := x]> ix) l.
Proof.
  intros Hix Hx k' y. rewrite lookup_insert. case_decide; [|apply Hix].
  by intros [= <-].
Qed.

Lemma listsIn_pushTo {A} (ix : gmap string (list A)) (l : list A) k x :
  listsIn ix l -> x ∈ l -> listsIn (pushTo k x ix) l.
Proof.
  intros Hix Hx k' xs y. unfold pushTo. rewrite lookup_insert.
  case_decide; [|apply Hix]. intros [= <-].
  intros [Hy| ->%list_elem_of_singleton]%elem_of_app; [|done].
  destruct (ix !! k) as [xs|] eqn:E; simpl in Hy.
  - by eapply Hix.
  - by apply elem_of_nil in Hy.
Qed.

Lemma listsIn_sort {A} (gt : A -> A -> bool) (ix : gmap string (list A)) (l : list A) :
  listsIn ix l -> listsIn (JsArray.sort gt <$> ix) l.
Proof.
  intros Hix k xs y. rewrite lookup_fmap.
  destruct (ix !! k) as [ys|] eqn:E; simpl; [|done].
  intros [= <-]. rewrite SortFacts.elem_of_sort. by eapply Hix.
Qed.

Section Build.

Variable localeCompare : string -> string -> Z.
Variables modelsRows schemsRows linksRows partsRows : list Row.

Let db : Catalog := build localeCompare modelsRows schemsRows linksRows partsRows.

Lemma modelsById_valuesIn :
  valuesIn (modelsById db) (models db) /\ valuesIn (modelsByNumber db) (models db).
Proof.
  unfold db, build; cbn [modelsById modelsByNumber models].
  apply (IndexFacts.foldl_invariant
           (fun ix => valuesIn ix.1 _ /\ valuesIn ix.2 _)).
  - split; apply valuesIn_empty.
  - intros [byId byNumber] m Hm [H1 H2]. unfold indexModel; cbn [fst snd].
    assert (valuesIn (if Js.truthy (Model.id m) then <[Model.id m := m]> byId else byId)
              (List.filter keepModel (map mkModel modelsRows))) as H1'.
    { destruct (Js.truthy (Model.id m)); [by apply valuesIn_insert|done]. }
    destruct (Js.truthy (Model.modelNumber m)); cbn [fst snd]; [|done].
    split; [|by apply valuesIn_insert].
    destruct (_ !! Model.modelNumber m); [done|by apply valuesIn_insert].
Qed.

Lemma schemsById_valuesIn :
  (forall k s, JsObject.get (schemsById db) k = Some s -> s ∈ schematics db)
  /\ listsIn (schemsByModel db) (schematics db).
Proof.
  unfold db, build; cbn [schemsById schemsByModel schematics].
  set (ss := List.filter keepSchematic (map mkSchematic schemsRows)).
  cut ((forall k s, JsObject.get (foldl indexSchematic (JsObject.empty, ∅) ss).1 k = Some s
                    -> s ∈ ss)
       /\ listsIn (foldl indexSchematic (JsObject.empty, ∅) ss).2 ss).
  { intros [H1 H2]. split; [done|by apply listsIn_sort]. }
  apply (IndexFacts.foldl_invariant
           (fun ix => (forall k s, JsObject.get ix.1 k = Some s -> s ∈ ss)
                      /\ listsIn ix.2 ss)).
  - cbn [fst snd]. split; [done|]. intros k xs x. by rewrite lookup_empty.
  - intros [byId byModel] s Hs [H1 H2]. unfold indexSchematic; cbn [fst snd].
    split; [|by apply listsIn_pushTo].
    intros k s'. rewrite IndexFacts.get_set. case_decide; [|apply H1].
    by intros [= <-].
Qed.

Lemma parts_valuesIn :
  valuesIn (partsById db) (parts db)
  /\ valuesIn (partsByIdLower db) (parts db)
  /\ valuesIn (partsByNumber db) (parts db).
Proof.
  unfold db, build; cbn [partsById partsByIdLower partsByNumber parts].
  apply (IndexFacts.foldl_invariant
           (fun ix => valuesIn ix.1.1 _ /\ valuesIn ix.1.2 _ /\ valuesIn ix.2 _)).
  - repeat split; apply valuesIn_empty.
  - intros [[byId byIdLower] byNumber] p Hp (H1 & H2 & H3).
    unfold indexPart; cbn [fst snd].
    destruct (Js.truthy (Part.id p)), (Js.truthy (Part.number p)); cbn [fst snd];
      repeat split; try done; by apply valuesIn_insert.
Qed.

Lemma links_listsIn : listsIn (linkBySchematic db) (schematicParts db).
Proof.
  unfold db, build; cbn [linkBySchematic schematicParts].
  apply listsIn_sort.
  apply (IndexFacts.foldl_invariant (fun ix => listsIn ix _)).
  - intros k xs x. by rewrite lookup_empty.
  - intros ix l Hl Hix. by apply listsIn_pushTo.
Qed.

Lemma build_WellFormed : WellFormed db.
Proof.
  split.
  - intros m [_ Hm]%elem_of_filter. unfold keepModel in Hm.
    apply orb_prop in Hm as [Hm|Hm]; [left|right]; by apply JsFacts.truthy_true.
  - intros s [_ Hs]%elem_of_filter. unfold keepSchematic in Hs.
    apply andb_prop in Hs as [H1 H2]. split; by apply JsFacts.truthy_true.
  - intros l [_ Hl]%elem_of_filter. unfold keepLink in Hl.
    apply andb_prop in Hl as [H1 H2]. split; by apply JsFacts.truthy_true.
  - intros p [_ Hp]%elem_of_filter. unfold keepPart in Hp.
    apply orb_prop in Hp as [Hp|Hp]; [left|right]; by apply JsFacts.truthy_true.
  - apply modelsById_valuesIn.
  - apply modelsById_valuesIn.
  - apply schemsById_valuesIn.
  - apply schemsById_valuesIn.
  - apply parts_valuesIn.
  - apply parts_valuesIn.
  - apply parts_valuesIn.
  - apply links_listsIn.
Qed.

End Build.

Lemma load_build localeCompare env db cache' :
  load localeCompare env None = (inr db, cache') ->
  exists modelsTxt schemsTxt linksTxt partsTxt,
    fetchText env "models.csv" = inr modelsTxt
    /\ fetchText env "schematics.csv" = inr schemsTxt
    /\ fetchText env "schematic_parts.csv" = inr linksTxt
    /\ fetchText env "parts.csv" = inr partsTxt
    /\ db = build localeCompare (parseCSV modelsTxt) (parseCSV schemsTxt)
                 (parseCSV linksTxt) (parseCSV partsTxt)
    /\ cache' = Some db.
Proof.
  unfold load.
  destruct (fetchText env "models.csv") as [e1|t1]; [done|].
  destruct (fetchText env "schematics.csv") as [e2|t2]; [done|].
  destruct (fetchText env "schematic_parts.csv") as [e3|t3]; [done|].
  destruct (fetchText env "parts.csv") as [e4|t4]; [done|].
  intros [= <- <-]. by exists t1, t2, t3, t4.
Qed.

Lemma elem_of_kept {B} (mk : Row -> B) (keep : B -> bool) (valid : B -> Prop) rows x :
  (forall y, keep y = true <-> valid y) ->
  x ∈ List.filter keep (map mk rows) <-> valid x /\ exists r, r ∈ rows /\ x = mk r.
Proof.
  intros Hkeep. rewrite elem_of_filter, Hkeep.
  change (map mk rows) with (mk <$> rows). rewrite list_elem_of_fmap.
  split.
  - intros [(r & -> & Hr) Hv]. eauto.
  - intros [Hv (r & Hr & ->)]. eauto.
Qed.

Lemma keepModel_valid m : keepModel m = true <-> validModel m.
Proof.
  unfold keepModel, validModel. rewrite orb_true_iff, !JsFacts.truthy_true. done.
Qed.

Lemma keepSchematic_valid s : keepSchematic s = true <-> validSchematic s.
Proof.
  unfold keepSchematic, validSchematic. rewrite andb_true_iff, !JsFacts.truthy_true. done.
Qed.

Lemma keepLink_valid l : keepLink l = true <-> validLink l.
Proof.
  unfold keepLink, validLink. rewrite andb_true_iff, !JsFacts.truthy_true. done.
Qed.

Lemma keepPart_valid p : keepPart p = true <-> validPart p.
Proof.
  unfold keepPart, validPart. rewrite orb_true_iff, !JsFacts.truthy_true. done.
Qed.

(** C6. After a load every model has a non-empty id or model number, every
    schematic a non-empty id and model id, every schematic-part link a
    non-empty schematic id and part id, every part a non-empty id or number;
    every index holds members of its collection only; so an entity that
    violates its rule is in no collection and in no index. The collections
    are the entities of the parsed rows that satisfy their rule. *)
Theorem load_discards_invalid_rows localeCompare env db cache' :
  load localeCompare env None = (inr db, cache') ->
  WellFormed db
  /\ (forall m, ~ validModel m -> modelAbsent db m)
  /\ (forall s, ~ validSchematic s -> schematicAbsent db s)
  /\ (forall l, ~ validLink l -> linkAbsent db l)
  /\ (forall p, ~ validPart p -> partAbsent db p)
  /\ exists modelsTxt schemsTxt linksTxt partsTxt,
       fetchText env "models.csv" = inr modelsTxt
       /\ fetchText env "schematics.csv" = inr schemsTxt
       /\ fetchText env "schematic_parts.csv" = inr linksTxt
       /\ fetchText env "parts.csv" = inr partsTxt
       /\ (forall m, m ∈ models db <->
                     validModel m /\ exists r, r ∈ parseCSV modelsTxt /\ m = mkModel r)
       /\ (forall s, s ∈ schematics db <->
                     validSchematic s /\ exists r, r ∈ parseCSV schemsTxt /\ s = mkSchematic r)
       /\ (forall l, l ∈ schematicParts db <->
                     validLink l /\ exists r, r ∈ parseCSV linksTxt /\ l = mkLink r)
       /\ (forall p, p ∈ parts db <->
                     validPart p /\ exists r, r ∈ parseCSV partsTxt /\ p = mkPart r).
Proof.
  intros (t1 & t2 & t3 & t4 & H1 & H2 & H3 & H4 & -> & _)%load_build.
  pose proof (build_WellFormed localeCompare (parseCSV t1) (parseCSV t2)
                (parseCSV t3) (parseCSV t4)) as Hwf.
  split; [done|]. destruct Hwf.
  split; [|split; [|split; [|split]]].
  - intros m Hm. repeat split.
    + intros Hin. by apply Hm, models_valid0.
    + intros k Hk. by apply Hm, models_valid0, (modelsById_in0 k).
    + intros k Hk. by apply Hm, models_valid0, (modelsByNumber_in0 k).
  - intros s Hs. repeat split.
    + intros Hin. by apply Hs, schematics_valid0.
    + intros k Hk. by apply Hs, schematics_valid0, (schemsById_in0 k).
    + intros k xs Hk Hin. by apply Hs, schematics_valid0, (schemsByModel_in0 k xs).
  - intros l Hl. repeat split.
    + intros Hin. by apply Hl, links_valid0.
    + intros k xs Hk Hin. by apply Hl, links_valid0, (linkBySchematic_in0 k xs).
  - intros p Hp. repeat split.
    + intros Hin. by apply Hp, parts_valid0.
    + intros k Hk. by apply Hp, parts_valid0, (partsById_in0 k).
    + intros k Hk. by apply Hp, parts_valid0, (partsByIdLower_in0 k).
    + intros k Hk. by apply Hp, parts_valid0, (partsByNumber_in0 k).
  - exists t1, t2, t3, t4. do 4 (split; [done|]).
    unfold build; cbn [models schematics schematicParts parts].
    split; [|split; [|split]]; intros x.
    + apply elem_of_kept, keepModel_valid.
    + apply elem_of_kept, keepSchematic_valid.
    + apply elem_of_kept, keepLink_valid.
    + apply elem_of_kept, keepPart_valid.
Qed.

(** *** Failing loads *)

Ltac in_sources H :=
  unfold sources in H;
  repeat (apply elem_of_cons in H as [->|H]); [..|by apply elem_of_nil in H].

Lemma load_fetches localeCompare env :
  match fetchText env "models.csv", fetchText env "schematics.csv",
        fetchText env "schematic_parts.csv", fetchText env "parts.csv" with
  | inr t1, inr t2, inr t3, inr t4 =>
      exists db, load localeCompare env None = (inr db, Some db)
  | _, _, _, _ => exists e, load localeCompare env None = (inl e, None)
  end.
Proof.
  unfold load.
  destruct (fetchText env "models.csv"), (fetchText env "schematics.csv"),
    (fetchText env "schematic_parts.csv"), (fetchText env "parts.csv"); eauto.
Qed.

(** C8. A fetch that answers with a non-success status makes [fetchText]
    fail. When the fetch of any of the four sources fails, [load] fails, the
    failure reaches the caller of every accessor, and the cache stays absent;
    [load] succeeds, and installs the catalog it returns, exactly when all
    four fetches succeed. *)
Theorem load_failure_atomic localeCompare env :
  (forall p status body,
      env p = Net.Response status body -> Net.ok status = false ->
      fetchText env p = inl (HttpError status p))
  /\ ((exists p, p ∈ sources /\ exists e, fetchText env p = inl e)
      <-> exists e, load localeCompare env None = (inl e, None))
  /\ ((forall p, p ∈ sources -> exists t, fetchText env p = inr t)
      <-> exists db, load localeCompare env None = (inr db, Some db))
  /\ (forall e cache',
        load localeCompare env None = (inl e, cache') ->
        cache' = None
        /\ forall A (f : Catalog -> A),
             withDb localeCompare env None f = (inl e, None))
  /\ (forall db cache',
        load localeCompare env None = (inr db, cache') -> cache' = Some db).
Proof.
  split; [|split; [|split; [|split]]].
  - intros p status body Hp Hok. unfold fetchText. by rewrite Hp, Hok.
  - pose proof (load_fetches localeCompare env) as Hload.
    split.
    + intros (p & Hp & e & He). in_sources Hp; rewrite He in Hload;
        repeat (destruct (fetchText env _)); done.
    + intros [e He].
      destruct (fetchText env "models.csv") as [e1|t1] eqn:E1;
        [exists "models.csv"; split; [unfold sources; repeat constructor|eauto]|].
      destruct (fetchText env "schematics.csv") as [e2|t2] eqn:E2;
        [exists "schematics.csv"; split; [unfold sources; repeat constructor|eauto]|].
      destruct (fetchText env "schematic_parts.csv") as [e3|t3] eqn:E3;
        [exists "schematic_parts.csv"; split; [unfold sources; repeat constructor|eauto]|].
      destruct (fetchText env "parts.csv") as [e4|t4] eqn:E4;
        [exists "parts.csv"; split; [unfold sources; repeat constructor|eauto]|].
      destruct Hload as [db Hdb]. congruence.
  - pose proof (load_fetches localeCompare env) as Hload.
    split.
    + intros Hall.
      destruct (Hall "models.csv") as [t1 E1]; [unfold sources; repeat constructor|].
      destruct (Hall "schematics.csv") as [t2 E2]; [unfold sources; repeat constructor|].
      destruct (Hall "schematic_parts.csv") as [t3 E3]; [unfold sources; repeat constructor|].
      destruct (Hall "parts.csv") as [t4 E4]; [unfold sources; repeat constructor|].
      by rewrite E1, E2, E3, E4 in Hload.
    + intros [db (t1 & t2 & t3 & t4 & E1 & E2 & E3 & E4 & _)%load_build] p Hp.
      in_sources Hp; eauto.
  - intros e cache' He.
    assert (cache' = None) as ->.
    { revert He. unfold load.
      repeat (destruct (fetchText env _)); by intros [= <- <-]. }
    split; [done|]. intros A f. unfold withDb. by rewrite He.
  - by intros db cache' (_ & _ & _ & _ & _ & _ & _ & _ & _ & ->)%load_build.
Qed.

(** *** The links of a schematic *)

Lemma filter_Permutation {A} (f : A -> bool) (l l' : list A) :
  l ≡ₚ l' -> List.filter f l ≡ₚ List.filter f l'.
Proof.
  induction 1 as [|x l l' _ IH|x y l|l1 l2 l3 _ IH1 _ IH2]; simpl.
  - done.
  - destruct (f x); by rewrite IH.
  - destruct (f x), (f y); try done. apply perm_swap.
  - by rewrite IH1.
Qed.

Lemma lookup_sorted {A} (gt : A -> A -> bool) (ix : gmap string (list A)) k :
  default [] ((JsArray.sort gt <$> ix) !! k) = JsArray.sort gt (default [] (ix !! k)).
Proof. rewrite lookup_fmap. by destruct (ix !! k). Qed.

Section Links.

Variable localeCompare : string -> string -> Z.
Hypothesis collation : StrictCollation localeCompare.

Lemma compareLinks_asym a b :
  comesAfter (compareLinks localeCompare) a b = true ->
  comesAfter (compareLinks localeCompare) b a = false.
Proof.
  destruct collation as (_ & Hanti & _).
  unfold comesAfter, compareLinks. rewrite Z.ltb_lt, Z.ltb_ge.
  pose proof (Hanti (Link.partId a) (Link.partId b)).
  pose proof (Hanti (Link.partId b) (Link.partId a)).
  repeat case_match; lia.
Qed.

Lemma compareLinks_trans a b c :
  SortFacts.before (comesAfter (compareLinks localeCompare)) a b ->
  SortFacts.before (comesAfter (compareLinks localeCompare)) b c ->
  SortFacts.before (comesAfter (compareLinks localeCompare)) a c.
Proof.
  destruct collation as (_ & _ & Htrans).
  unfold SortFacts.before, comesAfter, compareLinks. rewrite !Z.ltb_ge.
  pose proof (Htrans (Link.partId a) (Link.partId b) (Link.partId c)).
  repeat case_match; lia.
Qed.

Lemma compareLinks_antisym a b :
  Link.schematicId a = Link.schematicId b ->
  SortFacts.before (comesAfter (compareLinks localeCompare)) a b ->
  SortFacts.before (comesAfter (compareLinks localeCompare)) b a ->
  a = b.
Proof.
  destruct collation as (Heq & Hanti & _).
  unfold SortFacts.before, comesAfter, compareLinks. rewrite !Z.ltb_ge.
  intros Hsid.
  pose proof (Hanti (Link.partId a) (Link.partId b)).
  pose proof (Hanti (Link.partId b) (Link.partId a)).
  pose proof (Heq (Link.partId a) (Link.partId b)).
  repeat case_match; try lia. intros Hab Hba.
  destruct a, b; simpl in *. f_equal; first [done | lia | apply Heq; lia].
Qed.

Lemma compareLinks_ascending db a b :
  SortFacts.before (comesAfter (compareLinks localeCompare)) a b ->
  ascending localeCompare (joinLink db a) (joinLink db b).
Proof.
  unfold SortFacts.before, comesAfter, compareLinks, ascending. rewrite Z.ltb_ge.
  cbn [joinLink jorder jdiagramNo jpartId].
  repeat case_match; lia.
Qed.

(** The list that [linkBySchematic] holds for a schematic: its links, sorted. *)
Lemma linkBySchematic_lookup mr sr lr pr sid :
  default [] (linkBySchematic (build localeCompare mr sr lr pr) !! sid)
  = JsArray.sort (comesAfter (compareLinks localeCompare))
      (List.filter (fun l => String.eqb (Link.schematicId l) sid)
         (List.filter keepLink (map mkLink lr))).
Proof.
  unfold build; cbn [linkBySchematic]. rewrite lookup_sorted. f_equal.
  unfold indexLink. rewrite (IndexFacts.lookup_group Link.schematicId).
  by rewrite lookup_empty.
Qed.

End Links.

(** The keys of the links of a schematic, read off the raw rows. *)
Lemma linkKeys_of_rows sid lr :
  map linkKey (List.filter (fun l => String.eqb (Link.schematicId l) sid)
                 (List.filter keepLink (map mkLink lr)))
  = omap (linkRowKey sid) lr.
Proof.
  induction lr as [|r lr IH]; [done|].
  change (omap (linkRowKey sid) (r :: lr))
    with (match linkRowKey sid r with
          | Some k => k :: omap (linkRowKey sid) lr
          | None => omap (linkRowKey sid) lr
          end).
  rewrite <- IH. cbn [map List.filter]. unfold linkRowKey, keepLink at 1.
  cbn [mkLink Link.schematicId Link.partId]. unfold field.
  destruct (Js.truthy (Js.trim (Js.orEmpty (r !! "schematicid")))),
           (Js.truthy (Js.trim (Js.orEmpty (r !! "partid"))));
    rewrite ?andb_false_r, ?andb_true_r; cbn [andb List.filter]; try done.
  cbn [Link.schematicId].
  by destruct (String.eqb _ sid).
Qed.


(** *** The exact resolver of the CSV store *)

Definition modelNumberKeys (m : Model.t) : list string :=
  if Js.truthy (Model.modelNumber m) then [norm (Model.modelNumber m)] else [].

Definition partIdKeys (p : Part.t) : list string :=
  if Js.truthy (Part.id p) then [Part.id p] else [].

Definition partIdLowerKeys (p : Part.t) : list string :=
  if Js.truthy (Part.id p) then [norm (Part.id p)] else [].

Definition partNumberKeys (p : Part.t) : list string :=
  if Js.truthy (Part.number p) then [norm (Part.number p)] else [].

Lemma foldl_indexModel_snd ms ix :
  (foldl indexModel ix ms).2 = foldl (IndexFacts.insertAll modelNumberKeys) ix.2 ms.
Proof.
  revert ix. induction ms as [|m ms IH]; intros ix; simpl; [done|].
  rewrite IH. f_equal.
  unfold indexModel, IndexFacts.insertAll, modelNumberKeys.
  by destruct (Js.truthy (Model.modelNumber m)).
Qed.

Lemma foldl_indexPart ps ix :
  foldl indexPart ix ps
  = (foldl (IndexFacts.insertAll partIdKeys) ix.1.1 ps,
     foldl (IndexFacts.insertAll partIdLowerKeys) ix.1.2 ps,
     foldl (IndexFacts.insertAll partNumberKeys) ix.2 ps).
Proof.
  revert ix. induction ps as [|p ps IH]; intros [[a b] c]; simpl; [done|].
  rewrite IH. unfold indexPart, IndexFacts.insertAll,
    partIdKeys, partIdLowerKeys, partNumberKeys.
  by destruct (Js.truthy (Part.id p)), (Js.truthy (Part.number p)).
Qed.

Lemma modelNumberKeys_matches m q :
  norm q ∈ modelNumberKeys m <-> csvModelMatches m q.
Proof. apply IndexFacts.elem_of_key_if. Qed.

Lemma partIdKeys_matches p q : q ∈ partIdKeys p -> csvPartMatches p q.
Proof. intros [Hp <-]%IndexFacts.elem_of_key_if. by left. Qed.

Lemma partIdLowerKeys_matches p q :
  norm q ∈ partIdLowerKeys p <->
  Part.id p <> "" /\ norm (Part.id p) = norm q.
Proof. apply IndexFacts.elem_of_key_if. Qed.

Lemma partNumberKeys_matches p q :
  norm q ∈ partNumberKeys p <->
  Part.number p <> "" /\ norm (Part.number p) = norm q.
Proof. apply IndexFacts.elem_of_key_if. Qed.

Section Resolve.

Variable localeCompare : string -> string -> Z.
Variables modelsRows schemsRows linksRows partsRows : list Row.

Let db : Catalog := build localeCompare modelsRows schemsRows linksRows partsRows.

Lemma resolveExact_model q m :
  m ∈ models db -> csvModelMatches m q ->
  exists m', m' ∈ models db /\ csvModelMatches m' q /\ resolveExact db q = ModelMatch m'.
Proof.
  intros Hm Hq%modelNumberKeys_matches.
  unfold resolveExact, db, build in *; cbn [modelsByNumber models] in *.
  rewrite foldl_indexModel_snd; cbn [snd].
  destruct (IndexFacts.lookup_index_hit modelNumberKeys _ ∅ _ _ Hm Hq)
    as (m' & Hm' & Hk & ->).
  exists m'. by rewrite <- modelNumberKeys_matches.
Qed.

Lemma resolveExact_part q p :
  (forall m, m ∈ models db -> ~ csvModelMatches m q) ->
  p ∈ parts db -> csvPartMatches p q ->
  exists p', p' ∈ parts db /\ csvPartMatches p' q /\ resolveExact db q = PartMatch p'.
Proof.
  intros Hnone Hp Hq.
  unfold resolveExact, db, build in *;
    cbn [modelsByNumber models partsById partsByIdLower partsByNumber parts] in *.
  rewrite foldl_indexModel_snd; cbn [snd].
  rewrite IndexFacts.lookup_index_miss.
  2: { intros m Hm Hk. by apply (Hnone m Hm), modelNumberKeys_matches. }
  rewrite lookup_empty, foldl_indexPart; cbn [fst snd].
  set (ps := List.filter keepPart (map mkPart partsRows)) in *.
  destruct (foldl (IndexFacts.insertAll partIdKeys) ∅ ps !! q) as [p1|] eqn:E1.
  { apply IndexFacts.lookup_index_Some in E1 as [[H1 H2]|H]; [|by rewrite lookup_empty in H].
    exists p1. cbn [orLookup]. eauto using partIdKeys_matches. }
  destruct (foldl (IndexFacts.insertAll partIdLowerKeys) ∅ ps !! norm q) as [p2|] eqn:E2.
  { apply IndexFacts.lookup_index_Some in E2 as [[H1 H2]|H]; [|by rewrite lookup_empty in H].
    exists p2. cbn [orLookup]. split; [done|]. split; [|done].
    left. by apply partIdLowerKeys_matches. }
  destruct (foldl (IndexFacts.insertAll partNumberKeys) ∅ ps !! norm q) as [p3|] eqn:E3.
  { apply IndexFacts.lookup_index_Some in E3 as [[H1 H2]|H]; [|by rewrite lookup_empty in H].
    exists p3. cbn [orLookup]. split; [done|]. split; [|done].
    right. by apply partNumberKeys_matches. }
  exfalso. destruct Hq as [Hq|Hq].
  - apply partIdLowerKeys_matches in Hq.
    destruct (IndexFacts.lookup_index_hit partIdLowerKeys _ ∅ _ _ Hp Hq) as (? & _ & _ & H).
    congruence.
  - apply partNumberKeys_matches in Hq.
    destruct (IndexFacts.lookup_index_hit partNumberKeys _ ∅ _ _ Hp Hq) as (? & _ & _ & H).
    congruence.
Qed.

End Resolve.

Lemma load_cached localeCompare env db cache :
  (load localeCompare env None).1 = inr db ->
  cache = None \/ cache = Some db ->
  load localeCompare env cache = (inr db, Some db).
Proof.
  intros Hload [->| ->]; [|done].
  destruct (load localeCompare env None) as [r c] eqn:E. simpl in Hload. subst r.
  by apply load_build in E as (_ & _ & _ & _ & _ & _ & _ & _ & _ & ->).
Qed.

End CsvFacts.

(** ** The fuzzy engine: its exact hits *)

Module FuzzyFacts.

Import Fuzzy Spec.

Definition modelKeys (m : Model.t) : list string :=
  if Js.truthy (Model.modelNumber m) then
    key (Model.modelNumber m)
    :: match Model.id m with
       | Some (String _ _ as i) => [key i]
       | _ => []
       end
  else [].

Definition schematicKeys (s : Schematic.t) : list string :=
  if Js.truthy (Schematic.id s) then [key (Schematic.id s)] else [].

Definition partIdKeys (p : Part.t) : list string :=
  if Js.truthy (Part.id p) then [key (Part.id p)] else [].

Definition partNumberKeys (p : Part.t) : list string :=
  if Js.truthy (Part.number p) then [key (Part.number p)] else [].

Lemma foldl_fun_ext {A B} (f g : A -> B -> A) (l : list B) (a : A) :
  (forall a x, f a x = g a x) -> foldl f a l = foldl g a l.
Proof.
  intros Hfg. revert a. induction l as [|x l IH]; intros a; simpl; [done|].
  by rewrite Hfg, IH.
Qed.

Lemma indexModel_keys ix m : indexModel ix m = IndexFacts.insertAll modelKeys ix m.
Proof.
  unfold indexModel, IndexFacts.insertAll, modelKeys.
  destruct (Js.truthy (Model.modelNumber m)); [|done].
  by destruct (Model.id m) as [[|c i]|].
Qed.

Lemma indexPartId_keys ix p : indexPartId ix p = IndexFacts.insertAll partIdKeys ix p.
Proof.
  unfold indexPartId, IndexFacts.insertAll, partIdKeys.
  by destruct (Js.truthy (Part.id p)).
Qed.

Lemma indexPartNumber_keys ix p :
  indexPartNumber ix p = IndexFacts.insertAll partNumberKeys ix p.
Proof.
  unfold indexPartNumber, IndexFacts.insertAll, partNumberKeys.
  by destruct (Js.truthy (Part.number p)).
Qed.

Lemma modelKeys_matches m q : key q ∈ modelKeys m <-> fuzzyModelMatches m q.
Proof.
  unfold modelKeys, fuzzyModelMatches.
  destruct (Js.truthy (Model.modelNumber m)) eqn:E.
  - apply JsFacts.truthy_true in E. rewrite elem_of_cons. split.
    + intros [Hk|Hk]; (split; [done|]); [by left|right].
      destruct (Model.id m) as [[|c i]|]; try (by apply elem_of_nil in Hk).
      apply list_elem_of_singleton in Hk. by exists (String c i).
    + intros [_ [Hk|(i & Hi & Hne & Hk)]]; [by left|right].
      rewrite Hi. destruct i; [done|]. by apply list_elem_of_singleton.
  - apply JsFacts.truthy_false in E. rewrite elem_of_nil. split; [done|].
    by intros [? _].
Qed.

Lemma partKeys_matches p q :
  fuzzyPartMatches p q <-> key q ∈ partNumberKeys p \/ key q ∈ partIdKeys p.
Proof.
  unfold fuzzyPartMatches, partNumberKeys, partIdKeys.
  by rewrite !IndexFacts.elem_of_key_if.
Qed.

Lemma init_build env db :
  init env = Some db ->
  exists modelsTxt schemTxt partsTxt,
    db = build (parseCSV modelsTxt) (parseCSV schemTxt) (parseCSV partsTxt).
Proof.
  unfold init.
  destruct (fetchBody env "/models.csv") as [t1|]; [|done].
  destruct (fetchBody env "/schematics.csv") as [t2|]; [|done].
  destruct (fetchBody env "/parts.csv") as [t3|]; [|done].
  intros [= <-]. eauto.
Qed.

Section Resolve.

Variables modelRows schemRows partRows : list Row.

Let db : DB := build modelRows schemRows partRows.

Lemma fuzzy_resolveExact_model q m :
  m ∈ models db -> fuzzyModelMatches m q ->
  exists m', m' ∈ models db /\ fuzzyModelMatches m' q
             /\ resolveExact db (key q) = ModelMatch m'.
Proof.
  intros Hm Hq%modelKeys_matches.
  unfold resolveExact, db, build in *; cbn [ix modelByKey models] in *.
  rewrite (foldl_fun_ext _ _ _ _ indexModel_keys).
  destruct (IndexFacts.lookup_index_hit modelKeys _ ∅ _ _ Hm Hq)
    as (m' & Hm' & Hk & ->).
  exists m'. by rewrite <- modelKeys_matches.
Qed.

Lemma fuzzy_resolveExact_part q p :
  (forall m, m ∈ models db -> ~ fuzzyModelMatches m q) ->
  p ∈ parts db -> fuzzyPartMatches p q ->
  exists p', p' ∈ parts db /\ fuzzyPartMatches p' q
             /\ resolveExact db (key q) = PartMatch p'.
Proof.
  intros Hnone Hp Hq.
  unfold resolveExact, db, build in *;
    cbn [ix modelByKey partByIdKey partByNumberKey models parts] in *.
  rewrite (foldl_fun_ext _ _ _ _ indexModel_keys),
    (foldl_fun_ext _ _ _ _ indexPartId_keys),
    (foldl_fun_ext _ _ _ _ indexPartNumber_keys).
  rewrite IndexFacts.lookup_index_miss.
  2: { intros m Hm Hk. by apply (Hnone m Hm), modelKeys_matches. }
  rewrite lookup_empty.
  set (ps := map mkPart partRows) in *.
  destruct (foldl (IndexFacts.insertAll partNumberKeys) ∅ ps !! key q) as [p1|] eqn:E1.
  { apply IndexFacts.lookup_index_Some in E1 as [[H1 H2]|H]; [|by rewrite lookup_empty in H].
    exists p1. split; [done|]. split; [|done]. apply partKeys_matches. by left. }
  destruct (foldl (IndexFacts.insertAll partIdKeys) ∅ ps !! key q) as [p2|] eqn:E2.
  { apply IndexFacts.lookup_index_Some in E2 as [[H1 H2]|H]; [|by rewrite lookup_empty in H].
    exists p2. split; [done|]. split; [|done]. apply partKeys_matches. by right. }
  exfalso. apply partKeys_matches in Hq as [Hq|Hq].
  - destruct (IndexFacts.lookup_index_hit partNumberKeys _ ∅ _ _ Hp Hq) as (? & _ & _ & H).
    congruence.
  - destruct (IndexFacts.lookup_index_hit partIdKeys _ ∅ _ _ Hp Hq) as (? & _ & _ & H).
    congruence.
Qed.

End Resolve.

End FuzzyFacts.

(** ** The claims on both engines *)

(** C6, on source files in which one row of each kind breaks its rule: the
    catalog that [load] installs keeps the rules, and only the valid row of
    each file is in it. *)
Lemma load_discards_invalid_rows_witness :
  let db := CsvDb.build Fixtures.byteCompare
              (CsvDb.parseCSV Fixtures.messyModels) (CsvDb.parseCSV Fixtures.messySchematics)
              (CsvDb.parseCSV Fixtures.messyLinks) (CsvDb.parseCSV Fixtures.messyParts) in
  CsvDb.load Fixtures.byteCompare Fixtures.messyCatalog None = (inr db, Some db)
  /\ Spec.WellFormed db
  /\ map CsvDb.Model.id (CsvDb.models db) = ["M1"]
  /\ map CsvDb.Schematic.id (CsvDb.schematics db) = ["S1"]
  /\ map Spec.linkKey (CsvDb.schematicParts db) = [(1, 1, "P1")]
  /\ map CsvDb.Part.id (CsvDb.parts db) = ["P1"].
Proof.
  intros db. split; [reflexivity|]. split; [|by vm_compute].
  apply (CsvFacts.load_discards_invalid_rows
           Fixtures.byteCompare Fixtures.messyCatalog db (Some db)).
  reflexivity.
Defined.



(** The three links come out in the same ascending order from both inputs. *)
Lemma listPartsForSchematic_three_links :
  let db := CsvDb.build Fixtures.byteCompare [] [] Fixtures.threeLinks [] in
  let db' := CsvDb.build Fixtures.byteCompare [] [] Fixtures.threeLinksShuffled [] in
  map Spec.joinedKey
    (map (CsvDb.joinLink db) (default [] (CsvDb.linkBySchematic db !! "S1")))
  = [(1, 1, "P-A"); (1, 2, "P-B"); (2, 3, "P-C")]
  /\ map Spec.linkKey (default [] (CsvDb.linkBySchematic db' !! "S1"))
     = [(1, 1, "P-A"); (1, 2, "P-B"); (2, 3, "P-C")].
Proof. by vm_compute. Qed.

(** C10, where the claim fails: in the fuzzy engine [runSearch] awaits
    [DB.init()] before it looks at the query, so with a catalog that could
    not be fetched an empty query ends in the rejection of that promise. *)
Lemma fuzzy_empty_query_rejects_offline :
  Fuzzy.init Fixtures.offline = None
  /\ Fuzzy.runSearch Fixtures.offline (Some "") = None
  /\ Fuzzy.runSearch Fixtures.offline None = None.
Proof. repeat split. Qed.

(** C10, amended. For a query that is absent, empty or white space only:
    the CSV store's [runSearch] returns at once with no effect, without
    loading or reading the catalog; the fuzzy engine's [runSearch], once
    [DB.init()] has succeeded, only shows a toast, with no lookup and no
    navigation, and it rejects when [DB.init()] has failed. *)
Theorem empty_query_is_no_lookup (query : option string) :
  Js.trim (Js.orEmpty query) = "" ->
  (forall localeCompare env cache,
      CsvDb.runSearch localeCompare env cache query = ([], cache))
  /\ (forall env,
        Fuzzy.runSearch env query
        = match Fuzzy.init env with
          | Some _ => Some [Fuzzy.ShowToast "Enter a model or part number."]
          | None => None
          end).
Proof.
  intros Hq. split.
  - intros localeCompare env cache. unfold CsvDb.runSearch. by rewrite Hq.
  - intros env. unfold Fuzzy.runSearch. rewrite Hq. by destruct (Fuzzy.init env).
Qed.

(** C10, on a query of three spaces. *)
Lemma empty_query_is_no_lookup_witness :
  (forall localeCompare env cache,
      CsvDb.runSearch localeCompare env cache (Some "   ") = ([], cache))
  /\ (forall env,
        Fuzzy.runSearch env (Some "   ")
        = match Fuzzy.init env with
          | Some _ => Some [Fuzzy.ShowToast "Enter a model or part number."]
          | None => None
          end).
Proof. apply (empty_query_is_no_lookup (Some "   ")). reflexivity. Defined.

(** C1, where the claim fails: the CSV store looks a model up by its model
    number only. With a model whose id is "M1" and a part whose id is "M1",
    the query "M1" resolves to the part and navigates to the product page. *)
Lemma csv_model_id_is_no_alias :
  let r := CsvDb.runSearch Fixtures.byteCompare Fixtures.sharedIdCatalog None (Some "M1") in
  exists db m p,
    r.2 = Some db
    /\ m ∈ CsvDb.models db /\ CsvDb.Model.id m = "M1"
    /\ p ∈ CsvDb.parts db /\ CsvDb.Part.id p = "M1"
    /\ CsvDb.resolveExact db "M1" = CsvDb.PartMatch p
    /\ r.1 = [CsvDb.SetLocation "product.html?id=M1"].
Proof.
  eexists _, _, _. split; [reflexivity|].
  split; [apply list_elem_of_here|]. split; [reflexivity|].
  split; [apply list_elem_of_here|]. split; [reflexivity|].
  split; by vm_compute.
Qed.

(** The same files and query in the fuzzy engine, where the id of a model
    that has a model number is an alias: the model wins. *)
Lemma fuzzy_model_id_is_alias :
  Fuzzy.runSearch Fixtures.sharedIdCatalog (Some "M1")
  = Some [Fuzzy.Go "model.html?id=ACM-100"].
Proof. by vm_compute. Qed.

(** Both engines on the same files: a model number, a part number and a
    schematic name, each in another spelling. *)
Lemma exact_resolution_examples :
  (CsvDb.runSearch Fixtures.byteCompare Fixtures.sharedIdCatalog None (Some " acm-100 ")).1
  = [CsvDb.SetLocation "model.html?id=ACM-100"]
  /\ (CsvDb.runSearch Fixtures.byteCompare Fixtures.sharedIdCatalog None (Some "pn-1")).1
     = [CsvDb.SetLocation "product.html?id=M1"]
  /\ (CsvDb.runSearch Fixtures.byteCompare Fixtures.sharedIdCatalog None (Some "DOOR")).1
     = [CsvDb.SetLocation "schematic.html?id=M1"]
  /\ Fuzzy.runSearch Fixtures.sharedIdCatalog (Some "acm 100")
     = Some [Fuzzy.Go "model.html?id=ACM-100"]
  /\ Fuzzy.runSearch Fixtures.sharedIdCatalog (Some "pn_1")
     = Some [Fuzzy.Go "parts.html?id=PN-1"].
Proof. repeat split; by vm_compute. Qed.

(** C1, amended. Exact resolution is Model > Part > Schematic in both
    engines. In the fuzzy engine a query that matches a model by its model
    number, or by the id of a model that has a model number, resolves to a
    model that matches and navigates to its page, whatever parts and
    schematics match too; a query that matches no model and matches a part by
    number or id resolves to a part that matches. In the CSV store the same
    holds with a model matched by its model number only. *)
Theorem exact_resolution_precedence :
  (forall env db raw m,
      Fuzzy.init env = Some db -> Js.trim raw <> "" ->
      m ∈ Fuzzy.models db -> Spec.fuzzyModelMatches m (Js.trim raw) ->
      exists m',
        m' ∈ Fuzzy.models db /\ Spec.fuzzyModelMatches m' (Js.trim raw)
        /\ Fuzzy.resolveExact db (Fuzzy.key (Js.trim raw)) = Fuzzy.ModelMatch m'
        /\ Fuzzy.runSearch env (Some raw)
           = Some [Fuzzy.Go ("model.html?id="
                             ++ Js.encodeURIComponent (Fuzzy.Model.modelNumber m'))])
  /\ (forall env db raw p,
        Fuzzy.init env = Some db -> Js.trim raw <> "" ->
        (forall m, m ∈ Fuzzy.models db -> ~ Spec.fuzzyModelMatches m (Js.trim raw)) ->
        p ∈ Fuzzy.parts db -> Spec.fuzzyPartMatches p (Js.trim raw) ->
        exists p',
          p' ∈ Fuzzy.parts db /\ Spec.fuzzyPartMatches p' (Js.trim raw)
          /\ Fuzzy.resolveExact db (Fuzzy.key (Js.trim raw)) = Fuzzy.PartMatch p'
          /\ Fuzzy.runSearch env (Some raw)
             = Some [Fuzzy.Go ("parts.html?id="
                               ++ Js.encodeURIComponent
                                    (Fuzzy.orStr (Fuzzy.Part.number p') (Fuzzy.Part.id p')))])
  /\ (forall localeCompare env db cache raw m,
        (CsvDb.load localeCompare env None).1 = inr db ->
        cache = None \/ cache = Some db ->
        Js.trim raw <> "" ->
        m ∈ CsvDb.models db -> Spec.csvModelMatches m (Js.trim raw) ->
        exists m',
          m' ∈ CsvDb.models db /\ Spec.csvModelMatches m' (Js.trim raw)
          /\ CsvDb.resolveExact db (Js.trim raw) = CsvDb.ModelMatch m'
          /\ CsvDb.runSearch localeCompare env cache (Some raw)
             = ([CsvDb.SetLocation ("model.html?id="
                                    ++ Js.encodeURIComponent (CsvDb.Model.modelNumber m'))],
                Some db))
  /\ (forall localeCompare env db cache raw p,
        (CsvDb.load localeCompare env None).1 = inr db ->
        cache = None \/ cache = Some db ->
        Js.trim raw <> "" ->
        (forall m, m ∈ CsvDb.models db -> ~ Spec.csvModelMatches m (Js.trim raw)) ->
        p ∈ CsvDb.parts db -> Spec.csvPartMatches p (Js.trim raw) ->
        exists p',
          p' ∈ CsvDb.parts db /\ Spec.csvPartMatches p' (Js.trim raw)
          /\ CsvDb.resolveExact db (Js.trim raw) = CsvDb.PartMatch p'
          /\ CsvDb.runSearch localeCompare env cache (Some raw)
             = ([CsvDb.SetLocation ("product.html?id="
                                    ++ Js.encodeURIComponent (CsvDb.Part.id p'))],
                Some db)).
Proof.
  split; [|split; [|split]].
  - intros env db raw m Hinit Hraw%JsFacts.truthy_true Hm Hq.
    destruct (FuzzyFacts.init_build _ _ Hinit) as (t1 & t2 & t3 & ->).
    destruct (FuzzyFacts.fuzzy_resolveExact_model _ _ _ _ _ Hm Hq)
      as (m' & Hm' & Hq' & Hres).
    exists m'. do 3 (split; [done|]).
    unfold Fuzzy.runSearch. rewrite Hinit. cbn [Js.orEmpty]. rewrite Hraw, Hres.
    cbn [negb]. destruct Hq' as [Hmn _].
    by destruct (Fuzzy.Model.modelNumber m').
  - intros env db raw p Hinit Hraw%JsFacts.truthy_true Hnone Hp Hq.
    destruct (FuzzyFacts.init_build _ _ Hinit) as (t1 & t2 & t3 & ->).
    destruct (FuzzyFacts.fuzzy_resolveExact_part _ _ _ _ _ Hnone Hp Hq)
      as (p' & Hp' & Hq' & Hres).
    exists p'. do 3 (split; [done|]).
    unfold Fuzzy.runSearch. rewrite Hinit. cbn [Js.orEmpty]. by rewrite Hraw, Hres.
  - intros localeCompare env db cache raw m Hload Hcache Hraw%JsFacts.truthy_true Hm Hq.
    pose proof (CsvFacts.load_cached _ _ _ _ Hload Hcache) as Hcached.
    pose proof (CsvFacts.load_cached _ _ _ None Hload (or_introl eq_refl)) as Hfirst.
    apply CsvFacts.load_build in Hfirst as (t1 & t2 & t3 & t4 & _ & _ & _ & _ & Hdb & _).
    rewrite Hdb in Hm.
    destruct (CsvFacts.resolveExact_model _ _ _ _ _ _ _ Hm Hq)
      as (m' & Hm' & Hq' & Hres).
    rewrite <- Hdb in Hm', Hres.
    exists m'. do 3 (split; [done|]).
    unfold CsvDb.runSearch. cbn [Js.orEmpty]. rewrite Hraw, Hcached, Hres.
    cbn [negb]. destruct Hq' as [Hmn%JsFacts.truthy_true _]. by rewrite Hmn.
  - intros localeCompare env db cache raw p Hload Hcache Hraw%JsFacts.truthy_true
      Hnone Hp Hq.
    pose proof (CsvFacts.load_cached _ _ _ _ Hload Hcache) as Hcached.
    pose proof (CsvFacts.load_cached _ _ _ None Hload (or_introl eq_refl)) as Hfirst.
    apply CsvFacts.load_build in Hfirst as (t1 & t2 & t3 & t4 & _ & _ & _ & _ & Hdb & _).
    rewrite Hdb in Hp, Hnone.
    destruct (CsvFacts.resolveExact_part _ _ _ _ _ _ _ Hnone Hp Hq)
      as (p' & Hp' & Hq' & Hres).
    rewrite <- Hdb in Hp', Hres.
    exists p'. do 3 (split; [done|]).
    unfold CsvDb.runSearch. cbn [Js.orEmpty]. by rewrite Hraw, Hcached, Hres.
Qed.

(** * Further properties of the code *)

(** ** Strings and keys *)

Module StringFacts.

Import Js.

Lemma upperChar_lowerChar c : upperChar (lowerChar c) = upperChar c.
Proof. JsFacts.each_char c. Qed.

Lemma lowerChar_upperChar c : lowerChar (upperChar c) = lowerChar c.
Proof. JsFacts.each_char c. Qed.

Lemma isWhiteSpace_upperChar c : isWhiteSpace (upperChar c) = isWhiteSpace c.
Proof. JsFacts.each_char c. Qed.

Lemma isLower_upperChar c : isLower (upperChar c) = false.
Proof. JsFacts.each_char c. Qed.

Lemma mapChars_mapChars f g s :
  (forall c, f (g c) = f c) -> mapChars f (mapChars g s) = mapChars f s.
Proof. intros H. induction s as [|c s IH]; simpl; [done|]. by rewrite H, IH. Qed.

Lemma app_cons c (a b : string) : String c a ++ b = String c (a ++ b).
Proof. reflexivity. Qed.

Lemma app_empty_l (a : string) : "" ++ a = a.
Proof. reflexivity. Qed.

Lemma mapChars_app f a b : mapChars f (a ++ b) = mapChars f a ++ mapChars f b.
Proof.
  induction a as [|c a IH]; [done|]. rewrite app_cons. simpl. by rewrite IH.
Qed.

Lemma filterChars_app p a b :
  filterChars p (a ++ b) = filterChars p a ++ filterChars p b.
Proof.
  induction a as [|c a IH]; [done|]. rewrite app_cons. simpl.
  destruct (p c); by rewrite IH.
Qed.

Lemma filterChars_empty p s :
  filterChars p s = "" <-> allChars (fun c => negb (p c)) s = true.
Proof.
  induction s as [|c s IH]; simpl; [done|].
  destruct (p c); simpl; [by split|done].
Qed.

Lemma allChars_mapChars p f s : allChars p (mapChars f s) = allChars (fun c => p (f c)) s.
Proof. induction s as [|c s IH]; simpl; [done|]. by rewrite IH. Qed.

Lemma allChars_ext (p q : ascii -> bool) s :
  (forall c, p c = q c) -> allChars p s = allChars q s.
Proof. intros H. induction s as [|c s IH]; simpl; [done|]. by rewrite H, IH. Qed.

Lemma allChars_filterChars_both p q s :
  (forall c, q c = true -> p c = true) ->
  allChars p (filterChars q s) = true.
Proof.
  intros H. induction s as [|c s IH]; simpl; [done|].
  destruct (q c) eqn:E; simpl; [by rewrite (H _ E)|done].
Qed.

Lemma length_mapChars f s : String.length (mapChars f s) = String.length s.
Proof. induction s; simpl; congruence. Qed.

Lemma length_filterChars p s : (String.length (filterChars p s) <= String.length s)%nat.
Proof. induction s as [|c s IH]; simpl; [done|]. destruct (p c); simpl; lia. Qed.

Lemma app_empty_r (s : string) : s ++ "" = s.
Proof. induction s as [|c s IH]; [done|]. by rewrite app_cons, IH. Qed.

Lemma app_assoc (a b c : string) : (a ++ b) ++ c = a ++ b ++ c.
Proof. induction a as [|x a IH]; [done|]. by rewrite !app_cons, IH. Qed.

(** White space around a text. *)
Lemma trimStart_space_app u s :
  allChars isWhiteSpace u = true -> trimStart (u ++ s) = trimStart s.
Proof.
  induction u as [|c u IH]; [done|]. rewrite app_cons. simpl.
  intros [Hc Hu]%andb_prop. rewrite Hc. by apply IH.
Qed.

Lemma trimEnd_space v : allChars isWhiteSpace v = true -> trimEnd v = "".
Proof.
  induction v as [|c v IH]; simpl; [done|].
  intros [Hc Hv]%andb_prop. by rewrite (IH Hv), Hc.
Qed.

Lemma trimEnd_app_space s v :
  allChars isWhiteSpace v = true -> trimEnd (s ++ v) = trimEnd s.
Proof.
  intros Hv. induction s as [|c s IH]; [by apply trimEnd_space|].
  rewrite app_cons. simpl. by rewrite IH.
Qed.

Lemma trim_app_space s v :
  allChars isWhiteSpace v = true -> trim (s ++ v) = trim s.
Proof.
  intros Hv. unfold trim. induction s as [|c s IH].
  - rewrite app_empty_l. rewrite <- (app_empty_r v) at 1.
    by rewrite trimStart_space_app.
  - rewrite app_cons. simpl. destruct (isWhiteSpace c); [done|].
    by apply (trimEnd_app_space (String c s)).
Qed.

Lemma trim_around u s v :
  allChars isWhiteSpace u = true -> allChars isWhiteSpace v = true ->
  trim (u ++ s ++ v) = trim s.
Proof.
  intros Hu Hv. rewrite <- (trim_app_space s v Hv).
  unfold trim. by rewrite trimStart_space_app.
Qed.

Lemma trimEnd_empty s : trimEnd s = "" -> allChars isWhiteSpace s = true.
Proof.
  induction s as [|c s IH]; simpl; [done|].
  destruct (trimEnd s); [|done]. destruct (isWhiteSpace c); [|done].
  intros _. by apply IH.
Qed.

Lemma trim_empty s : trim s = "" <-> allChars isWhiteSpace s = true.
Proof.
  split.
  - unfold trim. intros H%trimEnd_empty.
    induction s as [|c s IH]; simpl in *; [done|].
    destruct (isWhiteSpace c) eqn:E; [by apply IH|].
    simpl in H. by rewrite E in H.
  - intros H. unfold trim.
    rewrite <- (app_empty_r s), trimStart_space_app by done. done.
Qed.

Lemma mapChars_empty f s : mapChars f s = "" <-> s = "".
Proof. by destruct s. Qed.

End StringFacts.

(** X1. On ASCII text the key of the fuzzy engine ignores the case of
    letters and every separator (white space, hyphen, underscore) wherever it
    stands: a text in lower or upper case has the key of the text; the key of
    a concatenation is the concatenation of the keys; separators put between
    two texts do not change the key. *)
Theorem key_ignores_case_and_separators (s a b sep : string) :
  Text.asciiText s -> Text.asciiText a -> Text.asciiText b ->
  Fuzzy.key (Js.toLowerCase s) = Fuzzy.key s
  /\ Fuzzy.key (Js.toUpperCase s) = Fuzzy.key s
  /\ Fuzzy.key (a ++ b) = Fuzzy.key a ++ Fuzzy.key b
  /\ (Js.allChars Fuzzy.isSeparator sep = true ->
      Fuzzy.key (a ++ sep ++ b) = Fuzzy.key (a ++ b)).
Proof.
  intros _ _ _. rewrite !key_unfold. unfold Js.toUpperCase, Js.toLowerCase.
  split; [|split; [|split]].
  - by rewrite StringFacts.mapChars_mapChars by apply StringFacts.upperChar_lowerChar.
  - by rewrite JsFacts.mapChars_idem by apply JsFacts.upperChar_idem.
  - by rewrite StringFacts.mapChars_app, StringFacts.filterChars_app.
  - intros Hsep.
    rewrite !StringFacts.mapChars_app, !StringFacts.filterChars_app.
    replace (Js.filterChars _ (Js.mapChars Js.upperChar sep)) with "" ; [done|].
    symmetry. apply StringFacts.filterChars_empty.
    rewrite StringFacts.allChars_mapChars. rewrite <- Hsep.
    apply StringFacts.allChars_ext. intros c.
    by rewrite negb_involutive, isSeparator_upperChar.
Qed.

(** X1, on a part number written in two ways. *)
Lemma key_ignores_case_and_separators_witness :
  Fuzzy.key "pn-12 a" = "PN12A"
  /\ Fuzzy.key (Js.toLowerCase "Pn_12-A") = Fuzzy.key "Pn_12-A"
  /\ Fuzzy.key ("pn" ++ " - " ++ "12a") = Fuzzy.key ("pn" ++ "12a").
Proof.
  split; [reflexivity|].
  destruct (key_ignores_case_and_separators "Pn_12-A" "pn" "12a" " - ")
    as (Hlower & _ & _ & Hsep); [reflexivity..|].
  split; [exact Hlower|]. apply Hsep. reflexivity.
Defined.

(** X2. The key of an ASCII text holds no separator and no lower-case
    letter; it is no longer than the text; and it is empty exactly when the
    text is made of separators only. *)
Theorem key_canonical (s : string) :
  Text.asciiText s ->
  Js.allChars (fun c => negb (Fuzzy.isSeparator c) && negb (Js.isLower c)) (Fuzzy.key s) = true
  /\ (String.length (Fuzzy.key s) <= String.length s)%nat
  /\ (Fuzzy.key s = "" <-> Js.allChars Fuzzy.isSeparator s = true).
Proof.
  intros _. rewrite key_unfold. unfold Js.toUpperCase. split; [|split].
  - induction s as [|c s IH]; simpl; [done|].
    destruct (Fuzzy.isSeparator (Js.upperChar c)) eqn:E; simpl; [done|].
    by rewrite E, StringFacts.isLower_upperChar, IH.
  - etrans; [apply StringFacts.length_filterChars|].
    by rewrite StringFacts.length_mapChars.
  - rewrite StringFacts.filterChars_empty, StringFacts.allChars_mapChars.
    erewrite StringFacts.allChars_ext; [done|].
    intros c. simpl. by rewrite negb_involutive, isSeparator_upperChar.
Qed.

(** X2, on a text of letters and separators and on one of separators
    only. *)
Lemma key_canonical_witness :
  (String.length (Fuzzy.key "ab_c - 1") <= String.length "ab_c - 1")%nat
  /\ Fuzzy.key " -_ " = "".
Proof.
  split.
  - apply (key_canonical "ab_c - 1"). reflexivity.
  - apply (key_canonical " -_ "); reflexivity.
Defined.

(** X3. On ASCII text the key of the CSV store, [norm], ignores the case of
    letters and the white space around the text: a text in upper or lower
    case, or with white space added before and after it, has the key of the
    text; the key is empty exactly when the text is white space only. *)
Theorem norm_ignores_case_and_padding (s u v : string) :
  Text.asciiText s ->
  CsvDb.norm (Js.toUpperCase s) = CsvDb.norm s
  /\ CsvDb.norm (Js.toLowerCase s) = CsvDb.norm s
  /\ (Js.allChars Js.isWhiteSpace u = true -> Js.allChars Js.isWhiteSpace v = true ->
      CsvDb.norm (u ++ s ++ v) = CsvDb.norm s)
  /\ (CsvDb.norm s = "" <-> Js.allChars Js.isWhiteSpace s = true).
Proof.
  intros _. unfold CsvDb.norm, Js.toUpperCase, Js.toLowerCase.
  split; [|split; [|split]].
  - rewrite JsFacts.trim_mapChars by apply StringFacts.isWhiteSpace_upperChar.
    apply StringFacts.mapChars_mapChars, StringFacts.lowerChar_upperChar.
  - rewrite JsFacts.trim_mapChars by apply JsFacts.isWhiteSpace_lowerChar.
    apply JsFacts.mapChars_idem, JsFacts.lowerChar_idem.
  - intros Hu Hv. by rewrite StringFacts.trim_around.
  - by rewrite StringFacts.mapChars_empty, StringFacts.trim_empty.
Qed.

(** X3, on a model number in upper case between blanks. *)
Lemma norm_ignores_case_and_padding_witness :
  CsvDb.norm (Js.toUpperCase "Acm-100") = CsvDb.norm "Acm-100"
  /\ CsvDb.norm ("  " ++ "Acm-100" ++ " ") = CsvDb.norm "Acm-100".
Proof.
  destruct (norm_ignores_case_and_padding "Acm-100" "  " " ")
    as (Hupper & _ & Hpad & _); [reflexivity|].
  split; [exact Hupper|]. apply Hpad; reflexivity.
Defined.

(** ** editDistance is a metric *)

Module MetricFacts.

Import Spec LevenshteinFacts.

Local Open Scope nat_scope.

Lemma edits_sym a b n : edits a b n -> edits b a n.
Proof. induction 1; by constructor. Qed.

Lemma edits_refl a : edits a a 0.
Proof. induction a; by constructor. Qed.

Lemma edits_zero a b n : edits a b n -> n = 0 -> a = b.
Proof. induction 1; intros Hn; try done. by rewrite IHedits. Qed.

Lemma edits_length a b n :
  edits a b n -> length a <= length b + n /\ length b <= length a + n.
Proof. induction 1; simpl; lia. Qed.

Lemma edits_trans a b n :
  edits a b n -> forall c m, edits b c m -> exists k, k <= n + m /\ edits a c k.
Proof.
  induction 1 as [|x a b n H IH|x a b n H IH|x y a b n Hxy H IH|x a b n H IH].
  - intros c m Hc. exists m. split; [lia|done].
  - intros c m Hc. destruct (IH c m Hc) as (k & Hk & Hac).
    exists (S k). split; [lia|by constructor].
  - intros c m Hc. remember (x :: b) as b0 eqn:Hb0. revert Hb0.
    induction Hc as [|z b1 c m Hc IHc|z b1 c m Hc IHc|z w b1 c m Hzw Hc IHc|z b1 c m Hc IHc];
      intros Hb0; simplify_eq.
    + destruct (IH c m Hc) as (k & Hk & Hac). exists k. split; [lia|done].
    + destruct (IHc eq_refl) as (k & Hk & Hac).
      exists (S k). split; [lia|by constructor].
    + destruct (IH c m Hc) as (k & Hk & Hac).
      exists (S k). split; [lia|by constructor].
    + destruct (IH c m Hc) as (k & Hk & Hac).
      exists (S k). split; [lia|by constructor].
  - intros c m Hc. remember (y :: b) as b0 eqn:Hb0. revert Hb0.
    induction Hc as [|z b1 c m Hc IHc|z b1 c m Hc IHc|z w b1 c m Hzw Hc IHc|z b1 c m Hc IHc];
      intros Hb0; simplify_eq.
    + destruct (IH c m Hc) as (k & Hk & Hac).
      exists (S k). split; [lia|by constructor].
    + destruct (IHc eq_refl) as (k & Hk & Hac).
      exists (S k). split; [lia|by constructor].
    + destruct (IH c m Hc) as (k & Hk & Hac).
      destruct (decide (x = w)) as [->|Hne].
      * exists k. split; [lia|by constructor].
      * exists (S k). split; [lia|by constructor].
    + destruct (IH c m Hc) as (k & Hk & Hac).
      exists (S k). split; [lia|by constructor].
  - intros c m Hc. remember (x :: b) as b0 eqn:Hb0. revert Hb0.
    induction Hc as [|z b1 c m Hc IHc|z b1 c m Hc IHc|z w b1 c m Hzw Hc IHc|z b1 c m Hc IHc];
      intros Hb0; simplify_eq.
    + destruct (IH c m Hc) as (k & Hk & Hac).
      exists (S k). split; [lia|by constructor].
    + destruct (IHc eq_refl) as (k & Hk & Hac).
      exists (S k). split; [lia|by constructor].
    + destruct (IH c m Hc) as (k & Hk & Hac).
      exists (S k). split; [lia|by constructor].
    + destruct (IH c m Hc) as (k & Hk & Hac).
      exists k. split; [lia|by constructor].
Qed.

Lemma distance_sym a b : distance a b = distance b a.
Proof.
  apply Nat.le_antisymm; apply distance_le_edits, edits_sym, edits_distance.
Qed.

Lemma distance_zero a b : distance a b = 0 <-> a = b.
Proof.
  split.
  - intros H. apply (edits_zero a b _ (edits_distance a b) H).
  - intros ->. pose proof (distance_le_edits _ _ _ (edits_refl b)). lia.
Qed.

Lemma distance_triangle a b c : distance a c <= distance a b + distance b c.
Proof.
  destruct (edits_trans _ _ _ (edits_distance a b) _ _ (edits_distance b c))
    as (k & Hk & Hac).
  apply distance_le_edits in Hac. lia.
Qed.

Lemma distance_le_max a b : distance a b <= Nat.max (length a) (length b).
Proof.
  revert b. induction a as [|x a IH]; intros [|y b]; simpl length; try (simpl; lia).
  rewrite distance_cons. specialize (IH b). case_bool_decide; lia.
Qed.

Lemma chars_inj a b : Fuzzy.chars a = Fuzzy.chars b -> a = b.
Proof.
  unfold Fuzzy.chars. intros H.
  by rewrite <- (string_of_list_ascii_of_string a),
    <- (string_of_list_ascii_of_string b), H.
Qed.

End MetricFacts.

(** X4. [editDistance] is symmetric, and it is 0 exactly on equal
    strings. *)
Theorem editDistance_symmetric_and_separating (a b : string) :
  Fuzzy.editDistance a b = Fuzzy.editDistance b a
  /\ (Fuzzy.editDistance a b = 0%nat <-> a = b).
Proof.
  rewrite !LevenshteinFacts.editDistance_levenshtein. unfold Spec.levenshtein.
  fold (Fuzzy.chars a) (Fuzzy.chars b). split.
  - apply MetricFacts.distance_sym.
  - rewrite MetricFacts.distance_zero. split; [apply MetricFacts.chars_inj|by intros ->].
Qed.

(** X5. [editDistance] satisfies the triangle inequality: going from [a]
    to [c] costs no more than going through any [b]. *)
Theorem editDistance_triangle (a b c : string) :
  (Fuzzy.editDistance a c <= Fuzzy.editDistance a b + Fuzzy.editDistance b c)%nat.
Proof.
  rewrite !LevenshteinFacts.editDistance_levenshtein.
  apply MetricFacts.distance_triangle.
Qed.

(** X6. [editDistance] is at least the difference of the two lengths and
    at most the greater of the two lengths. *)
Theorem editDistance_bounds (a b : string) :
  (Nat.max (String.length a) (String.length b) - Nat.min (String.length a) (String.length b)
   <= Fuzzy.editDistance a b
   <= Nat.max (String.length a) (String.length b))%nat.
Proof.
  rewrite LevenshteinFacts.editDistance_levenshtein. unfold Spec.levenshtein.
  fold (Fuzzy.chars a) (Fuzzy.chars b). rewrite <- !LevenshteinFacts.length_chars.
  pose proof (MetricFacts.edits_length _ _ _
                (LevenshteinFacts.edits_distance (Fuzzy.chars a) (Fuzzy.chars b))).
  pose proof (MetricFacts.distance_le_max (Fuzzy.chars a) (Fuzzy.chars b)).
  lia.
Qed.

(** ** Integer fields *)

Module IntegerFacts.

(** *** Integers below 2^53 are doubles *)

Lemma doubleValue_exact z : - 2 ^ 53 < z < 2 ^ 53 -> CsvDb.doubleValue z = Some z.
Proof.
  intros Hz. unfold CsvDb.doubleValue.
  destruct z as [|m|m]; [done| |]; unfold binary_normalize.
  - destruct (DoubleFacts.binary_round_exact false m) as (mz & ez & -> & He & Hmz); [lia|].
    f_equal. destruct (Z.leb_spec 0 ez).
    + assert (ez = 0) as -> by lia. simpl in *. lia.
    + rewrite Hmz, Z.div_mul; [done|]. apply Z.pow_nonzero; lia.
  - destruct (DoubleFacts.binary_round_exact true m) as (mz & ez & -> & He & Hmz); [lia|].
    f_equal. destruct (Z.leb_spec 0 ez).
    + assert (ez = 0) as -> by lia. simpl in *. lia.
    + rewrite Hmz, Z.div_mul; [lia|]. apply Z.pow_nonzero; lia.
Qed.

(** *** parseInt *)

Import Js Text.

Lemma digit_no_space c : isDigit c = true -> isWhiteSpace c = false.
Proof. by destruct c as [[] [] [] [] [] [] [] []]. Qed.

Lemma takeDigits_trimEnd s : CsvDb.takeDigits (trimEnd s) = CsvDb.takeDigits s.
Proof.
  induction s as [|c s IH]; simpl; [done|].
  destruct (isDigit c) eqn:Hc.
  - rewrite <- IH. destruct (trimEnd s); simpl.
    + by rewrite (digit_no_space c Hc); simpl; rewrite Hc.
    + by rewrite Hc.
  - destruct (trimEnd s); simpl; [|by rewrite Hc].
    destruct (isWhiteSpace c); simpl; [done|by rewrite Hc].
Qed.

(** The numeral that [parseInt] reads in a text without leading white space. *)
Definition numeral (s : string) : option Z :=
  let '(neg, body) :=
    match s with
    | String "-"%char t => (true, t)
    | String "+"%char t => (false, t)
    | _ => (false, s)
    end in
  let ds := CsvDb.takeDigits body in
  if truthy ds
  then Some (if neg then (- JsNumber.digitsValue 0 ds)%Z else JsNumber.digitsValue 0 ds)
  else None.

Lemma numeral_trimEnd s : numeral (trimEnd s) = numeral s.
Proof.
  destruct s as [|c s]; [done|]. unfold numeral.
  pose proof (takeDigits_trimEnd (String c s)) as Hall.
  pose proof (takeDigits_trimEnd s) as Htail.
  simpl trimEnd in *.
  destruct (Ascii.eqb_spec c "-") as [->|Hm].
  { destruct (trimEnd s); by rewrite <- Htail. }
  destruct (Ascii.eqb_spec c "+") as [->|Hp].
  { destruct (trimEnd s); by rewrite <- Htail. }
  assert (forall (t : string) (A : Type) (x y z : A),
            match String c t with
            | String "-"%char t' => x
            | String "+"%char t' => y
            | _ => z
            end = z) as Hc.
  { intros t A x y z. destruct c as [[] [] [] [] [] [] [] []]; done. }
  destruct (trimEnd s) as [|d t'] eqn:E.
  - destruct (isWhiteSpace c) eqn:Hws.
    + rewrite (Hc s). simpl in Hall. simpl.
      destruct (isDigit c) eqn:Hd; [|done].
      by rewrite (digit_no_space c Hd) in Hws.
    + rewrite (Hc ""), (Hc s). by rewrite Hall.
  - rewrite (Hc (String d t')), (Hc s). by rewrite Hall.
Qed.

Lemma parseInt_numeral s : CsvDb.parseInt s = numeral (trimStart s).
Proof. reflexivity. Qed.

(** The [trim] of [toInt] changes nothing: [parseInt] skips leading white
    space and stops at the first character that is no digit. *)
Lemma parseInt_trim s : CsvDb.parseInt (trim s) = CsvDb.parseInt s.
Proof.
  rewrite !parseInt_numeral. unfold trim.
  rewrite JsFacts.trimStart_headKept
    by apply JsFacts.headKept_trimEnd, JsFacts.headKept_trimStart.
  apply numeral_trimEnd.
Qed.

Lemma takeDigits_app ds rest :
  allChars isDigit ds = true -> endsNumeral rest -> CsvDb.takeDigits (ds ++ rest) = ds.
Proof.
  intros Hds Hrest. induction ds as [|c ds IH].
  - rewrite StringFacts.app_empty_l. destruct rest as [|c rest]; [done|].
    simpl in *. by rewrite Hrest.
  - rewrite StringFacts.app_cons. simpl in *. apply andb_prop in Hds as [-> Hds].
    by rewrite IH.
Qed.

Lemma digitsValue_nonneg s acc : 0 <= acc -> 0 <= JsNumber.digitsValue acc s.
Proof.
  revert acc. induction s as [|c s IH]; intros acc Hacc; simpl; [done|].
  apply IH. lia.
Qed.

Lemma trimStart_digits ds rest :
  allChars isDigit ds = true -> ds <> "" -> trimStart (ds ++ rest) = ds ++ rest.
Proof.
  destruct ds as [|c ds]; [done|]. intros [Hc _]%andb_prop _.
  rewrite StringFacts.app_cons. simpl. by rewrite (digit_no_space c Hc).
Qed.

Lemma numeral_unsigned c t :
  isDigit c = true ->
  numeral (String c t)
  = let ds := CsvDb.takeDigits (String c t) in
    if truthy ds then Some (JsNumber.digitsValue 0 ds) else None.
Proof.
  intros Hc. destruct c as [[] [] [] [] [] [] [] []];
    vm_compute in Hc; try discriminate Hc; reflexivity.
Qed.

Lemma numeral_digits ds rest :
  allChars isDigit ds = true -> ds <> "" -> endsNumeral rest ->
  numeral (ds ++ rest) = Some (JsNumber.digitsValue 0 ds).
Proof.
  intros Hds Hne Hrest.
  destruct ds as [|c ds]; [done|]. rewrite StringFacts.app_cons.
  pose proof Hds as [Hc _]%andb_prop.
  rewrite (numeral_unsigned c _ Hc), <- StringFacts.app_cons.
  by rewrite takeDigits_app.
Qed.

Lemma numeral_signed ds rest :
  allChars isDigit ds = true -> ds <> "" -> endsNumeral rest ->
  numeral ("+" ++ ds ++ rest) = Some (JsNumber.digitsValue 0 ds)
  /\ numeral ("-" ++ ds ++ rest) = Some (- JsNumber.digitsValue 0 ds).
Proof.
  intros Hds Hne Hrest. unfold numeral.
  change ("+" ++ ds ++ rest) with (String "+" (ds ++ rest)).
  change ("-" ++ ds ++ rest) with (String "-" (ds ++ rest)).
  cbv iota beta. rewrite takeDigits_app by done.
  by destruct ds.
Qed.

Lemma numeral_sign_only c t :
  isDigit c = false ->
  numeral ("+" ++ String c t) = None /\ numeral ("-" ++ String c t) = None.
Proof. intros Hc. unfold numeral. simpl. by rewrite Hc. Qed.

Lemma numeral_none c t :
  isDigit c = false -> c <> "-"%char -> c <> "+"%char -> numeral (String c t) = None.
Proof.
  intros Hc Hm Hp. unfold numeral.
  assert (match String c t with
          | String "-"%char t' => (true, t')
          | String "+"%char t' => (false, t')
          | _ => (false, String c t)
          end = (false, String c t)) as ->.
  { destruct c as [[] [] [] [] [] [] [] []]; done. }
  simpl. by rewrite Hc.
Qed.

End IntegerFacts.

(** X7. [toInt] reads the integer that leads the text: after any white
    space and an optional sign, the digits up to the first character that is
    no digit, whatever follows; below 2^53 the value is exact. *)
Theorem toInt_reads_leading_integer (ws ds rest : string) :
  Js.allChars Js.isWhiteSpace ws = true ->
  Js.allChars Js.isDigit ds = true -> ds <> "" ->
  Text.endsNumeral rest ->
  JsNumber.digitsValue 0 ds < 2 ^ 53 ->
  CsvDb.toInt (Some (ws ++ ds ++ rest)) = Some (JsNumber.digitsValue 0 ds)
  /\ CsvDb.toInt (Some (ws ++ "+" ++ ds ++ rest)) = Some (JsNumber.digitsValue 0 ds)
  /\ CsvDb.toInt (Some (ws ++ "-" ++ ds ++ rest)) = Some (- JsNumber.digitsValue 0 ds).
Proof.
  intros Hws Hds Hne Hrest Hv.
  pose proof (IntegerFacts.digitsValue_nonneg ds 0 (Z.le_refl 0)) as Hpos.
  destruct (IntegerFacts.numeral_signed ds rest Hds Hne Hrest) as [Hplus Hminus].
  unfold CsvDb.toInt. cbn [Js.orEmpty].
  rewrite !IntegerFacts.parseInt_trim, !IntegerFacts.parseInt_numeral.
  rewrite !(StringFacts.trimStart_space_app ws) by done.
  rewrite IntegerFacts.trimStart_digits by done.
  rewrite IntegerFacts.numeral_digits by done.
  change (Js.trimStart ("+" ++ ds ++ rest)) with ("+" ++ ds ++ rest).
  change (Js.trimStart ("-" ++ ds ++ rest)) with ("-" ++ ds ++ rest).
  rewrite Hplus, Hminus.
  repeat split; apply IntegerFacts.doubleValue_exact; lia.
Qed.

(** X7, on the cell [ 42abc] and its signed forms. *)
Lemma toInt_reads_leading_integer_witness :
  CsvDb.toInt (Some (" " ++ "42" ++ "abc")) = Some 42
  /\ CsvDb.toInt (Some (" " ++ "+" ++ "42" ++ "abc")) = Some 42
  /\ CsvDb.toInt (Some (" " ++ "-" ++ "42" ++ "abc")) = Some (- 42).
Proof.
  apply (toInt_reads_leading_integer " " "42" "abc");
    [reflexivity|reflexivity|discriminate|reflexivity|reflexivity].
Defined.



(** ** Escaping for the overlay *)

Module EscapeFacts.

Import Js Fuzzy Text.

Lemma allChars_app p a b : allChars p (a ++ b) = allChars p a && allChars p b.
Proof.
  induction a as [|c a IH]; [done|]. rewrite StringFacts.app_cons. simpl.
  by rewrite IH, andb_assoc.
Qed.

Lemma escapeChar_no_markup c :
  allChars (fun c => negb (markup c)) (escapeChar c) = true.
Proof.
  unfold escapeChar, markup.
  destruct (Ascii.eqb c "&") eqn:E1; [done|].
  destruct (Ascii.eqb c "<") eqn:E2; [done|].
  destruct (Ascii.eqb c ">") eqn:E3; [done|].
  destruct (Ascii.eqb c dquote) eqn:E4; [done|].
  destruct (Ascii.eqb c "'") eqn:E5; [done|].
  simpl. by rewrite E2, E3, E4, E5.
Qed.

Lemma escapeHTML_no_markup s :
  allChars (fun c => negb (markup c)) (escapeHTML s) = true.
Proof.
  induction s as [|c s IH]; simpl; [done|].
  by rewrite allChars_app, escapeChar_no_markup, IH.
Qed.

Lemma replaceQuotes_id s :
  allChars (fun c => negb (markup c)) s = true -> replaceQuotes s = s.
Proof.
  induction s as [|c s IH]; simpl; [done|].
  intros [Hc Hs]%andb_prop. unfold markup in Hc.
  destruct (Ascii.eqb c dquote); [by rewrite orb_true_r in Hc|].
  by rewrite IH.
Qed.

Lemma escapeChar_inj c d t u :
  escapeChar c ++ t = escapeChar d ++ u -> c = d /\ t = u.
Proof.
  unfold escapeChar.
  destruct (Ascii.eqb_spec c "&"), (Ascii.eqb_spec c "<"), (Ascii.eqb_spec c ">"),
    (Ascii.eqb_spec c dquote), (Ascii.eqb_spec c "'");
  destruct (Ascii.eqb_spec d "&"), (Ascii.eqb_spec d "<"), (Ascii.eqb_spec d ">"),
    (Ascii.eqb_spec d dquote), (Ascii.eqb_spec d "'");
  subst; try discriminate; intros H; injection H; try done; congruence.
Qed.

Lemma escapeHTML_inj s t : escapeHTML s = escapeHTML t -> s = t.
Proof.
  revert t. induction s as [|c s IH]; intros [|d t]; simpl; try done.
  - unfold escapeChar. repeat case_match; discriminate.
  - unfold escapeChar. repeat case_match; discriminate.
  - intros [-> Heq]%escapeChar_inj. by rewrite (IH t).
Qed.

End EscapeFacts.

(** X9. [escapeHTML] leaves no angle bracket, double quote or apostrophe in
    the text, so that a label or a query cannot open markup in the overlay;
    [escapeAttr] is [escapeHTML], its own replacement finding no double quote
    left; and two different texts are escaped to different texts. *)
Theorem escapeHTML_leaves_no_markup (s t : string) :
  Js.allChars (fun c => negb (Text.markup c)) (Fuzzy.escapeHTML s) = true
  /\ Fuzzy.escapeAttr s = Fuzzy.escapeHTML s
  /\ (Fuzzy.escapeHTML s = Fuzzy.escapeHTML t -> s = t).
Proof.
  split; [apply EscapeFacts.escapeHTML_no_markup|]. split.
  - apply EscapeFacts.replaceQuotes_id, EscapeFacts.escapeHTML_no_markup.
  - apply EscapeFacts.escapeHTML_inj.
Qed.

(** ** parseCSV *)

Module CsvTextFacts.

Import CsvText.

(** *** The scanner of the CSV store *)

Definition isQuote (c : ascii) : bool := Ascii.eqb c CsvDb.dquote.

(** One turn of the loop of the CSV store's [parseCSV]. *)
Lemma scan_cons c rest inQuotes field row rows :
  CsvDb.scan (String c rest) inQuotes field row rows
  = if inQuotes then
      if isQuote c then
        match rest with
        | String c' rest' =>
            if isQuote c'
            then CsvDb.scan rest' true (CsvDb.appendChar field CsvDb.dquote) row rows
            else CsvDb.scan rest false field row rows
        | EmptyString => CsvDb.scan rest false field row rows
        end
      else CsvDb.scan rest true (CsvDb.appendChar field c) row rows
    else if isQuote c then CsvDb.scan rest true field row rows
    else if Ascii.eqb c "," then CsvDb.scan rest false "" (row ++ [field])%list rows
    else if Ascii.eqb c "010"
      then CsvDb.scan rest false "" [] (rows ++ [row ++ [field]])%list
    else if Ascii.eqb c "013" then
      match rest with
      | String c' rest' =>
          if Ascii.eqb c' "010"
          then CsvDb.scan rest' false "" [] (rows ++ [row ++ [field]])%list
          else CsvDb.scan rest false "" [] (rows ++ [row ++ [field]])%list
      | EmptyString => CsvDb.scan rest false "" [] (rows ++ [row ++ [field]])%list
      end
    else CsvDb.scan rest false (CsvDb.appendChar field c) row rows.
Proof.
  destruct rest as [|c' rest']; [reflexivity|].
  destruct c' as [[] [] [] [] [] [] [] []]; reflexivity.
Qed.

Lemma scan_acc_bounded n : forall text, (String.length text <= n)%nat ->
  forall inQuotes field row rows,
    CsvDb.scan text inQuotes field row rows
    = (rows ++ CsvDb.scan text inQuotes field row [])%list.
Proof.
  induction n as [|n IH]; intros [|c rest] Hlen inq f row rows;
    simpl in Hlen; try lia; try done.
  rewrite !(scan_cons c rest).
  assert (forall q f' row' rows',
            CsvDb.scan rest q f' row' rows'
            = (rows' ++ CsvDb.scan rest q f' row' [])%list) as IHrest.
  { intros. apply IH. lia. }
  assert (forall c' rest' q f' row' rows', rest = String c' rest' ->
            CsvDb.scan rest' q f' row' rows'
            = (rows' ++ CsvDb.scan rest' q f' row' [])%list) as IHrest'.
  { intros c' rest' q f' row' rows' ->. apply IH. simpl in Hlen. lia. }
  destruct inq.
  - destruct (isQuote c); [|apply IHrest].
    destruct rest as [|c' rest']; [apply IHrest|].
    destruct (isQuote c'); [by eapply IHrest'|apply IHrest].
  - destruct (isQuote c); [apply IHrest|].
    destruct (Ascii.eqb c ","); [apply IHrest|].
    destruct (Ascii.eqb c "010").
    { rewrite IHrest. rewrite (IHrest _ _ _ ([] ++ _)%list). by rewrite app_assoc. }
    destruct (Ascii.eqb c "013"); [|apply IHrest].
    destruct rest as [|c' rest'].
    { rewrite IHrest. rewrite (IHrest _ _ _ ([] ++ _)%list). by rewrite app_assoc. }
    destruct (Ascii.eqb c' "010").
    + rewrite (IHrest' c' rest') by done.
      rewrite (IHrest' c' rest' _ _ _ ([] ++ _)%list) by done. by rewrite app_assoc.
    + rewrite IHrest. rewrite (IHrest _ _ _ ([] ++ _)%list). by rewrite app_assoc.
Qed.

Lemma scan_acc text inQuotes field row rows :
  CsvDb.scan text inQuotes field row rows
  = (rows ++ CsvDb.scan text inQuotes field row [])%list.
Proof. by apply (scan_acc_bounded (String.length text)). Qed.

Lemma appendChar_app f c s : CsvDb.appendChar f c ++ s = f ++ String c s.
Proof. unfold CsvDb.appendChar. by rewrite StringFacts.app_assoc. Qed.

Lemma special_false c :
  special c = false ->
  isQuote c = false /\ Ascii.eqb c "," = false
  /\ Ascii.eqb c "010" = false /\ Ascii.eqb c "013" = false.
Proof.
  unfold special, isQuote.
  by destruct (Ascii.eqb c CsvDb.dquote), (Ascii.eqb c ","), (Ascii.eqb c "010"),
    (Ascii.eqb c "013").
Qed.

(** A bare field is read character by character. *)
Lemma scan_bare s : bare s = true -> forall rest field row rows,
  CsvDb.scan (s ++ rest) false field row rows
  = CsvDb.scan rest false (field ++ s) row rows.
Proof.
  induction s as [|c s IH]; intros Hs rest f row rows.
  - by rewrite StringFacts.app_empty_l, StringFacts.app_empty_r.
  - unfold bare in Hs. simpl in Hs. apply andb_prop in Hs as [Hc Hs].
    apply negb_true_iff, special_false in Hc as (H1 & H2 & H3 & H4).
    rewrite StringFacts.app_cons, scan_cons, H1, H2, H3, H4.
    rewrite (IH Hs). by rewrite appendChar_app.
Qed.

(** What follows a closing quote is not a quote. *)
Definition afterQuote (rest : string) : Prop :=
  match rest with
  | String c _ => isQuote c = false
  | EmptyString => True
  end.

(** The inside of a quoted field, up to the closing quote. *)
Lemma scan_doubled s : forall rest field row rows,
  afterQuote rest ->
  CsvDb.scan (doubled s ++ String CsvDb.dquote rest) true field row rows
  = CsvDb.scan rest false (field ++ s) row rows.
Proof.
  induction s as [|c s IH]; intros rest f row rows Hrest.
  - simpl doubled. rewrite StringFacts.app_empty_l, StringFacts.app_empty_r, scan_cons.
    change (isQuote CsvDb.dquote) with true. cbv iota.
    destruct rest as [|c' rest']; [done|]. simpl in Hrest. by rewrite Hrest.
  - simpl doubled. fold (isQuote c). destruct (isQuote c) eqn:Hc.
    + apply Ascii.eqb_eq in Hc as ->.
      rewrite !StringFacts.app_cons, scan_cons.
      change (isQuote CsvDb.dquote) with true. cbv iota.
      rewrite IH by done. by rewrite appendChar_app.
    + rewrite StringFacts.app_cons, scan_cons, Hc.
      rewrite IH by done. by rewrite appendChar_app.
Qed.

Lemma scan_field quote s rest field row rows :
  afterQuote rest ->
  CsvDb.scan (writeField quote s ++ rest) false field row rows
  = CsvDb.scan rest false (field ++ s) row rows.
Proof.
  intros Hrest. unfold writeField. destruct (quote s || negb (bare s)) eqn:E.
  - unfold quoted. rewrite StringFacts.app_cons, StringFacts.app_assoc, scan_cons.
    change (isQuote CsvDb.dquote) with true. cbv iota.
    change (String CsvDb.dquote "" ++ rest) with (String CsvDb.dquote rest).
    by apply scan_doubled.
  - apply orb_false_elim in E as [_ E%negb_false_iff]. by apply scan_bare.
Qed.

(** After a lone carriage return the next row does not start with a line
    feed. *)
Definition afterEol (e : LineEnd) (rest : string) : Prop :=
  match e, rest with
  | CR, String c _ => Ascii.eqb c "010" = false
  | _, _ => True
  end.

Lemma scan_eol e rest field row rows :
  afterEol e rest ->
  CsvDb.scan (eolText e ++ rest) false field row rows
  = CsvDb.scan rest false "" [] (rows ++ [row ++ [field]])%list.
Proof.
  intros Hrest. destruct e; simpl eolText.
  - by rewrite StringFacts.app_cons, scan_cons.
  - by rewrite !StringFacts.app_cons, scan_cons.
  - rewrite StringFacts.app_cons, StringFacts.app_empty_l, scan_cons.
    cbn [isQuote Ascii.eqb]. simpl.
    destruct rest as [|c' rest']; [done|]. simpl in Hrest. by rewrite Hrest.
Qed.

Lemma afterQuote_eol e rest : afterQuote (eolText e ++ rest).
Proof. by destruct e. Qed.

Lemma scan_row quote e fields : fields <> [] -> forall rest row rows,
  afterEol e rest ->
  CsvDb.scan (writeRow quote fields ++ eolText e ++ rest) false "" row rows
  = CsvDb.scan rest false "" [] (rows ++ [row ++ fields])%list.
Proof.
  induction fields as [|f fields IH]; [done|]. intros _ rest row rows Hrest.
  destruct fields as [|f' fields].
  - simpl writeRow. rewrite scan_field by apply afterQuote_eol.
    rewrite StringFacts.app_empty_l. by apply scan_eol.
  - change (writeRow quote (f :: f' :: fields))
      with (writeField quote f ++ "," ++ writeRow quote (f' :: fields)).
    rewrite !StringFacts.app_assoc, scan_field by done.
    rewrite StringFacts.app_empty_l, StringFacts.app_cons, StringFacts.app_empty_l.
    rewrite scan_cons. cbn [isQuote Ascii.eqb]. simpl.
    rewrite IH by done. by rewrite <- List.app_assoc.
Qed.

(** Where a written file starts. *)
Definition noLineFeedFirst (s : string) : Prop :=
  match s with
  | String c _ => Ascii.eqb c "010" = false
  | EmptyString => True
  end.

Lemma noLineFeedFirst_field quote f rest :
  noLineFeedFirst rest -> noLineFeedFirst (writeField quote f ++ rest).
Proof.
  intros Hrest. unfold writeField. destruct (quote f || negb (bare f)) eqn:E; [done|].
  apply orb_false_elim in E as [_ E%negb_false_iff].
  destruct f as [|c f]; [done|]. unfold bare in E. simpl in E.
  apply andb_prop in E as [Hc _].
  by apply negb_true_iff, special_false in Hc as (_ & _ & ? & _).
Qed.

Lemma noLineFeedFirst_row quote r rest :
  noLineFeedFirst rest -> noLineFeedFirst (writeRow quote r ++ rest).
Proof.
  intros Hrest. destruct r as [|f [|f' r]]; [done| |].
  - by apply noLineFeedFirst_field.
  - change (writeRow quote (f :: f' :: r))
      with (writeField quote f ++ "," ++ writeRow quote (f' :: r)).
    rewrite StringFacts.app_assoc. by apply noLineFeedFirst_field.
Qed.

Lemma afterEol_file quote e rows : afterEol e (writeFile quote e rows).
Proof.
  destruct e; try by destruct (writeFile _ _ _).
  assert (noLineFeedFirst (writeFile quote CR rows)) as H; [|by destruct (writeFile _ _ _)].
  destruct rows as [|r rows]; [done|]. simpl. by apply noLineFeedFirst_row.
Qed.

Lemma scan_file quote e rows' : Forall (fun r => r <> []) rows' -> forall rows,
  CsvDb.scan (writeFile quote e rows') false "" [] rows
  = (rows ++ rows' ++ [[""]])%list.
Proof.
  induction 1 as [|r rows' Hr _ IH]; intros rows; [done|].
  simpl writeFile. rewrite scan_row by (done || apply afterEol_file).
  rewrite IH. by rewrite <- List.app_assoc.
Qed.

Lemma popBlankRows_snoc rows :
  CsvDb.popBlankRows (rows ++ [[""]]) = CsvDb.popBlankRows rows.
Proof. induction rows as [|r rows IH]; simpl; [done|]. by rewrite IH. Qed.

(** *** The scanner of the fuzzy engine *)

Lemma fuzzy_scan_cons c rest inQuotes field row rows :
  Fuzzy.scan (String c rest) inQuotes field row rows
  = if inQuotes then
      if isQuote c then
        match rest with
        | String c' rest' =>
            if isQuote c'
            then Fuzzy.scan rest' true (Fuzzy.appendChar field Fuzzy.dquote) row rows
            else Fuzzy.scan rest false field row rows
        | EmptyString => Fuzzy.scan rest false field row rows
        end
      else Fuzzy.scan rest true (Fuzzy.appendChar field c) row rows
    else if isQuote c then Fuzzy.scan rest true field row rows
    else if Ascii.eqb c "," then Fuzzy.scan rest false "" (row ++ [field])%list rows
    else if Ascii.eqb c "013" then
      match rest with
      | String c' rest' =>
          if Ascii.eqb c' "010"
          then Fuzzy.scan rest' false "" [] (Fuzzy.pushRow (row ++ [field]) rows)
          else Fuzzy.scan rest false "" [] (Fuzzy.pushRow (row ++ [field]) rows)
      | EmptyString => Fuzzy.scan rest false "" [] (Fuzzy.pushRow (row ++ [field]) rows)
      end
    else if Ascii.eqb c "010"
      then Fuzzy.scan rest false "" [] (Fuzzy.pushRow (row ++ [field]) rows)
    else Fuzzy.scan rest false (Fuzzy.appendChar field c) row rows.
Proof.
  destruct rest as [|c' rest']; [reflexivity|].
  destruct c' as [[] [] [] [] [] [] [] []]; reflexivity.
Qed.

Definition kept (r : list string) : bool := negb (emptyLine r).

Lemma pushRow_kept r rows : Fuzzy.pushRow r rows = (rows ++ List.filter kept [r])%list.
Proof.
  destruct r as [|[|c f] [|f' r]]; simpl; by rewrite ?app_nil_r.
Qed.

(** The two parsers split a text into the same rows; the fuzzy engine's
    drops the empty lines. *)
Lemma fuzzy_scan_bounded n : forall text, (String.length text <= n)%nat ->
  forall inQuotes field row rows,
    Fuzzy.scan text inQuotes field row rows
    = (rows ++ List.filter kept (CsvDb.scan text inQuotes field row []))%list.
Proof.
  induction n as [|n IH]; intros [|c rest] Hlen inq f row rows;
    simpl in Hlen; try lia; try apply pushRow_kept.
  rewrite fuzzy_scan_cons, scan_cons.
  assert (forall q f' row' rows',
            Fuzzy.scan rest q f' row' rows'
            = (rows' ++ List.filter kept (CsvDb.scan rest q f' row' []))%list) as IHrest.
  { intros. apply IH. lia. }
  assert (forall c' rest' q f' row' rows', rest = String c' rest' ->
            Fuzzy.scan rest' q f' row' rows'
            = (rows' ++ List.filter kept (CsvDb.scan rest' q f' row' []))%list) as IHrest'.
  { intros c' rest' q f' row' rows' ->. apply IH. simpl in Hlen. lia. }
  assert (forall text' r,
            (Fuzzy.pushRow r rows ++ List.filter kept (CsvDb.scan text' false "" [] []))%list
            = (rows ++ List.filter kept (CsvDb.scan text' false "" [] ([] ++ [r])))%list)
    as Hpush.
  { intros text' r. rewrite (scan_acc text' _ _ _ ([] ++ [r])%list).
    rewrite List.filter_app, pushRow_kept. by rewrite <- List.app_assoc. }
  destruct inq.
  - destruct (isQuote c); [|apply IHrest].
    destruct rest as [|c' rest']; [apply IHrest|].
    destruct (isQuote c'); [by eapply IHrest'|apply IHrest].
  - destruct (isQuote c); [apply IHrest|].
    destruct (Ascii.eqb c ",") eqn:Ecomma; [apply IHrest|].
    destruct (Ascii.eqb c "013") eqn:Ecr.
    { apply Ascii.eqb_eq in Ecr as ->. cbn [Ascii.eqb]. simpl.
      destruct rest as [|c' rest']; [by rewrite IHrest, Hpush|].
      destruct (Ascii.eqb c' "010").
      - by rewrite (IHrest' c' rest'), Hpush.
      - by rewrite IHrest, Hpush. }
    destruct (Ascii.eqb c "010"); [by rewrite IHrest, Hpush|apply IHrest].
Qed.

Lemma fuzzy_scan text :
  Fuzzy.scan text false "" [] [] = List.filter kept (CsvDb.scan text false "" [] []).
Proof. by rewrite (fuzzy_scan_bounded (String.length text)). Qed.

End CsvTextFacts.

(** X10. The CSV store's [parseCSV] reads back what a CSV writer wrote. For
    rows of at least one field each, written with commas between the fields,
    with quotes around every field that holds a comma, a quote or a line
    break (quotes doubled) and around any other field the writer chooses,
    and with every row ended by LF, CRLF or CR: the records are those of the
    rows after the first, read under the canonical names of the first row
    and with every value trimmed, once the blank rows at the end are
    dropped. A byte-order mark in front of the text changes nothing. *)
Theorem csv_parseCSV_reads_written_rows quote e (rows : list (list string)) :
  Forall (fun r => r <> []) rows ->
  CsvDb.stripBOM (CsvText.writeFile quote e rows) = CsvText.writeFile quote e rows ->
  let records :=
    match CsvDb.popBlankRows rows with
    | [] => []
    | header :: body => map (CsvDb.rowObject (map CsvDb.canonicalHeader header)) body
    end in
  CsvDb.parseCSV (CsvText.writeFile quote e rows) = records
  /\ CsvDb.parseCSV (CsvText.bom ++ CsvText.writeFile quote e rows) = records.
Proof.
  intros Hrows Hbom records.
  assert (CsvDb.stripBOM (CsvText.bom ++ CsvText.writeFile quote e rows)
          = CsvText.writeFile quote e rows) as Hbom' by reflexivity.
  unfold CsvDb.parseCSV. rewrite Hbom, Hbom'.
  rewrite CsvTextFacts.scan_file by done.
  by rewrite app_nil_l, CsvTextFacts.popBlankRows_snoc.
Qed.

(** X10, on a file of three rows and a blank line with CRLF line ends, one
    field quoted because of its comma and its quotes. *)
Lemma csv_parseCSV_reads_written_rows_witness :
  let rows := [["Part ID"; "name"]; ["P1"; " a, b " ++ String CsvDb.dquote "c"]; [""]] in
  let records :=
    [CsvDb.rowObject ["partid"; "name"] ["P1"; " a, b " ++ String CsvDb.dquote "c"]] in
  CsvDb.parseCSV (CsvText.writeFile (fun _ => false) CsvText.CRLF rows) = records
  /\ CsvDb.parseCSV
       (CsvText.bom ++ CsvText.writeFile (fun _ => false) CsvText.CRLF rows) = records.
Proof.
  apply (csv_parseCSV_reads_written_rows (fun _ => false) CsvText.CRLF
           [["Part ID"; "name"]; ["P1"; " a, b " ++ String CsvDb.dquote "c"]; [""]]).
  - repeat constructor; discriminate.
  - reflexivity.
Defined.

(** X11. The fuzzy engine's [parseCSV] reads back what a CSV writer wrote
    (as in X10), but it skips every empty line, wherever it stands, takes the
    trimmed cells of the first row that is left as the names, and leaves the
    values as they are written. The records are object literals filled by
    assignment ([Fuzzy.rowObject]): a column named [__proto__] gives them no
    property. *)
Theorem fuzzy_parseCSV_reads_written_rows quote e (rows : list (list string)) :
  Forall (fun r => r <> []) rows ->
  Fuzzy.parseCSV (CsvText.writeFile quote e rows)
  = match List.filter (fun r => negb (CsvText.emptyLine r)) rows with
    | [] => []
    | header :: body => map (Fuzzy.rowObject (map Js.trim header)) body
    end.
Proof.
  intros Hrows. unfold Fuzzy.parseCSV.
  rewrite CsvTextFacts.fuzzy_scan, CsvTextFacts.scan_file by done.
  rewrite app_nil_l, List.filter_app. simpl. by rewrite app_nil_r.
Qed.

(** X11, on a file with an empty line between its two rows and a column
    named [__proto__]. *)
Lemma fuzzy_parseCSV_reads_written_rows_witness :
  Fuzzy.parseCSV
    (CsvText.writeFile (fun _ => true) CsvText.LF
       [[" id "; "__proto__"]; [""]; ["P1"; " a,b "]])
  = [Fuzzy.rowObject ["id"; "__proto__"] ["P1"; " a,b "]]
  /\ Fuzzy.rowObject ["id"; "__proto__"] ["P1"; " a,b "] = {[ "id" := "P1" ]}.
Proof.
  split; [|reflexivity].
  apply (fuzzy_parseCSV_reads_written_rows (fun _ => true) CsvText.LF
           [[" id "; "__proto__"]; [""]; ["P1"; " a,b "]]).
  repeat constructor; discriminate.
Defined.

Module RecordFacts.

Lemma headerSeparator_lowerChar c :
  CsvDb.headerSeparator (Js.lowerChar c) = CsvDb.headerSeparator c.
Proof. JsFacts.each_char c. Qed.

Lemma canonicalHeader_idem h :
  CsvDb.canonicalHeader (CsvDb.canonicalHeader h) = CsvDb.canonicalHeader h.
Proof.
  unfold CsvDb.canonicalHeader, Js.toLowerCase.
  rewrite !(JsFacts.filterChars_mapChars _ Js.lowerChar)
    by (intros c; by rewrite headerSeparator_lowerChar).
  rewrite JsFacts.mapChars_idem by apply JsFacts.lowerChar_idem.
  by rewrite (JsFacts.filterChars_all _ (Js.filterChars _ h))
    by apply JsFacts.allChars_filterChars.
Qed.

(** A record gets one more property with every column, except under the
    name [__proto__]. *)
Lemma csv_rowObject_snoc headers h line :
  CsvDb.rowObject (headers ++ [h]) line
  = CsvDb.setProperty (CsvDb.rowObject headers line) h
      (Js.trim (default "" (line !! length headers))).
Proof.
  unfold CsvDb.rowObject. rewrite imap_app, foldl_app. simpl.
  by rewrite Nat.add_0_r.
Qed.

Lemma fuzzy_rowObject_snoc headers h rowVals :
  Fuzzy.rowObject (headers ++ [h]) rowVals
  = Fuzzy.setProperty (Fuzzy.rowObject headers rowVals) h
      (default "" (rowVals !! length headers)).
Proof.
  unfold Fuzzy.rowObject. rewrite imap_app, foldl_app. simpl.
  by rewrite Nat.add_0_r.
Qed.

(** The names of a record built by a fold of [setProperty]. *)
Lemma keys_snoc (headers : list string) (h' h : string) (P : Prop) :
  (P <-> h ∈ headers /\ h <> "__proto__") ->
  (if String.eqb h' "__proto__" then P else h' = h \/ h' <> h /\ P)
  <-> h ∈ (headers ++ [h'])%list /\ h <> "__proto__".
Proof.
  intros HP. rewrite elem_of_app, list_elem_of_singleton.
  destruct (String.eqb_spec h' "__proto__") as [->|Hp]; rewrite HP.
  - split; [intros [? ?]; split; [by left|done]|].
    intros [[?| ->] ?]; done.
  - split.
    + intros [->|[_ [? ?]]]; [split; [by right|done]|split; [by left|done]].
    + intros [[?| ->] ?]; [|by left].
      destruct (decide (h' = h)); [by left|by right].
Qed.

Lemma csv_rowObject_keys headers line h :
  is_Some (CsvDb.rowObject headers line !! h) <-> h ∈ headers /\ h <> "__proto__".
Proof.
  induction headers as [|h' headers IH] using rev_ind.
  - unfold CsvDb.rowObject. simpl. rewrite lookup_empty, elem_of_nil.
    split; [by intros [? ?]|by intros [? _]].
  - rewrite csv_rowObject_snoc. rewrite <- (keys_snoc headers h' h _ IH).
    unfold CsvDb.setProperty. destruct (String.eqb h' "__proto__"); [done|].
    apply lookup_insert_is_Some.
Qed.

Lemma csv_rowObject_trimmed headers line h v :
  CsvDb.rowObject headers line !! h = Some v -> Js.trim v = v.
Proof.
  induction headers as [|h' headers IH] using rev_ind.
  - unfold CsvDb.rowObject. simpl. by rewrite lookup_empty.
  - rewrite csv_rowObject_snoc. unfold CsvDb.setProperty.
    destruct (String.eqb h' "__proto__"); [done|].
    rewrite lookup_insert. case_decide; [|done].
    intros [= <-]. apply JsFacts.trim_idem.
Qed.

Lemma csv_rowObject_cell headers line c h :
  NoDup headers -> headers !! c = Some h -> h <> "__proto__" ->
  CsvDb.rowObject headers line !! h = Some (Js.trim (default "" (line !! c))).
Proof.
  induction headers as [|h' headers IH] using rev_ind; [done|].
  intros [Hnd [Hdisj _]]%NoDup_app Hc Hp. rewrite csv_rowObject_snoc.
  unfold CsvDb.setProperty.
  apply lookup_app_Some in Hc as [Hh|[Hc Hh]].
  - assert (h' <> h) as Hne
      by (intros ->; apply (Hdisj h); [by eapply list_elem_of_lookup_2|left]).
    destruct (String.eqb h' "__proto__"); [by apply IH|].
    rewrite lookup_insert_ne; [by apply IH|done].
  - destruct (c - length headers)%nat eqn:E; simplify_eq/=.
    replace c with (length headers) by lia.
    destruct (String.eqb_spec h "__proto__"); [done|]. by rewrite lookup_insert_eq.
Qed.

Lemma fuzzy_rowObject_keys headers rowVals h :
  is_Some (Fuzzy.rowObject headers rowVals !! h) <-> h ∈ headers /\ h <> "__proto__".
Proof.
  induction headers as [|h' headers IH] using rev_ind.
  - unfold Fuzzy.rowObject. simpl. rewrite lookup_empty, elem_of_nil.
    split; [by intros [? ?]|by intros [? _]].
  - rewrite fuzzy_rowObject_snoc. rewrite <- (keys_snoc headers h' h _ IH).
    unfold Fuzzy.setProperty. destruct (String.eqb h' "__proto__"); [done|].
    apply lookup_insert_is_Some.
Qed.

Lemma fuzzy_rowObject_cell headers rowVals c h :
  NoDup headers -> headers !! c = Some h -> h <> "__proto__" ->
  Fuzzy.rowObject headers rowVals !! h = Some (default "" (rowVals !! c)).
Proof.
  induction headers as [|h' headers IH] using rev_ind; [done|].
  intros [Hnd [Hdisj _]]%NoDup_app Hc Hp. rewrite fuzzy_rowObject_snoc.
  unfold Fuzzy.setProperty.
  apply lookup_app_Some in Hc as [Hh|[Hc Hh]].
  - assert (h' <> h) as Hne
      by (intros ->; apply (Hdisj h); [by eapply list_elem_of_lookup_2|left]).
    destruct (String.eqb h' "__proto__"); [by apply IH|].
    rewrite lookup_insert_ne; [by apply IH|done].
  - destruct (c - length headers)%nat eqn:E; simplify_eq/=.
    replace c with (length headers) by lia.
    destruct (String.eqb_spec h "__proto__"); [done|]. by rewrite lookup_insert_eq.
Qed.

End RecordFacts.

(** X12. The records that the CSV store's [parseCSV] returns for a text
    have canonical names (lower case, no white space, no underscore) and
    trimmed values, and every record has the names of every other. *)
Theorem csv_parseCSV_record_shape (text : string) :
  (forall r k v, r ∈ CsvDb.parseCSV text -> r !! k = Some v ->
                 CsvDb.canonicalHeader k = k /\ Js.trim v = v)
  /\ (forall r r' k, r ∈ CsvDb.parseCSV text -> r' ∈ CsvDb.parseCSV text ->
                     is_Some (r !! k) -> is_Some (r' !! k)).
Proof.
  unfold CsvDb.parseCSV.
  destruct (CsvDb.popBlankRows _) as [|rawHeaders body];
    [split; intros; by apply elem_of_nil in H|].
  change (map ?f body) with (f <$> body). split.
  - intros r k v (line & -> & _)%list_elem_of_fmap Hk. split.
    + assert (k ∈ map CsvDb.canonicalHeader rawHeaders) as Hin
        by (eapply proj1, (RecordFacts.csv_rowObject_keys _ line); eauto).
      change (map ?f ?l) with (f <$> l) in Hin.
      apply list_elem_of_fmap in Hin as (h & -> & _).
      apply RecordFacts.canonicalHeader_idem.
    + by eapply RecordFacts.csv_rowObject_trimmed.
  - intros r r' k (line & -> & _)%list_elem_of_fmap (line' & -> & _)%list_elem_of_fmap.
    by rewrite !RecordFacts.csv_rowObject_keys.
Qed.

(** X13. Under headers that are all different, the record of a line holds
    under the header of column [c] the cell [c] of the line, and the empty
    string when the line is too short: trimmed in the CSV store, as it is in
    the fuzzy engine. The header [__proto__] is the exception: the record
    is an object literal, and under that name it stores no property. *)
Theorem rowObject_cells (headers line : list string) (c : nat) (h : string) :
  NoDup headers -> headers !! c = Some h ->
  (h <> "__proto__" ->
   CsvDb.rowObject headers line !! h = Some (Js.trim (default "" (line !! c)))
   /\ Fuzzy.rowObject headers line !! h = Some (default "" (line !! c)))
  /\ CsvDb.rowObject headers line !! "__proto__" = None
  /\ Fuzzy.rowObject headers line !! "__proto__" = None.
Proof.
  intros Hnd Hc. split; [intros Hp; split|split].
  - by apply RecordFacts.csv_rowObject_cell.
  - by apply RecordFacts.fuzzy_rowObject_cell.
  - apply eq_None_not_Some. by intros [_ ?]%RecordFacts.csv_rowObject_keys.
  - apply eq_None_not_Some. by intros [_ ?]%RecordFacts.fuzzy_rowObject_keys.
Qed.

(** X13, on a line that is one cell short, under headers that hold
    [__proto__]. *)
Lemma rowObject_cells_witness :
  let headers := ["id"; "__proto__"; "order"] in
  let line := [" S1 "; "Door"] in
  (CsvDb.rowObject headers line !! "order" = Some ""
   /\ Fuzzy.rowObject headers line !! "order" = Some "")
  /\ CsvDb.rowObject headers line !! "__proto__" = None
  /\ Fuzzy.rowObject headers line !! "__proto__" = None.
Proof.
  intros headers line.
  destruct (rowObject_cells headers line 2 "order") as [Hcell Hproto].
  - compute_done.
  - reflexivity.
  - split; [by apply Hcell|exact Hproto].
Defined.

(** ** The accessors of the CSV store *)

Module LookupFacts.

Import CsvDb Select.

Lemma last_filter_snoc {A} (f : A -> bool) l x :
  last (List.filter f (l ++ [x])) = if f x then Some x else last (List.filter f l).
Proof.
  rewrite List.filter_app. simpl.
  destruct (f x); [by rewrite last_snoc|by rewrite app_nil_r].
Qed.

Lemma head_filter_snoc {A} (f : A -> bool) l x :
  head (List.filter f (l ++ [x]))
  = match head (List.filter f l) with
    | Some y => Some y
    | None => if f x then Some x else None
    end.
Proof.
  rewrite List.filter_app. simpl.
  destruct (List.filter f l); simpl; [|done]. by destruct (f x).
Qed.

Lemma filter_ext_eq {A} (f g : A -> bool) l :
  (forall x, f x = g x) -> List.filter f l = List.filter g l.
Proof. intros H. apply List.filter_ext. done. Qed.

Lemma last_filter_elem {A} (f : A -> bool) l x :
  last (List.filter f l) = Some x -> x ∈ l /\ f x = true.
Proof.
  intros H. apply CsvFacts.elem_of_filter.
  apply last_Some in H as [l' ->]. apply elem_of_app. right. by left.
Qed.

Lemma last_filter_none {A} (f : A -> bool) l :
  last (List.filter f l) = None <-> forall x, x ∈ l -> f x = false.
Proof.
  rewrite last_None. split.
  - intros H x Hx. destruct (f x) eqn:E; [|done].
    assert (x ∈ List.filter f l) as Hin by by apply CsvFacts.elem_of_filter.
    rewrite H in Hin. by apply elem_of_nil in Hin.
  - intros H. destruct (List.filter f l) as [|x l'] eqn:E; [done|].
    assert (x ∈ List.filter f l) as Hin by (rewrite E; left).
    apply CsvFacts.elem_of_filter in Hin as [Hx Hf]. rewrite (H x Hx) in Hf. done.
Qed.

(** The test that an entity filed under [k] when [s] is set is filed under [k']. *)
Lemma key_if_bool (s k k' : string) :
  bool_decide (k' ∈ (if Js.truthy s then [k] else [])) = Js.truthy s && String.eqb k k'.
Proof.
  destruct (Js.truthy s) eqn:E; simpl.
  - destruct (String.eqb_spec k k') as [->|Hne].
    + apply bool_decide_eq_true_2. left.
    + apply bool_decide_eq_false_2. by intros ->%list_elem_of_singleton.
  - done.
Qed.

Section KeyIndex.

Context {A : Type}.
Variable keys : A -> list string.

(** An index built by a loop of [ix[k] = x]: the last entity filed under a
    key is the one found. *)
Lemma lookup_index_last l ix k :
  foldl (IndexFacts.insertAll keys) ix l !! k
  = match last (List.filter (fun x => bool_decide (k ∈ keys x)) l) with
    | Some y => Some y
    | None => ix !! k
    end.
Proof.
  induction l as [|x l IH] using rev_ind; [done|].
  rewrite foldl_snoc, last_filter_snoc, IndexFacts.lookup_insertAll, IH.
  case_decide as Hk.
  - by rewrite bool_decide_eq_true_2.
  - by rewrite bool_decide_eq_false_2.
Qed.

End KeyIndex.

(** The same for a property list. *)
Lemma get_index_last {A} (keyOf : A -> string) l o k :
  JsObject.get (foldl (fun o x => JsObject.set o (keyOf x) x) o l) k
  = match last (List.filter (fun x => String.eqb (keyOf x) k) l) with
    | Some y => Some y
    | None => JsObject.get o k
    end.
Proof.
  induction l as [|x l IH] using rev_ind; [done|].
  rewrite foldl_snoc, last_filter_snoc, IndexFacts.get_set, IH.
  destruct (String.eqb_spec (keyOf x) k) as [->|Hne].
  - by rewrite decide_True.
  - by rewrite decide_False.
Qed.

Lemma foldl_indexSchematic_fst ss ix :
  (foldl indexSchematic ix ss).1
  = foldl (fun o s => JsObject.set o (Schematic.id s) s) ix.1 ss.
Proof.
  revert ix. induction ss as [|s ss IH]; intros ix; simpl; [done|]. by rewrite IH.
Qed.

Lemma foldl_indexSchematic_snd ss ix :
  (foldl indexSchematic ix ss).2
  = foldl (fun o s => pushTo (Schematic.modelId s) s o) ix.2 ss.
Proof.
  revert ix. induction ss as [|s ss IH]; intros ix; simpl; [done|]. by rewrite IH.
Qed.

(** [modelsById]: an id beats a model number; among ids the last row wins,
    among model numbers the first. *)
Lemma lookup_modelsById ms k :
  (foldl indexModel (∅, ∅) ms).1 !! k
  = orLookup (last (List.filter (hasId k) ms)) (head (List.filter (hasNumber k) ms)).
Proof.
  induction ms as [|m ms IH] using rev_ind; [done|].
  rewrite foldl_snoc, last_filter_snoc, head_filter_snoc.
  destruct (foldl indexModel (∅, ∅) ms) as [byId byNumber]. cbn [fst] in IH.
  set (L := last _) in *. set (H := head _) in *. clearbody L H.
  unfold indexModel, hasId, hasNumber; cbn [fst snd].
  destruct (Js.truthy (Model.id m)), (Js.truthy (Model.modelNumber m));
    cbn [fst andb];
    destruct (String.eqb_spec (Model.id m) k), (String.eqb_spec (Model.modelNumber m) k);
    repeat case_match; rewrite ?lookup_insert in *; repeat case_decide;
    destruct L, H; simplify_eq/=; congruence.
Qed.

Section Build.

Variable localeCompare : string -> string -> Z.
Variables modelsRows schemsRows linksRows partsRows : list Row.

Let db : Catalog := build localeCompare modelsRows schemsRows linksRows partsRows.

Lemma lookup_modelsByNumber q :
  modelsByNumber db !! norm q = last (List.filter (numberIs q) (models db)).
Proof.
  unfold db, build; cbn [modelsByNumber models].
  rewrite CsvFacts.foldl_indexModel_snd, lookup_index_last; cbn [snd].
  rewrite lookup_empty.
  rewrite (filter_ext_eq _ (numberIs q)); [by destruct (last _)|].
  intros m. apply key_if_bool.
Qed.

Lemma lookup_modelsById_build k :
  modelsById db !! k
  = orLookup (last (List.filter (hasId k) (models db)))
             (head (List.filter (hasNumber k) (models db))).
Proof. apply lookup_modelsById. Qed.

Lemma lookupPart_build x :
  lookupPart db x
  = orLookup (last (List.filter (partIdIs x) (parts db)))
      (orLookup (last (List.filter (partIdLike x) (parts db)))
                (last (List.filter (partNumberLike x) (parts db)))).
Proof.
  unfold lookupPart, db, build; cbn [partsById partsByIdLower partsByNumber parts].
  rewrite CsvFacts.foldl_indexPart; cbn [fst snd].
  rewrite !lookup_index_last, !lookup_empty.
  rewrite (filter_ext_eq (fun p => bool_decide (x ∈ CsvFacts.partIdKeys p)) (partIdIs x))
    by (intros p; apply key_if_bool).
  rewrite (filter_ext_eq (fun p => bool_decide (norm x ∈ CsvFacts.partIdLowerKeys p))
             (partIdLike x)) by (intros p; apply key_if_bool).
  rewrite (filter_ext_eq (fun p => bool_decide (norm x ∈ CsvFacts.partNumberKeys p))
             (partNumberLike x)) by (intros p; apply key_if_bool).
  by repeat destruct (last _).
Qed.

Lemma get_schemsById k :
  JsObject.get (schemsById db) k = last (List.filter (schematicIdIs k) (schematics db)).
Proof.
  unfold db, build; cbn [schemsById schematics].
  rewrite foldl_indexSchematic_fst, get_index_last; cbn [fst].
  by destruct (last _).
Qed.

End Build.

Lemma partIdIs_Like x p : partIdIs x p = true -> partIdLike x p = true.
Proof.
  unfold partIdIs, partIdLike. intros [-> ->%String.eqb_eq]%andb_prop.
  by rewrite String.eqb_refl.
Qed.

Lemma part_matches x p :
  Spec.csvPartMatches p x <-> partIdLike x p = true \/ partNumberLike x p = true.
Proof.
  unfold Spec.csvPartMatches, partIdLike, partNumberLike.
  by rewrite !andb_true_iff, !JsFacts.truthy_true, !String.eqb_eq.
Qed.

Lemma model_matches q m : Spec.csvModelMatches m q <-> numberIs q m = true.
Proof.
  unfold Spec.csvModelMatches, numberIs.
  by rewrite andb_true_iff, JsFacts.truthy_true, String.eqb_eq.
Qed.

(** A successful load leaves the catalog it built in the cache. *)
Lemma loaded localeCompare env db c :
  load localeCompare env None = (inr db, c) ->
  c = Some db /\ exists mr sr lr pr, db = build localeCompare mr sr lr pr.
Proof.
  intros (t1 & t2 & t3 & t4 & _ & _ & _ & _ & -> & ->)%CsvFacts.load_build. eauto 10.
Qed.

End LookupFacts.

(** X14. After a successful load, [getModelByNumberOrAlias(q)] returns the
    last model of models.csv whose model number is [q] up to case and
    surrounding white space, and null when there is none: of rows that
    repeat a model number the last one wins. No file is fetched again. *)
Theorem getModelByNumberOrAlias_last_row localeCompare env db c env' q :
  CsvDb.load localeCompare env None = (inr db, c) ->
  CsvDb.getModelByNumberOrAlias localeCompare env' c q
  = (inr (last (List.filter (Select.numberIs q) (CsvDb.models db))), c).
Proof.
  intros [-> (mr & sr & lr & pr & ->)]%LookupFacts.loaded.
  unfold CsvDb.getModelByNumberOrAlias, CsvDb.withDb, CsvDb.load.
  by rewrite LookupFacts.lookup_modelsByNumber.
Qed.

(** X14, on a catalog in which two models have the model number ACM-100:
    the second one is returned, also when the files can no longer be
    fetched. *)
Lemma getModelByNumberOrAlias_last_row_witness :
  exists db c,
    CsvDb.load Fixtures.byteCompare Fixtures.repeatedCatalog None = (inr db, c)
    /\ CsvDb.getModelByNumberOrAlias Fixtures.byteCompare Fixtures.offline c " ACM-100 "
       = (inr (last (List.filter (Select.numberIs " ACM-100 ") (CsvDb.models db))), c)
    /\ CsvDb.Model.id <$> last (List.filter (Select.numberIs " ACM-100 ") (CsvDb.models db))
       = Some "M2".
Proof.
  eexists _, _. split; [reflexivity|]. split; [|by vm_compute].
  apply (getModelByNumberOrAlias_last_row Fixtures.byteCompare Fixtures.repeatedCatalog).
  reflexivity.
Defined.

(** X15. After a successful load, [getModelById(id)] returns the last model
    whose id is [id]; when no model has that id, the first model whose model
    number is [id] exactly; and null when there is neither: an id always
    beats the model-number alias. *)
Theorem getModelById_id_before_alias localeCompare env db c env' id :
  CsvDb.load localeCompare env None = (inr db, c) ->
  CsvDb.getModelById localeCompare env' c id
  = (inr (CsvDb.orLookup
            (last (List.filter (Select.hasId id) (CsvDb.models db)))
            (head (List.filter (Select.hasNumber id) (CsvDb.models db)))), c).
Proof.
  intros [-> (mr & sr & lr & pr & ->)]%LookupFacts.loaded.
  unfold CsvDb.getModelById, CsvDb.withDb, CsvDb.load.
  by rewrite LookupFacts.lookup_modelsById_build.
Qed.

(** X15, on a catalog in which ACM-100 is the id of one model and the model
    number of another: the model with that id is returned. *)
Lemma getModelById_id_before_alias_witness :
  exists db c,
    CsvDb.load Fixtures.byteCompare Fixtures.repeatedCatalog None = (inr db, c)
    /\ CsvDb.getModelById Fixtures.byteCompare Fixtures.offline c "ACM-100"
       = (inr (CsvDb.orLookup
                 (last (List.filter (Select.hasId "ACM-100") (CsvDb.models db)))
                 (head (List.filter (Select.hasNumber "ACM-100") (CsvDb.models db)))), c)
    /\ CsvDb.Model.brand
         <$> CsvDb.orLookup
               (last (List.filter (Select.hasId "ACM-100") (CsvDb.models db)))
               (head (List.filter (Select.hasNumber "ACM-100") (CsvDb.models db)))
       = Some "Zed".
Proof.
  eexists _, _. split; [reflexivity|]. split; [|by vm_compute].
  apply (getModelById_id_before_alias Fixtures.byteCompare Fixtures.repeatedCatalog).
  reflexivity.
Defined.

(** X16. After a successful load, [getPartByIdOrNumber(x)] returns the
    last part whose id is exactly [x]; else the last part whose id is [x] up
    to case and surrounding white space; else the last part whose number is;
    and null when there is none. *)
Theorem getPartByIdOrNumber_precedence localeCompare env db c env' x :
  CsvDb.load localeCompare env None = (inr db, c) ->
  CsvDb.getPartByIdOrNumber localeCompare env' c x
  = (inr (CsvDb.orLookup
            (last (List.filter (Select.partIdIs x) (CsvDb.parts db)))
            (CsvDb.orLookup
               (last (List.filter (Select.partIdLike x) (CsvDb.parts db)))
               (last (List.filter (Select.partNumberLike x) (CsvDb.parts db))))), c).
Proof.
  intros [-> (mr & sr & lr & pr & ->)]%LookupFacts.loaded.
  unfold CsvDb.getPartByIdOrNumber, CsvDb.withDb, CsvDb.load.
  by rewrite LookupFacts.lookupPart_build.
Qed.

(** X16, on a catalog with the parts P1 and p1: the query [p1] is the part
    p1, by its exact id. *)
Lemma getPartByIdOrNumber_precedence_witness :
  exists db c,
    CsvDb.load Fixtures.byteCompare Fixtures.repeatedCatalog None = (inr db, c)
    /\ CsvDb.getPartByIdOrNumber Fixtures.byteCompare Fixtures.offline c "p1"
       = (inr (CsvDb.orLookup
                 (last (List.filter (Select.partIdIs "p1") (CsvDb.parts db)))
                 (CsvDb.orLookup
                    (last (List.filter (Select.partIdLike "p1") (CsvDb.parts db)))
                    (last (List.filter (Select.partNumberLike "p1") (CsvDb.parts db))))), c)
    /\ CsvDb.Part.number <$> CsvDb.lookupPart db "p1" = Some "PN-2".
Proof.
  eexists _, _. split; [reflexivity|]. split; [|by vm_compute].
  apply (getPartByIdOrNumber_precedence Fixtures.byteCompare Fixtures.repeatedCatalog).
  reflexivity.
Defined.

(** X17. After a successful load, [getSchematicById(id)] returns the last
    schematic of schematics.csv whose id is [id], and null when there is
    none. *)
Theorem getSchematicById_last_row localeCompare env db c env' id :
  CsvDb.load localeCompare env None = (inr db, c) ->
  CsvDb.getSchematicById localeCompare env' c id
  = (inr (last (List.filter (Select.schematicIdIs id) (CsvDb.schematics db))), c).
Proof.
  intros [-> (mr & sr & lr & pr & ->)]%LookupFacts.loaded.
  unfold CsvDb.getSchematicById, CsvDb.withDb, CsvDb.load.
  by rewrite LookupFacts.get_schemsById.
Qed.

(** X17, on a catalog in which two schematics have the id S1: the second
    one, named Panel, is returned. *)
Lemma getSchematicById_last_row_witness :
  exists db c,
    CsvDb.load Fixtures.byteCompare Fixtures.repeatedCatalog None = (inr db, c)
    /\ CsvDb.getSchematicById Fixtures.byteCompare Fixtures.offline c "S1"
       = (inr (last (List.filter (Select.schematicIdIs "S1") (CsvDb.schematics db))), c)
    /\ CsvDb.Schematic.name
         <$> last (List.filter (Select.schematicIdIs "S1") (CsvDb.schematics db))
       = Some "Panel".
Proof.
  eexists _, _. split; [reflexivity|]. split; [|by vm_compute].
  apply (getSchematicById_last_row Fixtures.byteCompare Fixtures.repeatedCatalog).
  reflexivity.
Defined.

(** ** What the exact lookups return *)

Module ResolveFacts.

Import CsvDb LookupFacts Select.

(** Property lists: what [Object.values] enumerates. *)
Lemma values_Permutation {V} (o : JsObject.t V) : JsObject.values o ≡ₚ map snd o.
Proof.
  unfold JsObject.values. apply Permutation_map.
  rewrite SortFacts.sort_Permutation.
  induction o as [|kv o IH]; simpl; [done|].
  destruct (JsObject.isIndex kv); simpl; [by apply perm_skip|].
  etrans; [symmetry; apply Permutation_middle|]. by apply perm_skip.
Qed.

Lemma get_Some_elem {V} (o : JsObject.t V) k v :
  JsObject.get o k = Some v -> (k, v) ∈ o.
Proof.
  induction o as [|[k' v'] o IH]; simpl; [done|].
  destruct (String.eqb_spec k' k) as [->|Hne].
  - intros [= ->]. left.
  - intros H. right. by apply IH.
Qed.

Lemma keys_set {V} (o : JsObject.t V) k v :
  map fst (JsObject.set o k v)
  = if bool_decide (k ∈ map fst o) then map fst o else (map fst o ++ [k])%list.
Proof.
  induction o as [|[k' v'] o IH]; simpl; [done|].
  destruct (String.eqb_spec k' k) as [->|Hne]; simpl.
  - rewrite bool_decide_eq_true_2; [done|left].
  - rewrite IH. case_bool_decide as Hin.
    + rewrite bool_decide_eq_true_2; [done|by right].
    + rewrite bool_decide_eq_false_2; [done|].
      intros [?|?]%elem_of_cons; congruence.
Qed.

Lemma NoDup_keys_set {V} (o : JsObject.t V) k v :
  NoDup (map fst o) -> NoDup (map fst (JsObject.set o k v)).
Proof.
  intros Ho. rewrite keys_set. case_bool_decide as Hin; [done|].
  apply NoDup_app. split; [done|]. split; [|apply NoDup_singleton].
  intros x Hx ->%list_elem_of_singleton. done.
Qed.

Lemma elem_get {V} (o : JsObject.t V) k v :
  NoDup (map fst o) -> (k, v) ∈ o -> JsObject.get o k = Some v.
Proof.
  induction o as [|[k' v'] o IH]; simpl; [by intros _ ?%elem_of_nil|].
  intros [Hk' Ho]%NoDup_cons [[= -> ->]|Hin]%elem_of_cons.
  - by rewrite String.eqb_refl.
  - destruct (String.eqb_spec k' k) as [->|Hne]; [|by apply IH].
    destruct Hk'. change (map fst o) with (fst <$> o).
    apply list_elem_of_fmap. by exists (k, v).
Qed.

Lemma elem_of_values {V} (o : JsObject.t V) v :
  NoDup (map fst o) -> v ∈ JsObject.values o <-> exists k, JsObject.get o k = Some v.
Proof.
  intros Ho. rewrite values_Permutation.
  change (map snd o) with (snd <$> o). rewrite list_elem_of_fmap. split.
  - intros ([k v'] & -> & Hin). exists k. by apply elem_get.
  - intros [k Hk%get_Some_elem]. by exists (k, v).
Qed.

Lemma find_Some_elem {A} (f : A -> bool) l x :
  JsArray.find f l = Some x -> x ∈ l /\ f x = true.
Proof.
  unfold JsArray.find. intros [H1 H2]%List.find_some. by rewrite list_elem_of_In.
Qed.

Lemma find_None_elem {A} (f : A -> bool) l :
  JsArray.find f l = None -> forall x, x ∈ l -> f x = false.
Proof.
  unfold JsArray.find. intros H x Hx. apply (List.find_none _ _ H).
  by rewrite <- list_elem_of_In.
Qed.

Section Build.

Variable localeCompare : string -> string -> Z.
Variables modelsRows schemsRows linksRows partsRows : list Row.

Let db : Catalog := build localeCompare modelsRows schemsRows linksRows partsRows.

Lemma NoDup_schemsById : NoDup (map fst (schemsById db)).
Proof.
  unfold db, build; cbn [schemsById]. rewrite foldl_indexSchematic_fst; cbn [fst].
  apply (IndexFacts.foldl_invariant (fun o => NoDup (map fst o))).
  - constructor.
  - intros o s _ Ho. by apply NoDup_keys_set.
Qed.

Lemma lookupPart_Some x p :
  lookupPart db x = Some p -> p ∈ parts db /\ Spec.csvPartMatches p x.
Proof.
  unfold db. rewrite lookupPart_build. rewrite part_matches.
  destruct (last (List.filter (partIdIs x) _)) eqn:E1; cbn [orLookup].
  { intros [= ->]. apply last_filter_elem in E1 as [? ?%partIdIs_Like]. auto. }
  destruct (last (List.filter (partIdLike x) _)) eqn:E2; cbn [orLookup].
  { intros [= ->]. apply last_filter_elem in E2 as [? ?]. auto. }
  intros [? ?]%last_filter_elem. auto.
Qed.

Lemma lookupPart_None x :
  lookupPart db x = None -> forall p, p ∈ parts db -> ~ Spec.csvPartMatches p x.
Proof.
  unfold db. rewrite lookupPart_build.
  destruct (last (List.filter (partIdIs x) _)) eqn:E1; cbn [orLookup]; [done|].
  destruct (last (List.filter (partIdLike x) _)) eqn:E2; cbn [orLookup]; [done|].
  intros E3 p Hp [H|H]%part_matches.
  - rewrite last_filter_none in E2. rewrite (E2 p Hp) in H. done.
  - rewrite last_filter_none in E3. rewrite (E3 p Hp) in H. done.
Qed.

(** What the three lookups of [runSearch] return. *)
Lemma resolveExact_outcome q :
  match resolveExact db q with
  | ModelMatch m => m ∈ models db /\ Spec.csvModelMatches m q
  | PartMatch p =>
      (forall m, m ∈ models db -> ~ Spec.csvModelMatches m q)
      /\ p ∈ parts db /\ Spec.csvPartMatches p q
  | SchematicMatch s =>
      (forall m, m ∈ models db -> ~ Spec.csvModelMatches m q)
      /\ (forall p, p ∈ parts db -> ~ Spec.csvPartMatches p q)
      /\ s ∈ schematics db
      /\ JsObject.get (schemsById db) (Schematic.id s) = Some s
      /\ (Schematic.id s = q \/ norm (Schematic.name s) = norm q)
  | NoMatch =>
      (forall m, m ∈ models db -> ~ Spec.csvModelMatches m q)
      /\ (forall p, p ∈ parts db -> ~ Spec.csvPartMatches p q)
      /\ (forall s, s ∈ schematics db -> Schematic.id s <> q)
      /\ (forall s, JsObject.get (schemsById db) (Schematic.id s) = Some s ->
                    norm (Schematic.name s) <> norm q)
  end.
Proof.
  pose proof (get_schemsById localeCompare modelsRows schemsRows linksRows partsRows)
    as get_schemsById.
  fold db in get_schemsById.
  pose proof (lookup_modelsByNumber localeCompare modelsRows schemsRows linksRows
                partsRows q) as Hnum.
  fold db in Hnum. unfold resolveExact. rewrite Hnum. clear Hnum.
  destruct (last (List.filter (numberIs q) _)) as [m|] eqn:Em.
  { apply last_filter_elem in Em as [? ?%model_matches]. done. }
  assert (forall m, m ∈ models db -> ~ Spec.csvModelMatches m q) as Hm.
  { intros m Hin Hq%model_matches. rewrite last_filter_none in Em.
    rewrite (Em m Hin) in Hq. done. }
  fold (lookupPart db q). destruct (lookupPart db q) as [p|] eqn:Ep.
  { apply lookupPart_Some in Ep. done. }
  pose proof (lookupPart_None _ Ep) as Hp.
  rewrite get_schemsById.
  destruct (last (List.filter (schematicIdIs q) _)) as [s|] eqn:Es; cbn [orLookup].
  { pose proof Es as Es'. rewrite <- get_schemsById in Es'.
    apply last_filter_elem in Es as [? ->%String.eqb_eq]. auto 10. }
  rewrite last_filter_none in Es.
  destruct (JsArray.find _ _) as [s|] eqn:Ef.
  - apply find_Some_elem in Ef as [Hin Hname%String.eqb_eq].
    apply elem_of_values in Hin as [k Hk]; [|apply NoDup_schemsById].
    pose proof Hk as Hk'. rewrite get_schemsById in Hk'.
    apply last_filter_elem in Hk' as [Hs ->%String.eqb_eq]. auto 10.
  - do 2 (split; [done|]). split.
    + intros s Hs Hid. specialize (Es s Hs). unfold schematicIdIs in Es.
      rewrite Hid, String.eqb_refl in Es. done.
    + intros s Hs Hname.
      assert (s ∈ JsObject.values (schemsById db)) as Hin.
      { apply elem_of_values; [apply NoDup_schemsById|]. eauto. }
      pose proof (find_None_elem _ _ Ef s Hin) as Hf. simpl in Hf.
      rewrite Hname, String.eqb_refl in Hf. done.
Qed.

End Build.

End ResolveFacts.

Module FuzzyResolveFacts.

Import Fuzzy FuzzyFacts LookupFacts.

Section Keys.

Context {A : Type}.
Variable keys : A -> list string.

Lemma index_Some l k x :
  foldl (IndexFacts.insertAll keys) ∅ l !! k = Some x -> x ∈ l /\ k ∈ keys x.
Proof.
  rewrite lookup_index_last, lookup_empty.
  destruct (last _) as [y|] eqn:E; [|done]. intros [= ->].
  apply last_filter_elem in E as [? ?%bool_decide_eq_true]. done.
Qed.

Lemma index_None l k :
  foldl (IndexFacts.insertAll keys) ∅ l !! k = None -> forall x, x ∈ l -> k ∉ keys x.
Proof.
  rewrite lookup_index_last, lookup_empty.
  destruct (last _) as [y|] eqn:E; [done|]. intros _ x Hx.
  rewrite last_filter_none in E. specialize (E x Hx).
  by apply bool_decide_eq_false in E.
Qed.

End Keys.

Lemma indexSchematic_keys ix s :
  indexSchematic ix s = IndexFacts.insertAll schematicKeys ix s.
Proof.
  unfold indexSchematic, IndexFacts.insertAll, schematicKeys.
  by destruct (Js.truthy (Schematic.id s)).
Qed.

Definition schematicMatches (s : Schematic.t) (q : string) : Prop :=
  Schematic.id s <> "" /\ key (Schematic.id s) = key q.

Section Build.

Variables modelRows schemRows partRows : list Row.

Let db : DB := build modelRows schemRows partRows.

Lemma fuzzy_resolveExact_outcome q :
  match resolveExact db (key q) with
  | ModelMatch m => m ∈ models db /\ Spec.fuzzyModelMatches m q
  | PartMatch p =>
      (forall m, m ∈ models db -> ~ Spec.fuzzyModelMatches m q)
      /\ p ∈ parts db /\ Spec.fuzzyPartMatches p q
  | SchematicMatch s =>
      (forall m, m ∈ models db -> ~ Spec.fuzzyModelMatches m q)
      /\ (forall p, p ∈ parts db -> ~ Spec.fuzzyPartMatches p q)
      /\ s ∈ schematics db /\ schematicMatches s q
  | NoMatch =>
      (forall m, m ∈ models db -> ~ Spec.fuzzyModelMatches m q)
      /\ (forall p, p ∈ parts db -> ~ Spec.fuzzyPartMatches p q)
      /\ (forall s, s ∈ schematics db -> ~ schematicMatches s q)
  end.
Proof.
  unfold resolveExact, db, build;
    cbn [ix modelByKey partByIdKey partByNumberKey schematicByKey models parts schematics].
  rewrite (foldl_fun_ext _ _ _ _ indexModel_keys),
    (foldl_fun_ext _ _ _ _ indexPartId_keys),
    (foldl_fun_ext _ _ _ _ indexPartNumber_keys),
    (foldl_fun_ext _ _ _ _ indexSchematic_keys).
  destruct (foldl (IndexFacts.insertAll modelKeys) _ _ !! key q) as [m|] eqn:Em.
  { apply index_Some in Em as [? ?%modelKeys_matches]. done. }
  assert (forall m, m ∈ map mkModel modelRows -> ~ Spec.fuzzyModelMatches m q) as Hm.
  { intros m Hin Hq%modelKeys_matches. by apply (index_None _ _ _ Em m Hin). }
  destruct (foldl (IndexFacts.insertAll partNumberKeys) _ _ !! key q) as [p|] eqn:En.
  { apply index_Some in En as [? ?]. split; [done|]. split; [done|].
    apply partKeys_matches. by left. }
  destruct (foldl (IndexFacts.insertAll partIdKeys) _ _ !! key q) as [p|] eqn:Ei.
  { apply index_Some in Ei as [? ?]. split; [done|]. split; [done|].
    apply partKeys_matches. by right. }
  assert (forall p, p ∈ map mkPart partRows -> ~ Spec.fuzzyPartMatches p q) as Hp.
  { intros p Hin [Hq|Hq]%partKeys_matches.
    - by apply (index_None _ _ _ En p Hin).
    - by apply (index_None _ _ _ Ei p Hin). }
  destruct (foldl (IndexFacts.insertAll schematicKeys) _ _ !! key q) as [s|] eqn:Es.
  { apply index_Some in Es as [? ?%IndexFacts.elem_of_key_if]. done. }
  do 2 (split; [done|]). intros s Hin Hq%IndexFacts.elem_of_key_if.
  by apply (index_None _ _ _ Es s Hin).
Qed.

End Build.

End FuzzyResolveFacts.

(** ** The listings of the CSV store *)

Module ListingFacts.

Import CsvDb LookupFacts Select.

Lemma StronglySorted_weaken {A} (R R' : A -> A -> Prop) l :
  (forall a b, R a b -> R' a b) -> StronglySorted R l -> StronglySorted R' l.
Proof.
  intros HR. induction 1 as [|x l Hl IH Hx]; constructor; [done|].
  eapply Forall_impl; [exact Hx|]. intros y. apply HR.
Qed.

Section Schematics.

Variable localeCompare : string -> string -> Z.
Hypothesis collation : Spec.StrictCollation localeCompare.

Lemma compareSchematics_asym a b :
  comesAfter (compareSchematics localeCompare) a b = true ->
  comesAfter (compareSchematics localeCompare) b a = false.
Proof.
  destruct collation as (_ & Hanti & _).
  unfold comesAfter, compareSchematics. rewrite Z.ltb_lt, Z.ltb_ge.
  pose proof (Hanti (Schematic.id a) (Schematic.id b)).
  pose proof (Hanti (Schematic.id b) (Schematic.id a)).
  repeat case_match; lia.
Qed.

Lemma compareSchematics_trans a b c :
  SortFacts.before (comesAfter (compareSchematics localeCompare)) a b ->
  SortFacts.before (comesAfter (compareSchematics localeCompare)) b c ->
  SortFacts.before (comesAfter (compareSchematics localeCompare)) a c.
Proof.
  destruct collation as (_ & _ & Htrans).
  unfold SortFacts.before, comesAfter, compareSchematics. rewrite !Z.ltb_ge.
  pose proof (Htrans (Schematic.id a) (Schematic.id b) (Schematic.id c)).
  repeat case_match; lia.
Qed.

Lemma compareSchematics_ascending a b :
  SortFacts.before (comesAfter (compareSchematics localeCompare)) a b ->
  schematicAscending localeCompare a b.
Proof.
  unfold SortFacts.before, comesAfter, compareSchematics, schematicAscending.
  rewrite Z.ltb_ge. repeat case_match; lia.
Qed.

End Schematics.

Lemma schemsByModel_lookup localeCompare mr sr lr pr mid :
  default [] (schemsByModel (build localeCompare mr sr lr pr) !! mid)
  = JsArray.sort (comesAfter (compareSchematics localeCompare))
      (List.filter (ofModel mid) (List.filter keepSchematic (map mkSchematic sr))).
Proof.
  unfold build; cbn [schemsByModel]. rewrite CsvFacts.lookup_sorted. f_equal.
  rewrite foldl_indexSchematic_snd; cbn [snd].
  rewrite (IndexFacts.lookup_group Schematic.modelId). by rewrite lookup_empty.
Qed.

End ListingFacts.





(** ** The exact resolver of the CSV store *)

Module RouteFacts.

Import Js Text.

Lemma hexDigit_safe n : (n < 16)%N -> uriSafe (hexDigit n) = true.
Proof.
  intros Hn.
  assert (forallb (fun k => uriSafe (hexDigit (N.of_nat k))) (List.seq 0 16) = true) as H
    by by vm_compute.
  rewrite forallb_forall in H. specialize (H (N.to_nat n)).
  rewrite N2Nat.id in H. apply H. apply in_seq. lia.
Qed.

Lemma encodeURIComponent_safe s : allChars uriSafe (encodeURIComponent s) = true.
Proof.
  induction s as [|c s IH]; simpl; [done|].
  destruct (uriUnreserved c) eqn:Hc; simpl.
  - unfold uriSafe at 1. by rewrite Hc.
  - rewrite !hexDigit_safe, IH; [done| |].
    + apply N.mod_lt. done.
    + apply N.Div0.div_lt_upper_bound. unfold code.
      pose proof (N_ascii_bounded c). lia.
Qed.

Lemma routeTo_encoded pages page x :
  page ∈ pages -> routeTo pages (page ++ "?id=" ++ encodeURIComponent x).
Proof.
  intros Hpage. exists page, (encodeURIComponent x).
  split; [done|]. split; [done|]. apply encodeURIComponent_safe.
Qed.

End RouteFacts.

(** X20. After a successful load, the CSV store's [runSearch] on a query
    that is not blank does exactly one of four things. It goes to the page
    of a model whose model number is the query up to case and surrounding
    white space. Or no model matches and it goes to the page of a part whose
    id or number is. Or no model and no part matches and it goes to the page
    of a schematic whose id is the trimmed query or whose name is the query
    up to case, that schematic being the last row of its id. Or it alerts
    that there is no exact match, and then no model and no part matches, no
    schematic has the trimmed query as its id, and no schematic that is the
    last row of its id has the query as its name. *)
Theorem csv_runSearch_outcome localeCompare env db c env' raw :
  CsvDb.load localeCompare env None = (inr db, c) ->
  Js.trim raw <> "" ->
  let q := Js.trim raw in
  let noModel := forall m, m ∈ CsvDb.models db -> ~ Spec.csvModelMatches m q in
  let noPart := forall p, p ∈ CsvDb.parts db -> ~ Spec.csvPartMatches p q in
  (exists m,
      m ∈ CsvDb.models db /\ Spec.csvModelMatches m q
      /\ CsvDb.runSearch localeCompare env' c (Some raw)
         = ([CsvDb.SetLocation
               ("model.html?id=" ++ Js.encodeURIComponent (CsvDb.Model.modelNumber m))], c))
  \/ (exists p,
        noModel /\ p ∈ CsvDb.parts db /\ Spec.csvPartMatches p q
        /\ CsvDb.runSearch localeCompare env' c (Some raw)
           = ([CsvDb.SetLocation
                 ("product.html?id=" ++ Js.encodeURIComponent (CsvDb.Part.id p))], c))
  \/ (exists s,
        noModel /\ noPart /\ s ∈ CsvDb.schematics db
        /\ JsObject.get (CsvDb.schemsById db) (CsvDb.Schematic.id s) = Some s
        /\ (CsvDb.Schematic.id s = q \/ CsvDb.norm (CsvDb.Schematic.name s) = CsvDb.norm q)
        /\ CsvDb.runSearch localeCompare env' c (Some raw)
           = ([CsvDb.SetLocation
                 ("schematic.html?id="
                  ++ Js.encodeURIComponent (CsvDb.Schematic.id s))], c))
  \/ (noModel /\ noPart
      /\ (forall s, s ∈ CsvDb.schematics db -> CsvDb.Schematic.id s <> q)
      /\ (forall s, JsObject.get (CsvDb.schemsById db) (CsvDb.Schematic.id s) = Some s ->
                    CsvDb.norm (CsvDb.Schematic.name s) <> CsvDb.norm q)
      /\ CsvDb.runSearch localeCompare env' c (Some raw)
         = ([CsvDb.Alert ("No exact match found for " ++ String CsvDb.dquote q
                           ++ String CsvDb.dquote ".")], c)).
Proof.
  intros [-> (mr & sr & lr & pr & ->)]%LookupFacts.loaded Hraw%JsFacts.truthy_true.
  intros q noModel noPart.
  pose proof (ResolveFacts.resolveExact_outcome localeCompare mr sr lr pr q) as Hres.
  unfold CsvDb.runSearch. cbn [Js.orEmpty CsvDb.load]. rewrite Hraw. cbn [negb].
  fold q. destruct (CsvDb.resolveExact _ q) as [m|p|s|].
  - left. exists m. destruct Hres as [Hm Hq]. do 2 (split; [done|]).
    destruct Hq as [Hmn%JsFacts.truthy_true _]. by rewrite Hmn.
  - right. left. exists p. by destruct Hres as (? & ? & ?).
  - right. right. left. exists s. by destruct Hres as (? & ? & ? & ? & ?).
  - right. right. right. by destruct Hres as (? & ? & ? & ?).
Qed.

(** X20, on the query [ panel ], the name of a schematic. *)
Lemma csv_runSearch_outcome_witness :
  exists db c,
    CsvDb.load Fixtures.byteCompare Fixtures.repeatedCatalog None = (inr db, c)
    /\ (CsvDb.runSearch Fixtures.byteCompare Fixtures.offline c (Some " panel ")).1
       = [CsvDb.SetLocation "schematic.html?id=S1"]
    /\ let q := Js.trim " panel " in
       let noModel := forall m, m ∈ CsvDb.models db -> ~ Spec.csvModelMatches m q in
       let noPart := forall p, p ∈ CsvDb.parts db -> ~ Spec.csvPartMatches p q in
       (exists m,
           m ∈ CsvDb.models db /\ Spec.csvModelMatches m q
           /\ CsvDb.runSearch Fixtures.byteCompare Fixtures.offline c (Some " panel ")
              = ([CsvDb.SetLocation
                    ("model.html?id="
                     ++ Js.encodeURIComponent (CsvDb.Model.modelNumber m))], c))
       \/ (exists p,
             noModel /\ p ∈ CsvDb.parts db /\ Spec.csvPartMatches p q
             /\ CsvDb.runSearch Fixtures.byteCompare Fixtures.offline c (Some " panel ")
                = ([CsvDb.SetLocation
                      ("product.html?id=" ++ Js.encodeURIComponent (CsvDb.Part.id p))], c))
       \/ (exists s,
             noModel /\ noPart /\ s ∈ CsvDb.schematics db
             /\ JsObject.get (CsvDb.schemsById db) (CsvDb.Schematic.id s) = Some s
             /\ (CsvDb.Schematic.id s = q
                 \/ CsvDb.norm (CsvDb.Schematic.name s) = CsvDb.norm q)
             /\ CsvDb.runSearch Fixtures.byteCompare Fixtures.offline c (Some " panel ")
                = ([CsvDb.SetLocation
                      ("schematic.html?id="
                       ++ Js.encodeURIComponent (CsvDb.Schematic.id s))], c))
       \/ (noModel /\ noPart
           /\ (forall s, s ∈ CsvDb.schematics db -> CsvDb.Schematic.id s <> q)
           /\ (forall s,
                 JsObject.get (CsvDb.schemsById db) (CsvDb.Schematic.id s) = Some s ->
                 CsvDb.norm (CsvDb.Schematic.name s) <> CsvDb.norm q)
           /\ CsvDb.runSearch Fixtures.byteCompare Fixtures.offline c (Some " panel ")
              = ([CsvDb.Alert ("No exact match found for " ++ String CsvDb.dquote q
                                ++ String CsvDb.dquote ".")], c)).
Proof.
  eexists _, _. split; [reflexivity|]. split; [by vm_compute|].
  apply (csv_runSearch_outcome Fixtures.byteCompare Fixtures.repeatedCatalog
           _ _ Fixtures.offline " panel "); [reflexivity|discriminate].
Defined.

(** X21. When one of the four files cannot be fetched, the CSV store's
    [runSearch] on a query that is not blank logs the failure of the load and
    alerts that the CSV data could not be loaded; it goes nowhere, and it
    leaves the cache empty, so that the next search loads again. *)
Theorem csv_runSearch_load_failure localeCompare env raw p e :
  Js.trim raw <> "" -> p ∈ Spec.sources -> CsvDb.fetchText env p = inl e ->
  exists e',
    CsvDb.load localeCompare env None = (inl e', None)
    /\ CsvDb.runSearch localeCompare env None (Some raw)
       = ([CsvDb.ConsoleError e'; CsvDb.Alert CsvDb.loadErrorMessage], None).
Proof.
  intros Hraw%JsFacts.truthy_true Hp He.
  assert (exists e', CsvDb.load localeCompare env None = (inl e', None)) as [e' He'].
  { pose proof (CsvFacts.load_fetches localeCompare env) as Hload.
    CsvFacts.in_sources Hp; rewrite He in Hload;
      repeat (destruct (CsvDb.fetchText env _)); done. }
  exists e'. split; [done|].
  unfold CsvDb.runSearch. cbn [Js.orEmpty]. by rewrite Hraw, He'.
Qed.

(** X21, on a server that cannot be reached. *)
Lemma csv_runSearch_load_failure_witness :
  exists e',
    CsvDb.load Fixtures.byteCompare Fixtures.offline None = (inl e', None)
    /\ CsvDb.runSearch Fixtures.byteCompare Fixtures.offline None (Some "ACM-100")
       = ([CsvDb.ConsoleError e'; CsvDb.Alert CsvDb.loadErrorMessage], None).
Proof.
  apply (csv_runSearch_load_failure Fixtures.byteCompare Fixtures.offline "ACM-100"
           "parts.csv" (CsvDb.FetchRejected "parts.csv")).
  - discriminate.
  - unfold Spec.sources. repeat constructor.
  - reflexivity.
Defined.

(** X22. Whatever the files, the cache and the query, when the CSV store's
    [runSearch] sets the location it does nothing else, and the address is
    model.html, product.html or schematic.html followed by [?id=] and an id
    made of letters, digits, [- _ . ! ~ * ' ( )] and percent escapes only:
    no text of a CSV file reaches the address unencoded. *)
Theorem csv_runSearch_routes localeCompare env cache query href :
  let effects := (CsvDb.runSearch localeCompare env cache query).1 in
  CsvDb.SetLocation href ∈ effects ->
  effects = [CsvDb.SetLocation href]
  /\ Text.routeTo Text.csvPages href.
Proof.
  unfold CsvDb.runSearch.
  destruct (Js.truthy (Js.trim (Js.orEmpty query))); cbn [negb fst];
    [|by intros ?%elem_of_nil].
  destruct (CsvDb.load localeCompare env cache) as [[e|db] c]; cbn [fst].
  { intros [?|[?|?%elem_of_nil]%elem_of_cons]%elem_of_cons; done. }
  destruct (CsvDb.resolveExact db _) as [m|p|s|];
    intros [Heq|?%elem_of_nil]%elem_of_cons; try done;
    injection Heq as ->; (split; [done|]);
    first [apply (RouteFacts.routeTo_encoded _ "model.html")
          |apply (RouteFacts.routeTo_encoded _ "product.html")
          |apply (RouteFacts.routeTo_encoded _ "schematic.html")];
    unfold Text.csvPages; repeat constructor.
Qed.

(** X22, on a part whose id holds a space and an ampersand. *)
Lemma csv_runSearch_routes_witness :
  let effects :=
    (CsvDb.runSearch Fixtures.byteCompare Fixtures.spacedCatalog None (Some "a b&c")).1 in
  effects = [CsvDb.SetLocation "product.html?id=A%20b%26c"]
  /\ Text.routeTo Text.csvPages "product.html?id=A%20b%26c".
Proof.
  apply (csv_runSearch_routes Fixtures.byteCompare Fixtures.spacedCatalog None
           (Some "a b&c") "product.html?id=A%20b%26c").
  vm_compute. left.
Defined.

(** ** The fuzzy engine: exact hits and accessors *)

Module FuzzyLookupFacts.

Import Fuzzy FuzzyFacts LookupFacts Select.

Lemma modelKeys_bool q m : bool_decide (key q ∈ modelKeys m) = modelKeyed q m.
Proof.
  unfold modelKeys, modelKeyed.
  destruct (Js.truthy (Model.modelNumber m)); [|done]. cbn [andb].
  destruct (String.eqb_spec (key (Model.modelNumber m)) (key q)) as [Heq|Hne].
  { apply bool_decide_eq_true_2, elem_of_cons. by left. }
  cbn [orb]. destruct (Model.id m) as [[|c i]|]; cbn [Js.orEmpty Js.truthy andb].
  - apply bool_decide_eq_false_2. intros ?%list_elem_of_singleton; congruence.
  - destruct (String.eqb_spec (key (String c i)) (key q)) as [Heq|Hne'].
    + apply bool_decide_eq_true_2, elem_of_cons. right.
      by apply list_elem_of_singleton.
    + apply bool_decide_eq_false_2.
      intros [?|?%list_elem_of_singleton]%elem_of_cons; congruence.
  - apply bool_decide_eq_false_2. intros ?%list_elem_of_singleton; congruence.
Qed.

Section Build.

Variables modelRows schemRows partRows : list Row.

Let db : DB := build modelRows schemRows partRows.

Lemma lookup_modelByKey q :
  modelByKey (ix db) !! key q = last (List.filter (modelKeyed q) (models db)).
Proof.
  unfold db, build; cbn [ix modelByKey models].
  rewrite (foldl_fun_ext _ _ _ _ indexModel_keys), lookup_index_last, lookup_empty.
  rewrite (filter_ext_eq _ (modelKeyed q)) by (intros m; apply modelKeys_bool).
  by destruct (last _).
Qed.

Lemma lookup_schematicByKey q :
  schematicByKey (ix db) !! key q
  = last (List.filter (schematicKeyed q) (schematics db)).
Proof.
  unfold db, build; cbn [ix schematicByKey schematics].
  rewrite (foldl_fun_ext _ _ _ _ FuzzyResolveFacts.indexSchematic_keys),
    lookup_index_last, lookup_empty.
  rewrite (filter_ext_eq _ (schematicKeyed q)) by (intros s; apply key_if_bool).
  by destruct (last _).
Qed.

Lemma lookup_partByNumberKey q :
  partByNumberKey (ix db) !! key q = last (List.filter (partNumberKeyed q) (parts db)).
Proof.
  unfold db, build; cbn [ix partByNumberKey parts].
  rewrite (foldl_fun_ext _ _ _ _ indexPartNumber_keys), lookup_index_last, lookup_empty.
  rewrite (filter_ext_eq _ (partNumberKeyed q)) by (intros s; apply key_if_bool).
  by destruct (last _).
Qed.

Lemma lookup_partByIdKey q :
  partByIdKey (ix db) !! key q = last (List.filter (partIdKeyed q) (parts db)).
Proof.
  unfold db, build; cbn [ix partByIdKey parts].
  rewrite (foldl_fun_ext _ _ _ _ indexPartId_keys), lookup_index_last, lookup_empty.
  rewrite (filter_ext_eq _ (partIdKeyed q)) by (intros s; apply key_if_bool).
  by destruct (last _).
Qed.

End Build.

End FuzzyLookupFacts.

(** X23. Once [DB.init] has succeeded, the fuzzy engine's [runSearch] on a
    query that is not blank does exactly one of four things. It goes to the
    page of a model that the query matches by the key of its model number or
    id. Or no model matches and it goes to the page of a part that the query
    matches by the key of its number or id. Or no model and no part matches
    and it goes to the page of a schematic whose id has the key of the
    query. Or nothing matches exactly, and it does what the fuzzy fallback
    does. *)
Theorem fuzzy_runSearch_outcome env db raw :
  Fuzzy.init env = Some db ->
  Js.trim raw <> "" ->
  let q := Js.trim raw in
  let noModel := forall m, m ∈ Fuzzy.models db -> ~ Spec.fuzzyModelMatches m q in
  let noPart := forall p, p ∈ Fuzzy.parts db -> ~ Spec.fuzzyPartMatches p q in
  (exists m,
      m ∈ Fuzzy.models db /\ Spec.fuzzyModelMatches m q
      /\ Fuzzy.runSearch env (Some raw)
         = Some [Fuzzy.Go ("model.html?id="
                           ++ Js.encodeURIComponent (Fuzzy.Model.modelNumber m))])
  \/ (exists p,
        noModel /\ p ∈ Fuzzy.parts db /\ Spec.fuzzyPartMatches p q
        /\ Fuzzy.runSearch env (Some raw)
           = Some [Fuzzy.Go ("parts.html?id="
                             ++ Js.encodeURIComponent
                                  (Fuzzy.orStr (Fuzzy.Part.number p) (Fuzzy.Part.id p)))])
  \/ (exists s,
        noModel /\ noPart /\ s ∈ Fuzzy.schematics db
        /\ Fuzzy.Schematic.id s <> "" /\ Fuzzy.key (Fuzzy.Schematic.id s) = Fuzzy.key q
        /\ Fuzzy.runSearch env (Some raw)
           = Some [Fuzzy.Go ("schematic.html?id="
                             ++ Js.encodeURIComponent (Fuzzy.Schematic.id s))])
  \/ (noModel /\ noPart
      /\ (forall s, s ∈ Fuzzy.schematics db ->
                    ~ (Fuzzy.Schematic.id s <> ""
                       /\ Fuzzy.key (Fuzzy.Schematic.id s) = Fuzzy.key q))
      /\ Fuzzy.runSearch env (Some raw) = Some (Fuzzy.fuzzyFallback q db)).
Proof.
  intros Hinit Hraw%JsFacts.truthy_true q noModel noPart.
  destruct (FuzzyFacts.init_build _ _ Hinit) as (t1 & t2 & t3 & ->).
  pose proof (FuzzyResolveFacts.fuzzy_resolveExact_outcome
                (Fuzzy.parseCSV t1) (Fuzzy.parseCSV t2) (Fuzzy.parseCSV t3) q) as Hres.
  unfold Fuzzy.runSearch. rewrite Hinit. cbn [Js.orEmpty]. rewrite Hraw. cbn [negb].
  fold q. destruct (Fuzzy.resolveExact _ (Fuzzy.key q)) as [m|p|s|].
  - left. exists m. destruct Hres as [Hm Hq]. do 2 (split; [done|]).
    destruct Hq as [Hmn _]. by destruct (Fuzzy.Model.modelNumber m).
  - right. left. exists p. by destruct Hres as (? & ? & ?).
  - right. right. left. exists s. by destruct Hres as (? & ? & ? & ? & ?).
  - right. right. right. by destruct Hres as (? & ? & ?).
Qed.

(** X23, on the query [s 2], the id of a schematic up to case and a
    space. *)
Lemma fuzzy_runSearch_outcome_witness :
  exists db,
    Fuzzy.init Fixtures.repeatedCatalog = Some db
    /\ Fuzzy.runSearch Fixtures.repeatedCatalog (Some "s 2")
       = Some [Fuzzy.Go "schematic.html?id=S2"]
    /\ let q := Js.trim "s 2" in
       let noModel := forall m, m ∈ Fuzzy.models db -> ~ Spec.fuzzyModelMatches m q in
       let noPart := forall p, p ∈ Fuzzy.parts db -> ~ Spec.fuzzyPartMatches p q in
       (exists m,
           m ∈ Fuzzy.models db /\ Spec.fuzzyModelMatches m q
           /\ Fuzzy.runSearch Fixtures.repeatedCatalog (Some "s 2")
              = Some [Fuzzy.Go ("model.html?id="
                                ++ Js.encodeURIComponent (Fuzzy.Model.modelNumber m))])
       \/ (exists p,
             noModel /\ p ∈ Fuzzy.parts db /\ Spec.fuzzyPartMatches p q
             /\ Fuzzy.runSearch Fixtures.repeatedCatalog (Some "s 2")
                = Some [Fuzzy.Go ("parts.html?id="
                                  ++ Js.encodeURIComponent
                                       (Fuzzy.orStr (Fuzzy.Part.number p)
                                          (Fuzzy.Part.id p)))])
       \/ (exists s,
             noModel /\ noPart /\ s ∈ Fuzzy.schematics db
             /\ Fuzzy.Schematic.id s <> ""
             /\ Fuzzy.key (Fuzzy.Schematic.id s) = Fuzzy.key q
             /\ Fuzzy.runSearch Fixtures.repeatedCatalog (Some "s 2")
                = Some [Fuzzy.Go ("schematic.html?id="
                                  ++ Js.encodeURIComponent (Fuzzy.Schematic.id s))])
       \/ (noModel /\ noPart
           /\ (forall s, s ∈ Fuzzy.schematics db ->
                         ~ (Fuzzy.Schematic.id s <> ""
                            /\ Fuzzy.key (Fuzzy.Schematic.id s) = Fuzzy.key q))
           /\ Fuzzy.runSearch Fixtures.repeatedCatalog (Some "s 2")
              = Some (Fuzzy.fuzzyFallback q db)).
Proof.
  eexists. split; [reflexivity|]. split; [by vm_compute|].
  apply (fuzzy_runSearch_outcome Fixtures.repeatedCatalog _ "s 2");
    [reflexivity|discriminate].
Defined.

(** X24. Once [DB.init] has succeeded, the accessors it installs return
    the last row that is filed under the key of the query, the key ignoring
    case and separators: [getModelById] the last model, among those that
    have a model number, whose model number or id has that key;
    [getSchematicById] the last schematic whose id has it;
    [getPartByIdOrNumber] the last part whose number has it and, only when
    there is none, the last part whose id has it. *)
Theorem fuzzy_accessors_last_row env db (x : string) :
  Fuzzy.init env = Some db ->
  Fuzzy.getModelById db (Some x)
  = last (List.filter (Select.modelKeyed x) (Fuzzy.models db))
  /\ Fuzzy.getSchematicById db (Some x)
     = last (List.filter (Select.schematicKeyed x) (Fuzzy.schematics db))
  /\ Fuzzy.getPartByIdOrNumber db (Some x)
     = match last (List.filter (Select.partNumberKeyed x) (Fuzzy.parts db)) with
       | Some p => Some p
       | None => last (List.filter (Select.partIdKeyed x) (Fuzzy.parts db))
       end.
Proof.
  intros (t1 & t2 & t3 & ->)%FuzzyFacts.init_build.
  unfold Fuzzy.getModelById, Fuzzy.getSchematicById, Fuzzy.getPartByIdOrNumber.
  cbn [Js.orEmpty].
  rewrite FuzzyLookupFacts.lookup_modelByKey, FuzzyLookupFacts.lookup_schematicByKey,
    FuzzyLookupFacts.lookup_partByNumberKey, FuzzyLookupFacts.lookup_partByIdKey.
  do 2 (split; [done|]). by destruct (last _).
Qed.

(** X24, on a catalog in which PN-1 is the number of one part and p1 the id
    of another. *)
Lemma fuzzy_accessors_last_row_witness :
  exists db,
    Fuzzy.init Fixtures.repeatedCatalog = Some db
    /\ (Fuzzy.getModelById db (Some "pn_1")
        = last (List.filter (Select.modelKeyed "pn_1") (Fuzzy.models db))
        /\ Fuzzy.getSchematicById db (Some "pn_1")
           = last (List.filter (Select.schematicKeyed "pn_1") (Fuzzy.schematics db))
        /\ Fuzzy.getPartByIdOrNumber db (Some "pn_1")
           = match last (List.filter (Select.partNumberKeyed "pn_1") (Fuzzy.parts db)) with
             | Some p => Some p
             | None => last (List.filter (Select.partIdKeyed "pn_1") (Fuzzy.parts db))
             end)
    /\ Fuzzy.Part.id <$> Fuzzy.getPartByIdOrNumber db (Some "pn_1") = Some "P1".
Proof.
  eexists. split; [reflexivity|]. split; [|by vm_compute].
  apply (fuzzy_accessors_last_row Fixtures.repeatedCatalog). reflexivity.
Defined.

(** ** The fuzzy engine: candidates and the fallback *)

Module CandidateFacts.

Import Fuzzy Text.

Local Open Scope float_scope.

(** A bucket: the best [n] of the candidates that passed the threshold. *)
Lemma elem_of_bucket {A} (f : A -> option Candidate) (l : list A) n c :
  c ∈ take n (JsArray.sort byScoreDesc (omap f l)) ->
  exists x, x ∈ l /\ f x = Some c.
Proof.
  intros (i & Hi%list_elem_of_lookup_2 & _)%elem_of_take.
  apply SortFacts.elem_of_sort in Hi. by apply list_elem_of_omap in Hi.
Qed.

Lemma length_bucket {A} (l : list A) n : (length (take n l) <= n)%nat.
Proof. rewrite length_take. lia. Qed.

Lemma modelCandidate_Some q m c :
  modelCandidate q m = Some c ->
  (0.55 <? cscore c) = true /\ routeTo fuzzyPages (route c).
Proof.
  unfold modelCandidate. destruct (0.55 <? _) eqn:E; [|done].
  intros [= <-]. split; [done|]. apply (RouteFacts.routeTo_encoded _ "model.html").
  unfold fuzzyPages. repeat constructor.
Qed.

Lemma partCandidate_Some q p c :
  partCandidate q p = Some c ->
  (0.55 <? cscore c) = true /\ routeTo fuzzyPages (route c).
Proof.
  unfold partCandidate. destruct (0.55 <? _) eqn:E; [|done].
  intros [= <-]. split; [done|]. apply (RouteFacts.routeTo_encoded _ "parts.html").
  unfold fuzzyPages. repeat constructor.
Qed.

Lemma schematicCandidate_Some q s c :
  schematicCandidate q s = Some c ->
  (0.6 <? cscore c) = true /\ routeTo fuzzyPages (route c).
Proof.
  unfold schematicCandidate. destruct (0.6 <? _) eqn:E; [|done].
  intros [= <-]. split; [done|]. apply (RouteFacts.routeTo_encoded _ "schematic.html").
  unfold fuzzyPages. repeat constructor.
Qed.

(** The first entries that [pickUniqueRoute] compares. *)
Lemma elem_of_present {A} (x : A) (a b c : option A) :
  x ∈ present [a; b; c] -> a = Some x \/ b = Some x \/ c = Some x.
Proof.
  unfold present. destruct a, b, c; simpl;
    repeat (intros [->|H]%elem_of_cons; [by eauto|revert H]);
    by intros ?%elem_of_nil.
Qed.

Lemma pickUniqueRoute_Some ms ps ss r :
  pickUniqueRoute ms ps ss = Some r ->
  exists c,
    (ms !! 0%nat = Some c \/ ps !! 0%nat = Some c \/ ss !! 0%nat = Some c)
    /\ route c = r /\ (0.9 <=? cscore c) = true.
Proof.
  unfold pickUniqueRoute.
  destruct (head (JsArray.sort byScoreDesc (present [ms !! 0%nat; ps !! 0%nat; ss !! 0%nat])))
    as [t|] eqn:E; [|done].
  destruct (0.9 <=? cscore t) eqn:Ht; [|done]. simpl.
  destruct (0.12 <=? _); [|done]. intros [= <-].
  exists t. split; [|done].
  apply head_Some_elem_of, SortFacts.elem_of_sort in E. by apply elem_of_present.
Qed.

Lemma key_empty s : Js.allChars isSeparator s = true -> key s = "".
Proof.
  rewrite key_unfold. unfold Js.toUpperCase.
  induction s as [|c s IH]; simpl; [done|].
  intros [Hc Hs]%andb_prop. rewrite isSeparator_upperChar, Hc. simpl. by apply IH.
Qed.

(** The route that [findBestCandidates] picks. *)
Lemma uniqueRoute_Some query db lim r :
  uniqueRoute (findBestCandidates query db lim) = Some r ->
  exists c,
    (bmodels (findBestCandidates query db lim) !! 0%nat = Some c
     \/ bparts (findBestCandidates query db lim) !! 0%nat = Some c
     \/ bschematics (findBestCandidates query db lim) !! 0%nat = Some c)
    /\ route c = r /\ (0.9 <=? cscore c) = true /\ routeTo fuzzyPages r.
Proof.
  unfold findBestCandidates.
  destruct (Js.truthy (key query)); cbn [negb]; [|done].
  cbn [bmodels bparts bschematics uniqueRoute].
  intros (c & Hc & <- & Hs)%pickUniqueRoute_Some.
  exists c. do 3 (split; [done|]).
  destruct Hc as [Hc|[Hc|Hc]]; apply list_elem_of_lookup_2 in Hc;
    apply elem_of_bucket in Hc as (x & _ & Hx).
  - by apply modelCandidate_Some in Hx as [_ ?].
  - by apply partCandidate_Some in Hx as [_ ?].
  - by apply schematicCandidate_Some in Hx as [_ ?].
Qed.

Lemma routeTo_nonempty r : routeTo fuzzyPages r -> r <> "".
Proof.
  intros (page & id & Hpage & -> & _). unfold fuzzyPages in Hpage.
  repeat (apply elem_of_cons in Hpage as [->|Hpage]; [done|]).
  by apply elem_of_nil in Hpage.
Qed.

End CandidateFacts.

Local Open Scope float_scope.

(** X25. The buckets of [findBestCandidates]: each holds at most as many
    candidates as its limit allows, and [totalFound] counts them; every
    candidate is made from an entity of the catalog and has passed its
    threshold, a score above 0.55 for a model or a part and above 0.6 for a
    schematic; and for a query made of separators only there is no candidate
    and no route. *)
Theorem findBestCandidates_buckets (query : string) (db : Fuzzy.DB) (lim : Fuzzy.Limits) :
  let best := Fuzzy.findBestCandidates query db lim in
  (length (Fuzzy.bmodels best) <= Fuzzy.limitModels lim
   /\ length (Fuzzy.bparts best) <= Fuzzy.limitParts lim
   /\ length (Fuzzy.bschematics best) <= Fuzzy.limitSchems lim)%nat
  /\ Fuzzy.totalFound best
     = (length (Fuzzy.bmodels best) + length (Fuzzy.bparts best)
        + length (Fuzzy.bschematics best))%nat
  /\ (forall c, c ∈ Fuzzy.bmodels best ->
        (0.55 <? Fuzzy.cscore c) = true
        /\ exists m, m ∈ Fuzzy.models db
                     /\ Fuzzy.modelCandidate (Fuzzy.key query) m = Some c)
  /\ (forall c, c ∈ Fuzzy.bparts best ->
        (0.55 <? Fuzzy.cscore c) = true
        /\ exists p, p ∈ Fuzzy.parts db
                     /\ Fuzzy.partCandidate (Fuzzy.key query) p = Some c)
  /\ (forall c, c ∈ Fuzzy.bschematics best ->
        (0.6 <? Fuzzy.cscore c) = true
        /\ exists s, s ∈ Fuzzy.schematics db
                     /\ Fuzzy.schematicCandidate (Fuzzy.key query) s = Some c)
  /\ (Js.allChars Fuzzy.isSeparator query = true ->
      Fuzzy.totalFound best = 0%nat /\ Fuzzy.uniqueRoute best = None).
Proof.
  intros best. unfold best, Fuzzy.findBestCandidates.
  destruct (Js.truthy (Fuzzy.key query)) eqn:Hq; cbn [negb].
  - cbn [Fuzzy.bmodels Fuzzy.bparts Fuzzy.bschematics Fuzzy.totalFound Fuzzy.uniqueRoute].
    split; [repeat split; apply CandidateFacts.length_bucket|].
    split; [done|].
    split; [|split; [|split]].
    + intros c (m & Hm & Hc)%CandidateFacts.elem_of_bucket.
      split; [by apply CandidateFacts.modelCandidate_Some in Hc as [? _]|eauto].
    + intros c (p & Hp & Hc)%CandidateFacts.elem_of_bucket.
      split; [by apply CandidateFacts.partCandidate_Some in Hc as [? _]|eauto].
    + intros c (s & Hs & Hc)%CandidateFacts.elem_of_bucket.
      split; [by apply CandidateFacts.schematicCandidate_Some in Hc as [? _]|eauto].
    + intros Hsep%CandidateFacts.key_empty. by rewrite Hsep in Hq.
  - cbn [Fuzzy.bmodels Fuzzy.bparts Fuzzy.bschematics Fuzzy.totalFound Fuzzy.uniqueRoute].
    split; [simpl; lia|]. split; [done|].
    do 3 (split; [by intros ? ?%elem_of_nil|]). done.
Qed.

(** X26. When [findBestCandidates] names a route to go to at once, it is
    the route of the first candidate of one of the three buckets, the score
    of that candidate is at least 0.9, and the route is model.html,
    parts.html or schematic.html with an encoded id. *)
Theorem uniqueRoute_is_a_confident_first_entry
    (query : string) (db : Fuzzy.DB) (lim : Fuzzy.Limits) (r : string) :
  let best := Fuzzy.findBestCandidates query db lim in
  Fuzzy.uniqueRoute best = Some r ->
  exists c,
    (Fuzzy.bmodels best !! 0%nat = Some c \/ Fuzzy.bparts best !! 0%nat = Some c
     \/ Fuzzy.bschematics best !! 0%nat = Some c)
    /\ Fuzzy.route c = r
    /\ (0.9 <=? Fuzzy.cscore c) = true
    /\ Text.routeTo Text.fuzzyPages r.
Proof. intros best. apply CandidateFacts.uniqueRoute_Some. Qed.

(** X26, on a model number that the query misses by its last character. *)
Lemma uniqueRoute_is_a_confident_first_entry_witness :
  exists db,
    Fuzzy.init Fixtures.tiedCatalog = Some db
    /\ let best := Fuzzy.findBestCandidates "ABCDEFGHIJKLM" db Fuzzy.defaultLimits in
       exists c,
         (Fuzzy.bmodels best !! 0%nat = Some c \/ Fuzzy.bparts best !! 0%nat = Some c
          \/ Fuzzy.bschematics best !! 0%nat = Some c)
         /\ Fuzzy.route c = "model.html?id=ABCDEFGHIJKLMN"
         /\ (0.9 <=? Fuzzy.cscore c) = true
         /\ Text.routeTo Text.fuzzyPages "model.html?id=ABCDEFGHIJKLMN".
Proof.
  eexists. split; [reflexivity|].
  apply (uniqueRoute_is_a_confident_first_entry "ABCDEFGHIJKLM" _ Fuzzy.defaultLimits
           "model.html?id=ABCDEFGHIJKLMN").
  by vm_compute.
Defined.

(** X27. The fuzzy fallback of [runSearch] does exactly one of three
    things: it goes to the route that [findBestCandidates] names; or, with
    no such route and at least one candidate, it opens the overlay on the
    buckets, which hold at most 8 models, 8 parts and 5 schematics; or, with
    no candidate at all, it opens the overlay on empty buckets and shows the
    toast that nothing was found. *)
Theorem fuzzyFallback_outcome (q : string) (db : Fuzzy.DB) :
  let best := Fuzzy.findBestCandidates q db Fuzzy.defaultLimits in
  (exists r, Fuzzy.uniqueRoute best = Some r /\ Fuzzy.fuzzyFallback q db = [Fuzzy.Go r])
  \/ (Fuzzy.uniqueRoute best = None
      /\ (0 < length (Fuzzy.bmodels best) + length (Fuzzy.bparts best)
              + length (Fuzzy.bschematics best))%nat
      /\ (length (Fuzzy.bmodels best) <= 8 /\ length (Fuzzy.bparts best) <= 8
          /\ length (Fuzzy.bschematics best) <= 5)%nat
      /\ Fuzzy.fuzzyFallback q db
         = [Fuzzy.OpenSuggestionsOverlay q (Fuzzy.bmodels best) (Fuzzy.bparts best)
              (Fuzzy.bschematics best)])
  \/ (Fuzzy.uniqueRoute best = None
      /\ Fuzzy.bmodels best = [] /\ Fuzzy.bparts best = [] /\ Fuzzy.bschematics best = []
      /\ Fuzzy.fuzzyFallback q db
         = [Fuzzy.OpenSuggestionsOverlay q [] [] [];
            Fuzzy.ShowToast "No matches found. Try a different model/part number."]).
Proof.
  intros best. unfold Fuzzy.fuzzyFallback. fold best.
  destruct (Fuzzy.uniqueRoute best) as [r|] eqn:Hr.
  - left. exists r. split; [done|].
    apply CandidateFacts.uniqueRoute_Some in Hr as (_ & _ & _ & _ & Hroute).
    apply CandidateFacts.routeTo_nonempty in Hroute. by destruct r.
  - right.
    assert (Fuzzy.totalFound best
            = (length (Fuzzy.bmodels best) + length (Fuzzy.bparts best)
               + length (Fuzzy.bschematics best))%nat) as ->.
    { unfold best, Fuzzy.findBestCandidates. by destruct (Js.truthy (Fuzzy.key q)). }
    destruct (Nat.ltb_spec 0 (length (Fuzzy.bmodels best) + length (Fuzzy.bparts best)
                              + length (Fuzzy.bschematics best))) as [Hpos|Hzero].
    + left. do 2 (split; [done|]). split; [|done].
      unfold best, Fuzzy.findBestCandidates.
      destruct (Js.truthy (Fuzzy.key q)); cbn [negb]; simpl; [|lia].
      repeat split; apply CandidateFacts.length_bucket.
    + right. split; [done|].
      destruct (Fuzzy.bmodels best), (Fuzzy.bparts best), (Fuzzy.bschematics best);
        simpl in Hzero; try lia. done.
Qed.

(** X28. Whatever the files and the query, when the fuzzy engine's
    [runSearch] goes to an address it does nothing else, and the address is
    model.html, parts.html or schematic.html followed by [?id=] and an id
    made of letters, digits, [- _ . ! ~ * ' ( )] and percent escapes only. *)
Theorem fuzzy_runSearch_routes env query effects url :
  Fuzzy.runSearch env query = Some effects ->
  Fuzzy.Go url ∈ effects ->
  effects = [Fuzzy.Go url] /\ Text.routeTo Text.fuzzyPages url.
Proof.
  unfold Fuzzy.runSearch. destruct (Fuzzy.init env) as [db|]; [|done].
  destruct (Js.truthy (Js.trim (Js.orEmpty query))); cbn [negb].
  2: { intros [= <-] [?|?%elem_of_nil]%elem_of_cons; done. }
  intros [= <-].
  destruct (Fuzzy.resolveExact db _) as [m|p|s|].
  1-3: intros [Heq|?%elem_of_nil]%elem_of_cons; [|done];
    injection Heq as ->; (split; [done|]);
    first [apply (RouteFacts.routeTo_encoded _ "model.html")
          |apply (RouteFacts.routeTo_encoded _ "parts.html")
          |apply (RouteFacts.routeTo_encoded _ "schematic.html")];
    unfold Text.fuzzyPages; repeat constructor.
  unfold Fuzzy.fuzzyFallback.
  destruct (Fuzzy.uniqueRoute _) as [r|] eqn:Hr.
  - apply CandidateFacts.uniqueRoute_Some in Hr as (_ & _ & _ & _ & Hroute).
    pose proof (CandidateFacts.routeTo_nonempty r Hroute) as Hne.
    destruct r as [|c r]; [done|].
    intros [Heq|?%elem_of_nil]%elem_of_cons; [|done]. by injection Heq as ->.
  - destruct (0 <? _)%nat.
    + intros [?|?%elem_of_nil]%elem_of_cons; done.
    + intros [?|[?|?%elem_of_nil]%elem_of_cons]%elem_of_cons; done.
Qed.

(** X28, on a part number that holds a space, found by its key. *)
Lemma fuzzy_runSearch_routes_witness :
  Fuzzy.runSearch Fixtures.spacedCatalog (Some "pn9") = Some [Fuzzy.Go "parts.html?id=PN%209"]
  /\ Text.routeTo Text.fuzzyPages "parts.html?id=PN%209".
Proof.
  split; [by vm_compute|].
  apply (fuzzy_runSearch_routes Fixtures.spacedCatalog (Some "pn9")
           [Fuzzy.Go "parts.html?id=PN%209"] "parts.html?id=PN%209").
  - by vm_compute.
  - left.
Defined.

Local Close Scope float_scope.
